(** * midir: similarity losses, Huber regulariser and model set-up

    A shallow embedding, in exact real arithmetic, of
    - [model/losses.py]        (huber_loss_spatial, huber_loss_temporal),
    - [model/loss/sim_loss.py] (MILossGaussian, LNCCLoss, MILossBSpline),
    - [model/models.py]        (DLRegModel construction),
    together with the properties the specification states about them.

    Tensors are dense arrays: a dtype tag, a shape and an index function.
    Floating point is abstracted to the reals: a torch operation is the real
    function it approximates, and a dtype cast keeps the values. *)

From Stdlib Require Import String.
From Stdlib Require Import Reals List Arith Lia Lra Bool.
From Stdlib Require Import FunctionalExtensionality Permutation.
Import ListNotations.
Open Scope R_scope.

(** ** Finite sums *)

Definition Rsum (l : list R) : R := fold_right Rplus 0 l.

Definition big_sum (n : nat) (f : nat -> R) : R := Rsum (map f (seq 0 n)).

(** ** Tensors *)

Inductive dtype := Float16 | Float32 | Float64.

Definition dtype_rank (d : dtype) : nat :=
  match d with Float16 => 0 | Float32 => 1 | Float64 => 2 end%nat.

(* torch's type promotion between floating dtypes: the wider one *)
Definition promote (a b : dtype) : dtype :=
  if (dtype_rank a <=? dtype_rank b)%nat then b else a.

Definition index := list nat.

Record tensor := mkTensor {
  t_dtype : dtype;
  t_shape : list nat;
  t_at : index -> R
}.

Definition numel (s : list nat) : nat := fold_right Nat.mul 1%nat s.

(* all indices of a shape, in row-major order *)
Fixpoint indices (s : list nat) : list index :=
  match s with
  | [] => [[]]
  | n :: s' => flat_map (fun i => map (cons i) (indices s')) (seq 0 n)
  end.

(* the elements in row-major order: [t.flatten()] *)
Definition to_list (t : tensor) : list R := map (t_at t) (indices (t_shape t)).

Definition tmap (f : R -> R) (t : tensor) : tensor :=
  mkTensor (t_dtype t) (t_shape t) (fun i => f (t_at t i)).

(* elementwise binary operation on equal-shaped operands *)
Definition tmap2 (f : R -> R -> R) (a b : tensor) : tensor :=
  mkTensor (promote (t_dtype a) (t_dtype b)) (t_shape a)
           (fun i => f (t_at a i) (t_at b i)).

Definition tadd := tmap2 Rplus.
Definition tsub := tmap2 Rminus.
Definition tmul := tmap2 Rmult.
Definition tdiv := tmap2 Rdiv.
Definition tsq (t : tensor) : tensor := tmap (fun v => v ^ 2) t.
Definition tsqrt (t : tensor) : tensor := tmap sqrt t.

(* [torch.sum(t)] and [torch.mean(t)] over all elements.  torch gives nan for
   the mean of an empty tensor, for which the quotient by [INR 0] stands here;
   the bounds proved on a mean are stated for non-empty tensors. *)
Definition tsum (t : tensor) : R := Rsum (to_list t).
Definition tmean (t : tensor) : R := tsum t / INR (numel (t_shape t)).

(* index and shape surgery along one axis *)
Fixpoint at_axis {A} (axis : nat) (f : A -> A) (l : list A) : list A :=
  match l, axis with
  | [], _ => []
  | x :: r, O => f x :: r
  | x :: r, S a => x :: at_axis a f r
  end.

Definition insert_at (d : nat) (i : nat) (idx : index) : index :=
  firstn d idx ++ i :: skipn d idx.

Definition remove_at {A} (d : nat) (l : list A) : list A :=
  firstn d l ++ skipn (S d) l.

(* [t[..., k:, ...]] along [axis] *)
Definition slice_from (axis k : nat) (t : tensor) : tensor :=
  mkTensor (t_dtype t) (at_axis axis (fun n => n - k)%nat (t_shape t))
           (fun i => t_at t (at_axis axis (fun j => j + k)%nat i)).

(* [t[..., :-1, ...]] along [axis] *)
Definition slice_drop_last (axis : nat) (t : tensor) : tensor :=
  mkTensor (t_dtype t) (at_axis axis (fun n => n - 1)%nat (t_shape t)) (t_at t).

(* [torch.sum(t, dim=d)] *)
Definition sum_dim (d : nat) (t : tensor) : tensor :=
  mkTensor (t_dtype t) (remove_at d (t_shape t))
           (fun i => big_sum (nth d (t_shape t) 0%nat)
                             (fun k => t_at t (insert_at d k i))).

(* [torch.norm(t, dim=d)]: the 2-norm along axis [d] *)
Definition norm_dim (d : nat) (t : tensor) : tensor :=
  tsqrt (sum_dim d (tsq t)).

(** ** model/losses.py *)

Module Losses.

Definition eps : R := 0.01.

Definition huber_loss_spatial (flow : tensor) : R :=
  (* magnitude of the flow *)
  let flow_norm := norm_dim 1 flow in
  (* spatial finite derivative, 1st order *)
  let flow_norm_dx := tsub (slice_from 1 1 flow_norm) (slice_drop_last 1 flow_norm) in
  let flow_norm_dy := tsub (slice_from 2 1 flow_norm) (slice_drop_last 2 flow_norm) in
  (* drop 1 on one dimension to match shapes *)
  let spatial_huber_loss :=
    tadd (tsq (slice_drop_last 2 flow_norm_dx)) (tsq (slice_drop_last 1 flow_norm_dy)) in
  let spatial_huber_loss :=
    tsqrt (tmap (fun s => eps + s) (sum_dim 1 (sum_dim 1 spatial_huber_loss))) in
  tmean spatial_huber_loss.

Definition huber_loss_temporal (flow : tensor) : R :=
  let flow_norm := norm_dim 1 flow in
  (* temporal finite derivatives, 1st order *)
  let flow_norm_dt := tsub (slice_from 0 1 flow_norm) (slice_drop_last 0 flow_norm) in
  sqrt (eps + tsum (tsq flow_norm_dt)).

End Losses.

(** ** Further tensor operations used by model/loss/sim_loss.py *)

Definition tneg (t : tensor) : tensor := tmap Ropp t.
Definition tlog (t : tensor) : tensor := tmap ln t.
Definition tadds (t : tensor) (c : R) : tensor := tmap (fun v => v + c) t.
Definition tmuls (t : tensor) (c : R) : tensor := tmap (fun v => v * c) t.
Definition tdivs (t : tensor) (c : R) : tensor := tmap (fun v => v / c) t.
Definition tscale (c : R) (t : tensor) : tensor := tmap (fun v => c * v) t.

Definition ones (dt : dtype) (s : list nat) : tensor := mkTensor dt s (fun _ => 1).

(* [torch.linspace(start, stop, steps)]; for one step the only point is [start] *)
Definition linspace (start stop : R) (steps : nat) : tensor :=
  mkTensor Float32 [steps]
    (fun i => start + INR (hd 0%nat i) * ((stop - start) / INR (steps - 1))).

(* [torch.arange(n)] *)
Definition arange (n : nat) : tensor :=
  mkTensor Float32 [n] (fun i => INR (hd 0%nat i)).

(* [t.unsqueeze(d)] *)
Definition unsqueeze (d : nat) (t : tensor) : tensor :=
  mkTensor (t_dtype t) (firstn d (t_shape t) ++ 1%nat :: skipn d (t_shape t))
           (fun i => t_at t (remove_at d i)).

(* [t.type_as(x)]: a cast.  A cast to a dtype at least as wide is exact; a
   narrowing cast rounds, which real arithmetic does not show, like the
   rounding of every other operation: what is proved of the values of a cast
   tensor is stated for casts that do not narrow *)
Definition type_as (t x : tensor) : tensor :=
  mkTensor (t_dtype x) (t_shape t) (t_at t).

(* [t.flatten(start_dim=d, end_dim=-1)], row-major *)
Definition flatten_from (d : nat) (t : tensor) : tensor :=
  mkTensor (t_dtype t)
           (firstn d (t_shape t) ++ [numel (skipn d (t_shape t))])
           (fun i => t_at t (firstn d i ++
                             nth (nth d i 0%nat) (indices (skipn d (t_shape t))) [])).

(* [t.transpose(1, 2)] of a rank-3 tensor *)
Definition transpose12 (t : tensor) : tensor :=
  mkTensor (t_dtype t)
           (match t_shape t with
            | [n; a; b] => [n; b; a]
            | s => s
            end)
           (fun i => match i with
                     | [n; a; b] => t_at t [n; b; a]
                     | _ => t_at t i
                     end).

(* [a.bmm(b)]: (N, I, K) x (N, K, J) -> (N, I, J), for operands whose batch
   and inner sizes agree (torch raises otherwise) *)
Definition bmm (a b : tensor) : tensor :=
  mkTensor (promote (t_dtype a) (t_dtype b))
           [nth 0 (t_shape a) 0%nat; nth 1 (t_shape a) 0%nat; nth 2 (t_shape b) 0%nat]
           (fun i => match i with
                     | [n; r; c] =>
                         big_sum (nth 2 (t_shape a) 0%nat)
                                 (fun k => t_at a [n; r; k] * t_at b [n; k; c])
                     | _ => 0
                     end).

(* broadcast [x - bins] of x : (N, 1, K) against bins : (B, 1), giving (N, B, K) *)
Definition sub_bins (x bins : tensor) : tensor :=
  mkTensor (promote (t_dtype x) (t_dtype bins))
           [nth 0 (t_shape x) 0%nat; nth 0 (t_shape bins) 0%nat; nth 2 (t_shape x) 0%nat]
           (fun i => match i with
                     | [n; b; k] => t_at x [n; 0%nat; k] - t_at bins [b; 0%nat]
                     | _ => 0
                     end).

(* broadcast [bins - x] of bins : (B, 1) against x : (N, 1, K), giving (N, B, K) *)
Definition bins_sub (bins x : tensor) : tensor :=
  mkTensor (promote (t_dtype bins) (t_dtype x))
           [nth 0 (t_shape x) 0%nat; nth 0 (t_shape bins) 0%nat; nth 2 (t_shape x) 0%nat]
           (fun i => match i with
                     | [n; b; k] => t_at bins [b; 0%nat] - t_at x [n; 0%nat; k]
                     | _ => 0
                     end).

(* broadcast [h / norm.view(-1, 1, 1)] of h : (N, B, B) by norm : (N) *)
Definition div_per_sample (h norm : tensor) : tensor :=
  mkTensor (promote (t_dtype h) (t_dtype norm)) (t_shape h)
           (fun i => t_at h i / t_at norm [hd 0%nat i]).

(* [torch.sum(t, dim=(1, 2))] *)
Definition sum_dim12 (t : tensor) : tensor := sum_dim 1 (sum_dim 2 t).

(* a 1-D tensor holding the elements of a list *)
Definition of_list (dt : dtype) (l : list R) : tensor :=
  mkTensor dt [length l] (fun i => nth (hd 0%nat i) l 0).

Definition Rgtb (a b : R) : bool := if Rlt_dec b a then true else false.

(* [torch.masked_select(x, mask)] with [mask = (m > threshold)], for a mask of
   the shape of [x]: the selected values of the whole tensor, row-major, 1-D *)
Definition masked_select_gt (x m : tensor) (threshold : R) : tensor :=
  of_list (t_dtype x)
          (map (t_at x)
               (filter (fun i => Rgtb (t_at m i) threshold) (indices (t_shape x)))).

(** ** model/loss/sim_loss.py: MILossGaussian *)

Module MILossGaussian.

Record t := mk {
  vmin : R;
  vmax : R;
  sigma : R;
  num_bins : Z;
  bins : tensor;
  roi : bool;
  roi_threshold : R;
  normalised : bool
}.

Definition set_bins (self : t) (b : tensor) : t :=
  mk (vmin self) (vmax self) (sigma self) (num_bins self) b
     (roi self) (roi_threshold self) (normalised self).

(* [__init__].  [num_bins = 0] raises ZeroDivisionError in [bin_width], a
   negative [num_bins] makes [torch.linspace] raise: no module is built. *)
Definition init (vmin vmax : R) (num_bins : Z) (roi : bool) (roi_threshold : R)
    (normalised : bool) : option t :=
  if (num_bins <=? 0)%Z then None
  else
    (* set the std of Gaussian kernel so that FWHM is one bin width *)
    let bin_width := (vmax - vmin) / IZR num_bins in
    let sigma := bin_width * (1 / (2 * sqrt (2 * ln 2))) in
    (* set bin edges *)
    let bins := unsqueeze 1 (linspace vmin vmax (Z.to_nat num_bins)) in
    Some (mk vmin vmax sigma num_bins bins roi roi_threshold normalised).

(* the defaults of [__init__] *)
Definition default : option t := init 0 1 64 false 0.0001 true.

(* Parzen window function response (N, #bins, H*W*D) *)
Definition window_response (self : t) (x : tensor) : tensor :=
  tmuls (tdivs (tmap exp (tdivs (tneg (tsq (sub_bins x (bins self))))
                                (2 * sigma self ^ 2)))
               (sqrt (2 * PI)))
        (sigma self).

(* Input shapes (N, 1, H*W*D); the cast of the bins is stored on the module *)
Definition _compute_joint_prob (self : t) (x y : tensor) : tensor * t :=
  (* cast bins *)
  let self := set_bins self (type_as (bins self) x) in
  let win_x := window_response self x in
  let win_y := window_response self y in
  (* calculate joint histogram batch *)
  let hist_joint := bmm win_x (transpose12 win_y) in
  (* normalise joint histogram to get joint distribution *)
  let hist_norm := tadds (sum_dim 1 (flatten_from 1 hist_joint)) 1e-10 in
  let p_joint := div_per_sample hist_joint hist_norm in
  (p_joint, self).

Section Forward.

(* [utils.image.avg_filtering(x, filter_size)] is not among the sources: a
   parameter of the model *)
Variable avg_filtering : tensor -> nat -> tensor.

Definition forward (self : t) (x y : tensor) : R * t :=
  let '(x, y) :=
    if roi self then
      let img_avg := tdivs (tadd x y) 2 in
      let img_avg_smooth := avg_filtering img_avg 7 in (* extend ROI *)
      (unsqueeze 0 (unsqueeze 0
         (masked_select_gt x img_avg_smooth (roi_threshold self))),
       unsqueeze 0 (unsqueeze 0
         (masked_select_gt y img_avg_smooth (roi_threshold self))))
    else
      (flatten_from 2 x, flatten_from 2 y) in
  (* compute joint distribution *)
  let '(p_joint, self) := _compute_joint_prob self x y in
  (* marginalise the joint distribution to get marginal distributions *)
  let p_x := sum_dim 2 p_joint in
  let p_y := sum_dim 1 p_joint in
  (* calculate entropy *)
  let ent_x := tneg (sum_dim 1 (tmul p_x (tlog (tadds p_x 1e-10)))) in
  let ent_y := tneg (sum_dim 1 (tmul p_y (tlog (tadds p_y 1e-10)))) in
  let ent_joint := tneg (sum_dim12 (tmul p_joint (tlog (tadds p_joint 1e-10)))) in
  if normalised self then
    (- tmean (tdiv (tadd ent_x ent_y) ent_joint), self)
  else
    (- tmean (tsub (tadd ent_x ent_y) ent_joint), self).

End Forward.

End MILossGaussian.

(** ** model/loss/sim_loss.py: LNCCLoss *)

Definition zip_with {A B C} (f : A -> B -> C) (l : list A) (l' : list B) : list C :=
  map (fun p => f (fst p) (snd p)) (combine l l').

(* the value at spatial position [j] of sample [n], channel [c] of [input]
   after zero padding by [padding] on both sides of every spatial axis *)
Definition padded_at (input : tensor) (padding : list nat) (n c : nat) (j : index) : R :=
  let size := skipn 2 (t_shape input) in
  if forallb (fun q => (fst (snd q) <=? fst q)%nat && (fst q <? fst (snd q) + snd (snd q))%nat)
             (combine j (combine padding size))
  then t_at input (n :: c :: zip_with Nat.sub j padding)
  else 0.

(* [F.conv{d}d(input, weight, stride=stride, padding=padding)], no bias:
   input (N, C, *size), weight (O, C, *kernel), for a kernel of at least one
   element per axis.  [None] where torch raises (ranks or channels that do not
   fit, a kernel larger than the padded input) *)
Definition convNd (d : nat) (input weight : tensor) (stride padding : list nat)
    : option tensor :=
  match t_shape input, t_shape weight with
  | n :: c :: size, o :: c' :: kernel =>
      if ((length size =? d)%nat && (length kernel =? d)%nat
          && (length stride =? d)%nat && (length padding =? d)%nat
          && (c =? c')%nat
          && forallb (fun s => (1 <=? s)%nat) stride
          && forallb (fun q => (fst q <=? fst (snd q) + 2 * snd (snd q))%nat)
                     (combine kernel (combine size padding)))%bool
      then
        Some (mkTensor (promote (t_dtype input) (t_dtype weight))
                (n :: o ::
                 zip_with (fun sz q => ((sz + 2 * fst (snd q) - fst q) / snd (snd q) + 1)%nat)
                          size (combine kernel (combine padding stride)))
                (fun i =>
                   match i with
                   | b :: f :: pos =>
                       big_sum c (fun ch =>
                         Rsum (map (fun off =>
                                 padded_at input padding b ch
                                   (zip_with Nat.add (zip_with Nat.mul pos stride) off)
                                 * t_at weight (f :: ch :: off))
                               (indices kernel)))
                   | _ => 0
                   end))
      else None
  | _, _ => None
  end.

(* [getattr(F, f'conv{dim}d')]: torch has conv1d, conv2d and conv3d *)
Definition conv_of_dim (dim : nat)
    : option (tensor -> tensor -> list nat -> list nat -> option tensor) :=
  match dim with
  | 1%nat | 2%nat | 3%nat => Some (convNd dim)
  | _ => None
  end.

(* a window size is a number or a tuple of numbers *)
Inductive size_param := Scalar (w : nat) | Tuple (ws : list nat).

(** Modelled from the spec: [utils.misc.param_dim_setup] is not among the
    sources.  "window size per spatial axis (scalar or explicit tuple), matched
    to the input's spatial rank": a scalar is repeated for every axis, a tuple
    must have one entry per axis. *)
Definition param_dim_setup (p : size_param) (dim : nat) : option (list nat) :=
  match p with
  | Scalar w => Some (repeat w dim)
  | Tuple ws => if (length ws =? dim)%nat then Some ws else None
  end.

Module LNCCLoss.

Record t := mk { window_size : size_param }.

Definition init (window_size : size_param) : t := mk window_size.

Definition bind {A B} (o : option A) (k : A -> option B) : option B :=
  match o with Some a => k a | None => None end.

Notation "x <- e ;; k" := (bind e (fun x => k))
  (at level 61, e at next level, right associativity).

Definition forward (self : t) (tar src : tensor) : option R :=
  (* products and squares *)
  let tar2 := tmul tar tar in
  let src2 := tmul src src in
  let tar_src := tmul tar src in
  (* set window size *)
  let dim := (length (t_shape tar) - 2)%nat in
  window_size <- param_dim_setup (window_size self) dim ;;
  (* summation filter for convolution *)
  let sum_filt := type_as (ones Float32 (1 :: 1 :: window_size)%nat) tar in
  (* set stride and padding *)
  let stride := repeat 1%nat dim in
  let padding := map (fun w => (w / 2)%nat) window_size in
  (* get convolution function of the correct dimension *)
  conv_fn <- conv_of_dim dim ;;
  (* summing over window by convolution *)
  tar_sum <- conv_fn tar sum_filt stride padding ;;
  src_sum <- conv_fn src sum_filt stride padding ;;
  tar2_sum <- conv_fn tar2 sum_filt stride padding ;;
  src2_sum <- conv_fn src2 sum_filt stride padding ;;
  tar_src_sum <- conv_fn tar_src sum_filt stride padding ;;
  let window_num_points := INR (numel window_size) in
  let mu_tar := tdivs tar_sum window_num_points in
  let mu_src := tdivs src_sum window_num_points in
  let cov := tadd (tsub (tsub tar_src_sum (tmul mu_src tar_sum)) (tmul mu_tar src_sum))
                  (tmuls (tmul mu_tar mu_src) window_num_points) in
  let tar_var := tadd (tsub tar2_sum (tmul (tscale 2 mu_tar) tar_sum))
                      (tmuls (tmul mu_tar mu_tar) window_num_points) in
  let src_var := tadd (tsub src2_sum (tmul (tscale 2 mu_src) src_sum))
                      (tmuls (tmul mu_src mu_src) window_num_points) in
  let lncc := tdiv (tmul cov cov) (tadds (tmul tar_var src_var) 1e-5) in
  Some (- tmean lncc).

End LNCCLoss.

(** ** model/loss/sim_loss.py: MILossBSpline *)

(* [t[:, 0, ...]] *)
Definition select_channel0 (t : tensor) : tensor :=
  mkTensor (t_dtype t) (remove_at 1 (t_shape t))
           (fun i => t_at t (insert_at 1 0%nat i)).

Module MILossBSpline.

Open Scope string_scope.

Record t := mk {
  debug : bool;
  normalised : bool;
  window : string;
  target_min : R;
  target_max : R;
  source_min : R;
  source_max : R;
  bin_width_target : R;
  bin_width_source : R;
  bins_target : tensor;
  bins_source : tensor;
  eps_target : R;
  eps_source : R;
  (* the debug fields; they only exist (and start as None) when debug is set *)
  histogram_joint : option tensor;
  p_joint : option tensor;
  p_target : option tensor;
  p_source : option tensor
}.

Definition set_bins_target (self : t) (b : tensor) : t :=
  mk (debug self) (normalised self) (window self) (target_min self) (target_max self)
     (source_min self) (source_max self) (bin_width_target self) (bin_width_source self)
     b (bins_source self) (eps_target self) (eps_source self)
     (histogram_joint self) (p_joint self) (p_target self) (p_source self).

Definition set_bins_source (self : t) (b : tensor) : t :=
  mk (debug self) (normalised self) (window self) (target_min self) (target_max self)
     (source_min self) (source_max self) (bin_width_target self) (bin_width_source self)
     (bins_target self) b (eps_target self) (eps_source self)
     (histogram_joint self) (p_joint self) (p_target self) (p_source self).

Definition store_debug (self : t) (h pj pt ps : tensor) : t :=
  mk (debug self) (normalised self) (window self) (target_min self) (target_max self)
     (source_min self) (source_max self) (bin_width_target self) (bin_width_source self)
     (bins_target self) (bins_source self) (eps_target self) (eps_source self)
     (Some h) (Some pj) (Some pt) (Some ps).

(* [__init__]; a zero number of bins raises ZeroDivisionError *)
Definition init (target_min target_max source_min source_max : R)
    (num_bins_target num_bins_source : nat) (c_target c_source : R)
    (normalised : bool) (window : string) (debug : bool) : option t :=
  if ((num_bins_target =? 0) || (num_bins_source =? 0))%nat then None
  else
    (* set bin edges (assuming image intensity is normalised to the range) *)
    let bin_width_target := (target_max - target_min) / INR num_bins_target in
    let bin_width_source := (source_max - source_min) / INR num_bins_source in
    let bins_target := tadds (tmuls (arange num_bins_target) bin_width_target) target_min in
    let bins_source := tadds (tmuls (arange num_bins_source) bin_width_source) source_min in
    Some (mk debug normalised window target_min target_max source_min source_max
             bin_width_target bin_width_source
             (unsqueeze 1 bins_target) (unsqueeze 1 bins_source)
             (c_target * bin_width_target) (c_source * bin_width_source)
             None None None None).

Section Forward.

(* [utils.image.normalise_intensity(x, mode, min_out, max_out)] and the window
   functions of [model.loss.window_func] are not among the sources:
   parameters of the model *)
Variable normalise_intensity : tensor -> string -> R -> R -> tensor.
Variable cubic_bspline_torch : tensor -> tensor.
Variable rect_window_torch : tensor -> tensor.

(* [None] when the Exception "Window function not recognised." is raised *)
Definition _parzen_window_1d (x : tensor) (window : string) : option tensor :=
  if String.eqb window "cubic_bspline" then Some (cubic_bspline_torch x)
  else if String.eqb window "rectangle" then Some (rect_window_torch x)
  else None.

(* the returned value ([None] when the call raises) and the module afterwards *)
Definition forward (self : t) (target source : tensor) : option R * t :=
  (* normalise intensity for histogram calculation *)
  let target := unsqueeze 1 (normalise_intensity (select_channel0 target) "minmax"
                               (target_min self) (target_max self)) in
  let source := unsqueeze 1 (normalise_intensity (select_channel0 source) "minmax"
                               (source_min self) (source_max self)) in
  (* flatten images to (N, 1, prod(size)) *)
  let target := flatten_from 2 target in
  let source := flatten_from 2 source in
  (* bins to device *)
  let self := set_bins_target self (type_as (bins_target self) target) in
  let self := set_bins_source self (type_as (bins_source self) source) in
  (* calculate Parzen window function response *)
  let D_target := tdivs (bins_sub (bins_target self) target) (eps_target self) in
  let D_source := tdivs (bins_sub (bins_source self) source) (eps_source self) in
  match _parzen_window_1d D_target (window self) with
  | None => (None, self)
  | Some W_target =>
  match _parzen_window_1d D_source (window self) with
  | None => (None, self)
  | Some W_source =>
      (* calculate joint histogram (using batch matrix multiplication) *)
      let hist_joint := bmm W_target (transpose12 W_source) in
      let hist_joint := tdivs hist_joint (eps_target self * eps_source self) in
      (* normalise joint histogram to get joint distribution *)
      let hist_norm := sum_dim 1 (flatten_from 1 hist_joint) in
      let p_joint := div_per_sample hist_joint hist_norm in
      (* marginalise the joint distribution to get marginal distributions *)
      let p_target := sum_dim 2 p_joint in
      let p_source := sum_dim 1 p_joint in
      (* calculate entropy *)
      let ent_target := tneg (sum_dim 1 (tmul p_target (tlog (tadds p_target 1e-12)))) in
      let ent_source := tneg (sum_dim 1 (tmul p_source (tlog (tadds p_source 1e-12)))) in
      let ent_joint := tneg (sum_dim12 (tmul p_joint (tlog (tadds p_joint 1e-12)))) in
      (* debug mode: store bins, histograms & distributions *)
      let self := if debug self
                  then store_debug self hist_joint p_joint p_target p_source
                  else self in
      if normalised self then
        (Some (- tmean (tdiv (tadd ent_target ent_source) ent_joint)), self)
      else
        (Some (- tmean (tsub (tadd ent_target ent_source) ent_joint)), self)
  end end.

End Forward.

End MILossBSpline.

(** ** model/models.py: DLRegModel *)

Module Models.

Open Scope string_scope.

Inductive exn :=
| ValueError (msg : string)
| Raised (e : string). (* any exception raised inside a constructor that is called *)

Definition result (A : Type) : Type := (exn + A)%type.

Section DLRegModel.

(* the networks and transformations are built by classes of [model.networks]
   and [model.transformations], which are not among the sources: their types
   and constructors are parameters, and a constructor may raise *)
Variable hyper : Type.         (* dim, crop_size, ffd_sigma, enc_channels, ... *)
Variable network : Type.
Variable transform : Type.
Variable SiameseNet : result network.
Variable UNet : hyper -> result network.
Variable SiameseNetFFD : result network.
Variable FFDNet : hyper -> result network.
Variable DVFTransform : result transform.
Variable BSplineFFDTransform : hyper -> result transform.

Record params := mk_params {
  p_network : string;
  p_transformation : string;
  p_hyper : hyper
}.

Record DLRegModel := mk {
  m_params : params;
  epoch_num : Z;
  iter_num : Z;
  is_best : bool;
  best_metric_result : R;
  m_network : network;
  m_transform : transform
}.

Definition _set_network (p : params) : result network :=
  if String.eqb (p_network p) "SiameseNetDVF" then SiameseNet
  else if String.eqb (p_network p) "UNetDVF" then UNet (p_hyper p)
  else if String.eqb (p_network p) "SiameseNetFFD" then SiameseNetFFD
  else if String.eqb (p_network p) "FFDNet" then FFDNet (p_hyper p)
  else inl (ValueError "Model: Network not recognised").

Definition _set_transformation_model (p : params) : result transform :=
  if String.eqb (p_transformation p) "DVF" then DVFTransform
  else if String.eqb (p_transformation p) "FFD" then BSplineFFDTransform (p_hyper p)
  else inl (ValueError "Model: Transformation model not recognised").

(* [__init__]: the recording variables, then the network, then the
   transformation model *)
Definition init (p : params) : result DLRegModel :=
  match _set_network p with
  | inl e => inl e
  | inr net =>
      match _set_transformation_model p with
      | inl e => inl e
      | inr tr => inr (mk p 0%Z 0%Z false 0 net tr)
      end
  end.

End DLRegModel.

End Models.

(** ** model/losses.py: huber_loss_fn *)

Module LossFn.

(* the weights [huber_loss_fn] reads from [params] *)
Record params := mk_params {
  huber_spatial : R;
  huber_temporal : R
}.

(* [nn.MSELoss()]: the mean of the squared differences *)
Definition mse (input target : tensor) : R := tmean (tsq (tsub input target)).

Section HuberLossFn.

(* [model.submodules.resample_transform] is not among the sources: a parameter *)
Variable resample_transform : tensor -> tensor -> tensor.

(* the loss and the dictionary of the individual terms *)
Definition huber_loss_fn (flow target source : tensor) (p : params)
    : R * list (string * R) :=
  (* warp the source image towards target using grid resample *)
  let warped_source := resample_transform source flow in
  let mse_loss := mse target warped_source in
  let smooth_loss := huber_spatial p * Losses.huber_loss_spatial flow
                     + huber_temporal p * Losses.huber_loss_temporal flow in
  let loss := mse_loss + smooth_loss in
  (loss, [("mse"%string, mse_loss); ("smooth_loss"%string, smooth_loss)]).

End HuberLossFn.

End LossFn.

(** ** Dictionaries with string keys *)

(* a Python dict as the list of its items in insertion order *)
Definition dict (A : Type) : Type := list (string * A).

(* [d[k]]; [None] stands for KeyError *)
Fixpoint dict_get {A} (d : dict A) (k : string) : option A :=
  match d with
  | [] => None
  | (k', v) :: d' => if String.eqb k' k then Some v else dict_get d' k
  end.

(* [d[k] = v]: an existing key keeps its place, a new one goes last *)
Fixpoint dict_set {A} (d : dict A) (k : string) (v : A) : dict A :=
  match d with
  | [] => [(k, v)]
  | (k', v') :: d' =>
      if String.eqb k' k then (k', v) :: d' else (k', v') :: dict_set d' k v
  end.

Definition dict_keys {A} (d : dict A) : list string := map fst d.

(* the values of the keys [ks], in order; [None] at the first missing key *)
Fixpoint dict_get_all {A} (d : dict A) (ks : list string) : option (list A) :=
  match ks with
  | [] => Some []
  | k :: ks' =>
      match dict_get d k with
      | None => None
      | Some v =>
          match dict_get_all d ks' with
          | None => None
          | Some vs => Some (v :: vs)
          end
      end
  end.

(* [np.mean(l)] and [torch.stack(l).mean()] of a list of scalars.  For an
   empty list numpy gives nan, for which the quotient by [INR 0] stands here:
   what is proved of a mean is stated for non-empty lists *)
Definition mean_of (l : list R) : R := Rsum l / INR (length l).

(* [torch.stack(l).std()]: the unbiased standard deviation *)
Definition std_of (l : list R) : R :=
  sqrt (Rsum (map (fun v => (v - mean_of l) ^ 2) l) / INR (length l - 1)).

Definition Rltb (a b : R) : bool := if Rlt_dec a b then true else false.

(** ** model/models.py: DLRegModel.update_best_model *)

Module BestModel.

Section UpdateBestModel.

Variables hyper network transform : Type.
(* [params.best_metrics] and [params.val_epochs] *)
Variable best_metrics : hyper -> list string.
Variable val_epochs : hyper -> Z.

Let model := Models.DLRegModel hyper network transform.

Definition set_best (self : model) (is_best : bool) (best : R) : model :=
  Models.mk hyper network transform
    (Models.m_params _ _ _ self) (Models.epoch_num _ _ _ self)
    (Models.iter_num _ _ _ self) is_best best
    (Models.m_network _ _ _ self) (Models.m_transform _ _ _ self).

(* [None] when a metric of [params.best_metrics] is missing (KeyError) *)
Definition update_best_model (self : model) (metric_results : dict R) : option model :=
  let hp := Models.p_hyper _ (Models.m_params _ _ _ self) in
  match dict_get_all metric_results (best_metrics hp) with
  | None => None
  | Some values =>
      let metric_results_mean := mean_of values in
      if (Models.epoch_num _ _ _ self + 1 =? val_epochs hp)%Z then
        (* initialise for the first validation *)
        Some (set_best self (Models.is_best _ _ _ self) metric_results_mean)
      else if Rltb metric_results_mean (Models.best_metric_result _ _ _ self) then
        Some (set_best self true metric_results_mean)
      else Some self
  end.

End UpdateBestModel.

End BestModel.

(** ** inference.py: get_inference_model *)

Module Inference.

Open Scope string_scope.

Section GetInferenceModel.

(* the model classes are not among the sources: their constructors are
   parameters, and a constructor may raise *)
Variable cfg_rest : Type.      (* data, baseline parameters, ... *)
Variable model : Type.
Variable LightningDLReg : cfg_rest -> Models.result model.
Variable Identity : cfg_rest -> Models.result model.
Variable MirtkFFD : cfg_rest -> Models.result model.
Variable AntsSyN : cfg_rest -> Models.result model.

Record cfg := mk_cfg {
  model_name : string;
  baseline_name : string;
  rest : cfg_rest
}.

Definition get_inference_model (c : cfg) : Models.result model :=
  if String.eqb (model_name c) "dl" then LightningDLReg (rest c)
  else if String.eqb (model_name c) "baseline" then
    if String.eqb (baseline_name c) "Id" then Identity (rest c)
    else if String.eqb (baseline_name c) "MIRTK" then MirtkFFD (rest c)
    else if String.eqb (baseline_name c) "ANTs" then AntsSyN (rest c)
    else inl (Models.ValueError ("Unknown baseline: " ++ baseline_name c))
  else inl (Models.ValueError ("Unknown model_name: " ++ model_name c)).

End GetInferenceModel.

End Inference.

(** ** lightning.py: logging and reduction of the validation results *)

Module Lightning.

Open Scope string_scope.

Inductive exn :=
| KeyError (key : string)
| IndexError.

(* the entries of [hparams.meta] these methods read *)
Record meta := mk_meta {
  best_metric : string;
  best_metric_mode : string;
  best_metric_init : R;
  metrics_to_log : option (list string)
}.

(* one call [logger.experiment.add_scalar(tag, value, global_step=step)] *)
Record scalar := mk_scalar {
  tag : string;
  value : R;
  step : Z
}.

(* the fields of [LightningDLReg] these methods use: the network, the
   transformation and the loss function are not touched by them; [logged]
   holds the scalars sent to the logger, oldest first *)
Record t := mk {
  hparams_meta : meta;
  best_metric_result : R;
  global_step : Z;
  logged : list scalar
}.

(* a method runs on the module and either returns or raises; what it did to
   the module before raising stays *)
Definition M (A : Type) : Type := t -> (exn + A) * t.

Definition ret {A} (a : A) : M A := fun self => (inr a, self).

Definition raise {A} (e : exn) : M A := fun self => (inl e, self).

Definition bind {A B} (m : M A) (k : A -> M B) : M B :=
  fun self =>
    match m self with
    | (inl e, self') => (inl e, self')
    | (inr a, self') => k a self'
    end.

Notation "x <- m ;; k" := (bind m (fun x => k))
  (at level 61, m at next level, right associativity).
Notation "m ;;; k" := (bind m (fun _ => k))
  (at level 61, right associativity).

(* [d[k]] inside a method *)
Definition get (d : dict R) (k : string) : M R :=
  match dict_get d k with
  | Some v => ret v
  | None => raise (KeyError k)
  end.

Definition add_scalar (tag : string) (value : R) : M unit :=
  fun self =>
    (inr tt, mk (hparams_meta self) (best_metric_result self) (global_step self)
                (logged self ++ [mk_scalar tag value (global_step self)])).

Definition set_best_metric_result (v : R) : M unit :=
  fun self => (inr tt, mk (hparams_meta self) v (global_step self) (logged self)).

(* a [for] loop *)
Fixpoint for_each {A} (l : list A) (body : A -> M unit) : M unit :=
  match l with
  | [] => ret tt
  | a :: l' => body a ;;; for_each l' body
  end.

(* a [for] loop that updates a local variable *)
Fixpoint for_fold {A S} (l : list A) (acc : S) (body : S -> A -> M S) : M S :=
  match l with
  | [] => ret acc
  | a :: l' => acc' <- body acc a ;; for_fold l' acc' body
  end.

(* [[x[k] for x in l]] *)
Fixpoint get_each (l : list (dict R)) (k : string) : M (list R) :=
  match l with
  | [] => ret []
  | x :: l' => v <- get x k ;; vs <- get_each l' k ;; ret (v :: vs)
  end.

(* what [__init__] sets of these fields: the best metric starts at its
   configured initial value; the step counter is the trainer's *)
Definition init (m : meta) (global_step : Z) : t :=
  mk m (best_metric_init m) global_step [].

Definition _log_metrics (metric_result : dict R) : M unit :=
  fun self =>
    match metrics_to_log (hparams_meta self) with
    | Some metrics =>
        (* log only selected metrics *)
        for_each metrics (fun metric =>
          m <- get metric_result (metric ++ "_mean") ;;
          add_scalar ("metrics/" ++ metric ++ "_mean") m ;;;
          s <- get metric_result (metric ++ "_std") ;;
          add_scalar ("metrics/" ++ metric ++ "_std") s) self
    | None =>
        for_each metric_result (fun kx =>
          add_scalar ("metrics/" ++ fst kx) (snd kx)) self
    end.

Definition _check_log_best_metric (metric_result : dict R) : M unit :=
  fun self =>
    (current <- get metric_result (best_metric (hparams_meta self)) ;;
     fun self =>
       let is_best :=
         if String.eqb (best_metric_mode (hparams_meta self)) "max"
         then Rltb (best_metric_result self) current
         else if String.eqb (best_metric_mode (hparams_meta self)) "min"
         then Rltb current (best_metric_result self)
         else false in
       if is_best then
         (* update and log the best metric value *)
         (set_best_metric_result current ;;;
          add_scalar ("best/" ++ best_metric (hparams_meta self)) current) self
       else ret tt self) self.

Definition validation_epoch_end (outputs : list (dict R * dict R)) : M (dict R) :=
  (* average validation loss and log *)
  let losses_list := map fst outputs in
  match losses_list with
  | [] => raise IndexError
  | losses_first :: _ =>
      losses_reduced <-
        for_fold (dict_keys losses_first) [] (fun losses_reduced k =>
          values <- get_each losses_list k ;;
          let loss_reduced := mean_of values in
          let losses_reduced := dict_set losses_reduced k loss_reduced in
          add_scalar ("val_loss/" ++ k) loss_reduced ;;;
          ret losses_reduced) ;;
      (* reduce and log validation metric results (mean & std) *)
      let metric_result_list := map snd outputs in
      metric_result_reduced <-
        for_fold (dict_keys (hd [] metric_result_list)) [] (fun reduced k =>
          stacked <- get_each metric_result_list k ;;
          ret (dict_set (dict_set reduced (k ++ "_mean") (mean_of stacked))
                        (k ++ "_std") (std_of stacked))) ;;
      (* log metric results and update best metrics *)
      _log_metrics metric_result_reduced ;;;
      _check_log_best_metric metric_result_reduced ;;;
      (* return callback metrics for checkpointing *)
      val_loss <- get losses_reduced "loss" ;;
      mean_dice_mean <- get metric_result_reduced "mean_dice_mean" ;;
      ret [("val_loss", val_loss); ("mean_dice_mean", mean_dice_mean)]
  end.

End Lightning.

(** ** Notions used to state the properties *)

(* the magnitude of the flow vector at a voxel of a (N, C, H, W) field *)
Definition flow_magnitude (flow : tensor) (C n h w : nat) : R :=
  sqrt (big_sum C (fun c => t_at flow [n; c; h; w] ^ 2)).

(* a (N, C, H, W) field that does not vary over the spatial axes *)
Definition spatially_constant (flow : tensor) : Prop :=
  match t_shape flow with
  | [N; C; H; W] =>
      forall n c h w h' w', (n < N)%nat -> (c < C)%nat ->
        (h < H)%nat -> (w < W)%nat -> (h' < H)%nat -> (w' < W)%nat ->
        t_at flow [n; c; h; w] = t_at flow [n; c; h'; w']
  | _ => False
  end.

(* a (N, C, H, W) field that does not vary along the batch (temporal) axis *)
Definition temporally_constant (flow : tensor) : Prop :=
  match t_shape flow with
  | [N; C; H; W] =>
      forall n n' c h w, (n < N)%nat -> (n' < N)%nat -> (c < C)%nat ->
        (h < H)%nat -> (w < W)%nat ->
        t_at flow [n; c; h; w] = t_at flow [n'; c; h; w]
  | _ => False
  end.

Definition zero_flow : tensor := mkTensor Float32 [1; 2; 2; 2]%nat (fun _ => 0).

(* the Parzen window response of intensity [v] at the bin centre [b] *)
Definition kernel (s v b : R) : R :=
  exp (- ((v - b) ^ 2) / (2 * s ^ 2)) / sqrt (2 * PI) * s.

(* entry (i, j) of the joint histogram of sample [n], for (N, 1, K) inputs *)
Definition hist_at (self : MILossGaussian.t) (x y : tensor) (n i j : nat) : R :=
  big_sum (nth 2 (t_shape x) 0%nat) (fun k =>
    kernel (MILossGaussian.sigma self) (t_at x [n; 0; k]%nat)
           (t_at (MILossGaussian.bins self) [i; 0]%nat) *
    kernel (MILossGaussian.sigma self) (t_at y [n; 0; k]%nat)
           (t_at (MILossGaussian.bins self) [j; 0]%nat)).

(* the total mass of the joint histogram of sample [n] *)
Definition hist_mass (self : MILossGaussian.t) (x y : tensor) (n : nat) : R :=
  let B := nth 0 (t_shape (MILossGaussian.bins self)) 0%nat in
  big_sum B (fun i => big_sum B (fun j => hist_at self x y n i j)).

(* the sum of the B x B entries of sample [n] of a (N, B, B) table *)
Definition table_sum (P : tensor) (B n : nat) : R :=
  big_sum B (fun i => big_sum B (fun j => t_at P [n; i; j])).

(* the module that [MILossGaussian()] builds *)
Definition default_module : MILossGaussian.t :=
  MILossGaussian.mk 0 1 ((1 - 0) / 64 * (1 / (2 * sqrt (2 * ln 2)))) 64
    (unsqueeze 1 (linspace 0 1 64)) false 0.0001 true.

(* a batch of one sample without voxels, e.g. what an empty ROI leaves *)
Definition empty_input : tensor := mkTensor Float32 [1; 1; 0]%nat (fun _ => 0).

(* a batch of one sample with the single voxel [v] *)
Definition one_voxel (v : R) : tensor := mkTensor Float32 [1; 1; 1]%nat (fun _ => v).

(* the two tensors [forward] passes to [_compute_joint_prob] *)
Definition joint_inputs (avg_filtering : tensor -> nat -> tensor)
    (self : MILossGaussian.t) (x y : tensor) : tensor * tensor :=
  if MILossGaussian.roi self then
    let m := avg_filtering (tdivs (tadd x y) 2) 7%nat in
    (unsqueeze 0 (unsqueeze 0 (masked_select_gt x m (MILossGaussian.roi_threshold self))),
     unsqueeze 0 (unsqueeze 0 (masked_select_gt y m (MILossGaussian.roi_threshold self))))
  else (flatten_from 2 x, flatten_from 2 y).

(* the entropy of a distribution over [n] bins, with the guarded logarithm *)
Definition guarded_entropy (n : nat) (p : nat -> R) : R :=
  - big_sum n (fun i => p i * ln (p i + 1e-10)).

(* the mutual-information score of one sample from its B x B joint table:
   (H_target + H_source) / H_joint when normalised, else
   H_target + H_source - H_joint *)
Definition mi_score (normalised : bool) (B : nat) (P : nat -> nat -> R) : R :=
  let H_target := guarded_entropy B (fun i => big_sum B (fun j => P i j)) in
  let H_source := guarded_entropy B (fun j => big_sum B (fun i => P i j)) in
  let H_joint := - big_sum B (fun i => big_sum B (fun j => P i j * ln (P i j + 1e-10))) in
  if normalised then (H_target + H_source) / H_joint
  else H_target + H_source - H_joint.

(* the loss as the specification words it: the negated batch mean of the score *)
Definition mi_loss_spec (normalised : bool) (N B : nat) (P : tensor) : R :=
  - (big_sum N (fun n => mi_score normalised B (fun i j => t_at P [n; i; j])) / INR N).

(* the module that [MILossGaussian(roi=True)] builds *)
Definition default_roi_module : MILossGaussian.t :=
  MILossGaussian.mk 0 1 ((1 - 0) / 64 * (1 / (2 * sqrt (2 * ln 2)))) 64
    (unsqueeze 1 (linspace 0 1 64)) true 0.0001 true.

(* the module that [MILossBSpline(debug=True)] builds *)
Definition default_debug_bspline : MILossBSpline.t :=
  MILossBSpline.mk true true "cubic_bspline" 0 1 0 1
    ((1 - 0) / INR 32) ((1 - 0) / INR 32)
    (unsqueeze 1 (tadds (tmuls (arange 32) ((1 - 0) / INR 32)) 0))
    (unsqueeze 1 (tadds (tmuls (arange 32) ((1 - 0) / INR 32)) 0))
    (1 * ((1 - 0) / INR 32)) (1 * ((1 - 0) / INR 32))
    None None None None.

(* the module that [MILossBSpline()] builds *)
Definition default_bspline : MILossBSpline.t :=
  MILossBSpline.mk false true "cubic_bspline" 0 1 0 1
    ((1 - 0) / INR 32) ((1 - 0) / INR 32)
    (unsqueeze 1 (tadds (tmuls (arange 32) ((1 - 0) / INR 32)) 0))
    (unsqueeze 1 (tadds (tmuls (arange 32) ((1 - 0) / INR 32)) 0))
    (1 * ((1 - 0) / INR 32)) (1 * ((1 - 0) / INR 32))
    None None None None.

(* a double-precision batch of one sample with the single voxel [v] *)
Definition one_voxel_f64 (v : R) : tensor := mkTensor Float64 [1; 1; 1]%nat (fun _ => v).

(* the local sum the claim words: the sum of the zero-padded image [t] of
   sample [b] over the window of size [ws] that starts at [pos], i.e. a
   unit-valued box filter with stride 1 and padding floor(w / 2) per axis *)
Definition box_sum (t : tensor) (ws : list nat) (b : nat) (pos : index) : R :=
  Rsum (map (fun off => padded_at t (map (fun w => (w / 2)%nat) ws) b 0%nat
                          (zip_with Nat.add pos off))
            (indices ws)).

(* the per-voxel score cov^2 / (var_tar * var_src + 1e-5) *)
Definition lncc_score (tar src : tensor) (ws : list nat) (b : nat) (pos : index) : R :=
  let N := INR (numel ws) in
  let S_t := box_sum tar ws b pos in
  let S_s := box_sum src ws b pos in
  let S_tt := box_sum (tmul tar tar) ws b pos in
  let S_ss := box_sum (tmul src src) ws b pos in
  let S_ts := box_sum (tmul tar src) ws b pos in
  let mu_tar := S_t / N in
  let mu_src := S_s / N in
  let cov := S_ts - mu_src * S_t - mu_tar * S_s + mu_tar * mu_src * N in
  let var_tar := S_tt - 2 * mu_tar * S_t + mu_tar * mu_tar * N in
  let var_src := S_ss - 2 * mu_src * S_s + mu_src * mu_src * N in
  cov * cov / (var_tar * var_src + 1e-5).

(* the spatial shape of the score map: stride 1, padding floor(w / 2) *)
Definition lncc_out_size (size ws : list nat) : list nat :=
  zip_with (fun sz w => (sz + 2 * (w / 2) - w + 1)%nat) size ws.

(* the loss as the specification words it: the negated mean of the score over
   all voxels and batch samples *)
Definition lncc_loss_spec (tar src : tensor) (ws : list nat) : R :=
  let n := nth 0 (t_shape tar) 0%nat in
  let out := lncc_out_size (skipn 2 (t_shape tar)) ws in
  - (Rsum (map (fun b => Rsum (map (fun pos => lncc_score tar src ws b pos) (indices out)))
               (seq 0 n))
     / INR (n * numel out)).

(* a 4 x 4 single-channel image, for a batch of one *)
Definition ramp_image : tensor :=
  mkTensor Float32 [1; 1; 4; 4]%nat
    (fun i => INR (nth 2 i 0%nat) + 2 * INR (nth 3 i 0%nat)).

Definition flat_image : tensor := mkTensor Float32 [1; 1; 4; 4]%nat (fun _ => 0.5).

(* the first-order differences of the flow magnitude that [huber_loss_spatial]
   keeps at voxel (h, w) of sample n: along H and along W *)
Definition magnitude_dx (flow : tensor) (C n h w : nat) : R :=
  flow_magnitude flow C n (h + 1) w - flow_magnitude flow C n h w.

Definition magnitude_dy (flow : tensor) (C n h w : nat) : R :=
  flow_magnitude flow C n h (w + 1) - flow_magnitude flow C n h w.

(* the difference of the flow magnitude between consecutive frames *)
Definition magnitude_dt (flow : tensor) (C n h w : nat) : R :=
  flow_magnitude flow C (n + 1) h w - flow_magnitude flow C n h w.

(* a 2 x 3 field of one sample and one channel whose magnitude varies *)
Definition ramp_flow : tensor :=
  mkTensor Float32 [1; 1; 2; 3]%nat
    (fun i => INR (nth 2 i 0%nat) + INR (nth 3 i 0%nat)).

(* a single row of three voxels, one sample and one channel *)
Definition row_flow : tensor :=
  mkTensor Float32 [1; 1; 1; 3]%nat (fun i => INR (nth 3 i 0%nat)).


(* the (N, 1, K) tensor [x] with the voxels of every sample rearranged by [pi] *)
Definition permute_voxels (pi : nat -> nat) (x : tensor) : tensor :=
  mkTensor (t_dtype x) (t_shape x)
    (fun i => match i with
              | [n; c; k] => t_at x [n; c; pi k]
              | _ => t_at x i
              end).


(* the values of key [k] in the dictionaries of [l] (0 where it is missing) *)
Definition column (l : list (dict R)) (k : string) : list R :=
  map (fun x => match dict_get x k with Some v => v | None => 0 end) l.

(* a batch of one sample with the two voxels 0 and 1/2 *)
Definition two_voxels : tensor :=
  mkTensor Float32 [1; 1; 2]%nat (fun i => INR (nth 2 i 0%nat) / 2).

(* the exchange of the voxels 0 and 1 *)
Definition swap01 (k : nat) : nat :=
  if (k =? 0)%nat then 1%nat else if (k =? 1)%nat then 0%nat else k.

(* a model in its sixth epoch whose best metric so far is 0.7 *)
Definition sample_model : Models.DLRegModel unit unit unit :=
  Models.mk unit unit unit (Models.mk_params unit "UNetDVF" "DVF" tt)
    5%Z 600%Z false 0.7 tt tt.

(* the dictionary of the reduced losses and the scalars logged with it *)
Definition reduce_losses (l : list (dict R)) (keys : list string) (acc : dict R) : dict R :=
  fold_left (fun d k => dict_set d k (mean_of (column l k))) keys acc.

Definition loss_scalars (l : list (dict R)) (keys : list string) (step : Z) : list Lightning.scalar :=
  map (fun k => Lightning.mk_scalar (("val_loss/" ++ k)%string) (mean_of (column l k)) step) keys.

Definition reduce_metrics (l : list (dict R)) (keys : list string) (acc : dict R) : dict R :=
  fold_left (fun d k => dict_set (dict_set d (k ++ "_mean")%string (mean_of (column l k)))
                                 (k ++ "_std")%string (std_of (column l k))) keys acc.

Definition with_logged (self : Lightning.t) (extra : list Lightning.scalar) : Lightning.t :=
  Lightning.mk (Lightning.hparams_meta self) (Lightning.best_metric_result self) (Lightning.global_step self)
     (Lightning.logged self ++ extra).

(* the scalars [_log_metrics] sends to the logger when nothing is missing *)
Definition metric_scalars (sel : option (list string)) (d : dict R) (step : Z)
    : list Lightning.scalar :=
  match sel with
  | Some metrics =>
      flat_map (fun m =>
        [Lightning.mk_scalar ("metrics/" ++ m ++ "_mean")%string
                   (match dict_get d (m ++ "_mean")%string with Some v => v | None => 0 end) step;
         Lightning.mk_scalar ("metrics/" ++ m ++ "_std")%string
                   (match dict_get d (m ++ "_std")%string with Some v => v | None => 0 end) step])
        metrics
  | None => map (fun kx => Lightning.mk_scalar ("metrics/" ++ fst kx)%string (snd kx) step) d
  end.

(* a computation that leaves the configuration and the step counter alone *)
Definition keeps_meta {A} (m : Lightning.M A) : Prop :=
  forall self, Lightning.hparams_meta (snd (m self)) = Lightning.hparams_meta self /\
               Lightning.global_step (snd (m self)) = Lightning.global_step self.

(* a module configured to maximise the mean Dice score, at step 10 *)
Definition sample_lightning : Lightning.t :=
  Lightning.init (Lightning.mk_meta "mean_dice_mean" "max" 0 None) 10%Z.

(* the outputs of two validation steps: (losses, metrics) of each batch *)
Definition sample_outputs : list (dict R * dict R) :=
  [([("loss"%string, 1)], [("mean_dice"%string, 0.5)]);
   ([("loss"%string, 3)], [("mean_dice"%string, 0.7)])].

(* a cast from dtype [a] to dtype [b] that cannot round: [b] is at least as
   wide as [a] *)
Definition lossless_cast (a b : dtype) : Prop := (dtype_rank a <= dtype_rank b)%nat.

(* the image as [MILossBSpline.forward] bins it: channel 0, normalised to
   [lo, hi], the channel axis put back, flattened to (N, 1, prod(size)) *)
Definition bspline_input (normalise_intensity : tensor -> string -> R -> R -> tensor)
    (img : tensor) (lo hi : R) : tensor :=
  flatten_from 2
    (unsqueeze 1 (normalise_intensity (select_channel0 img) "minmax"%string lo hi)).

(* the window function of a recognised window name *)
Definition bspline_window (cubic_bspline_torch rect_window_torch : tensor -> tensor)
    (w : string) : tensor -> tensor :=
  if String.eqb w "cubic_bspline" then cubic_bspline_torch else rect_window_torch.

(* the Parzen window response (N, #bins, prod(size)) of the bins to an image *)
Definition bspline_response (normalise_intensity : tensor -> string -> R -> R -> tensor)
    (cubic_bspline_torch rect_window_torch : tensor -> tensor)
    (w : string) (bins : tensor) (eps lo hi : R) (img : tensor) : tensor :=
  let img := bspline_input normalise_intensity img lo hi in
  bspline_window cubic_bspline_torch rect_window_torch w
    (tdivs (bins_sub (type_as bins img) img) eps).

(* the joint histogram (N, #bins, #bins) of a call of [MILossBSpline.forward] *)
Definition bspline_histogram (normalise_intensity : tensor -> string -> R -> R -> tensor)
    (cubic_bspline_torch rect_window_torch : tensor -> tensor)
    (self : MILossBSpline.t) (target source : tensor) : tensor :=
  tdivs
    (bmm (bspline_response normalise_intensity cubic_bspline_torch rect_window_torch
            (MILossBSpline.window self) (MILossBSpline.bins_target self)
            (MILossBSpline.eps_target self)
            (MILossBSpline.target_min self) (MILossBSpline.target_max self) target)
         (transpose12
            (bspline_response normalise_intensity cubic_bspline_torch rect_window_torch
               (MILossBSpline.window self) (MILossBSpline.bins_source self)
               (MILossBSpline.eps_source self)
               (MILossBSpline.source_min self) (MILossBSpline.source_max self) source)))
    (MILossBSpline.eps_target self * MILossBSpline.eps_source self).

(* the loss as a function of the joint and the marginal distributions, the
   entropies taken with the guard 1e-12 *)
Definition bspline_loss (normalised : bool) (p_joint p_target p_source : tensor) : R :=
  let ent_target := tneg (sum_dim 1 (tmul p_target (tlog (tadds p_target 1e-12)))) in
  let ent_source := tneg (sum_dim 1 (tmul p_source (tlog (tadds p_source 1e-12)))) in
  let ent_joint := tneg (sum_dim12 (tmul p_joint (tlog (tadds p_joint 1e-12)))) in
  if normalised then - tmean (tdiv (tadd ent_target ent_source) ent_joint)
  else - tmean (tsub (tadd ent_target ent_source) ent_joint).

(** * Properties *)

(** ** Finite sums *)

Lemma Rsum_app (l l' : list R) : Rsum (l ++ l') = Rsum l + Rsum l'.
Proof.
  induction l as [|a l IH]; simpl.
  - lra.
  - rewrite IH. lra.
Qed.

Lemma Rsum_map_ext_in {A} (f g : A -> R) (l : list A) :
  (forall a, In a l -> f a = g a) -> Rsum (map f l) = Rsum (map g l).
Proof.
  intros H. f_equal. apply map_ext_in. exact H.
Qed.

Lemma Rsum_map_zero {A} (f : A -> R) (l : list A) :
  (forall a, In a l -> f a = 0) -> Rsum (map f l) = 0.
Proof.
  induction l as [|a l IH]; simpl; intros H.
  - reflexivity.
  - rewrite (H a) by now left. rewrite IH; [lra|]. intros b Hb. apply H. now right.
Qed.

Lemma Rsum_map_nonneg {A} (f : A -> R) (l : list A) :
  (forall a, In a l -> 0 <= f a) -> 0 <= Rsum (map f l).
Proof.
  induction l as [|a l IH]; simpl; intros H.
  - lra.
  - assert (0 <= f a) by (apply H; now left).
    assert (0 <= Rsum (map f l)) by (apply IH; intros b Hb; apply H; now right).
    lra.
Qed.

Lemma Rsum_map_const {A} (f : A -> R) (c : R) (l : list A) :
  (forall a, In a l -> f a = c) -> Rsum (map f l) = INR (length l) * c.
Proof.
  induction l as [|a l IH]; intros H.
  - simpl. lra.
  - change (length (a :: l)) with (S (length l)). rewrite S_INR.
    simpl. rewrite (H a) by now left.
    rewrite IH; [lra|]. intros b Hb. apply H. now right.
Qed.

Lemma Rsum_map_le {A} (f g : A -> R) (l : list A) :
  (forall a, In a l -> f a <= g a) -> Rsum (map f l) <= Rsum (map g l).
Proof.
  induction l as [|a l IH]; simpl; intros H.
  - lra.
  - assert (f a <= g a) by (apply H; now left).
    assert (Rsum (map f l) <= Rsum (map g l)) by (apply IH; intros b Hb; apply H; now right).
    lra.
Qed.

Lemma Rsum_map_lt {A} (f g : A -> R) (l : list A) :
  l <> [] -> (forall a, In a l -> f a < g a) -> Rsum (map f l) < Rsum (map g l).
Proof.
  destruct l as [|a l]; [congruence|]. intros _ H. simpl.
  assert (f a < g a) by (apply H; now left).
  assert (Rsum (map f l) <= Rsum (map g l)).
  { apply Rsum_map_le. intros b Hb. left. apply H. now right. }
  lra.
Qed.

Lemma Rsum_map_plus {A} (f g : A -> R) (l : list A) :
  Rsum (map (fun a => f a + g a) l) = Rsum (map f l) + Rsum (map g l).
Proof.
  induction l as [|a l IH]; simpl; [lra|]. rewrite IH. lra.
Qed.

Lemma Rsum_map_scal {A} (f : A -> R) (c : R) (l : list A) :
  Rsum (map (fun a => c * f a) l) = c * Rsum (map f l).
Proof.
  induction l as [|a l IH]; simpl; [lra|]. rewrite IH. lra.
Qed.

Lemma big_sum_ext (n : nat) (f g : nat -> R) :
  (forall i, (i < n)%nat -> f i = g i) -> big_sum n f = big_sum n g.
Proof.
  intros H. apply Rsum_map_ext_in. intros i Hi. apply in_seq in Hi. apply H. lia.
Qed.

Lemma big_sum_zero (n : nat) (f : nat -> R) :
  (forall i, (i < n)%nat -> f i = 0) -> big_sum n f = 0.
Proof.
  intros H. apply Rsum_map_zero. intros i Hi. apply in_seq in Hi. apply H. lia.
Qed.

Lemma big_sum_nonneg (n : nat) (f : nat -> R) :
  (forall i, (i < n)%nat -> 0 <= f i) -> 0 <= big_sum n f.
Proof.
  intros H. apply Rsum_map_nonneg. intros i Hi. apply in_seq in Hi. apply H. lia.
Qed.

Lemma big_sum_const (n : nat) (f : nat -> R) (c : R) :
  (forall i, (i < n)%nat -> f i = c) -> big_sum n f = INR n * c.
Proof.
  intros H. unfold big_sum. rewrite (Rsum_map_const f c).
  - now rewrite length_seq.
  - intros i Hi. apply in_seq in Hi. apply H. lia.
Qed.

Lemma big_sum_S (n : nat) (f : nat -> R) :
  big_sum (S n) f = big_sum n f + f n.
Proof.
  unfold big_sum. rewrite seq_S, map_app, Rsum_app. simpl. lra.
Qed.

Lemma big_sum_swap (n m : nat) (f : nat -> nat -> R) :
  big_sum n (fun i => big_sum m (fun j => f i j)) =
  big_sum m (fun j => big_sum n (fun i => f i j)).
Proof.
  induction n as [|n IH].
  - simpl. symmetry. apply big_sum_zero. reflexivity.
  - rewrite big_sum_S, IH. unfold big_sum at 1 2 3.
    rewrite <- Rsum_map_plus. apply Rsum_map_ext_in. intros j _.
    now rewrite big_sum_S.
Qed.

(** ** Indices of a shape *)

Lemma length_indices (s : list nat) : length (indices s) = numel s.
Proof.
  induction s as [|n s IH]; simpl; [reflexivity|].
  rewrite (flat_map_constant_length (c := numel s)).
  - now rewrite length_seq.
  - intros i _. now rewrite length_map.
Qed.

Lemma Rsum_flat_map {A B} (f : B -> R) (g : A -> list B) (l : list A) :
  Rsum (map f (flat_map g l)) = Rsum (map (fun a => Rsum (map f (g a))) l).
Proof.
  induction l as [|a l IH]; simpl; [reflexivity|].
  rewrite map_app, Rsum_app, IH. reflexivity.
Qed.

Lemma Rsum_indices_cons (f : index -> R) (n : nat) (s : list nat) :
  Rsum (map f (indices (n :: s))) =
  big_sum n (fun i => Rsum (map (fun r => f (i :: r)) (indices s))).
Proof.
  simpl. rewrite Rsum_flat_map. unfold big_sum. apply Rsum_map_ext_in.
  intros i _. now rewrite map_map.
Qed.

Lemma tsum_rank1 (t : tensor) (n : nat) :
  t_shape t = [n] -> tsum t = big_sum n (fun i => t_at t [i]).
Proof.
  intros H. unfold tsum, to_list. rewrite H, Rsum_indices_cons.
  apply big_sum_ext. intros i _. simpl. lra.
Qed.

Lemma tsum_rank3 (t : tensor) (a b c : nat) :
  t_shape t = [a; b; c] ->
  tsum t = big_sum a (fun i => big_sum b (fun j => big_sum c (fun k => t_at t [i; j; k]))).
Proof.
  intros H. unfold tsum, to_list. rewrite H, Rsum_indices_cons.
  apply big_sum_ext. intros i _. rewrite Rsum_indices_cons.
  apply big_sum_ext. intros j _. rewrite Rsum_indices_cons.
  apply big_sum_ext. intros k _. simpl. lra.
Qed.

(** ** Huber regulariser *)

Section Huber.
Import Losses.

Lemma sqrt_eps : sqrt eps = 0.1.
Proof.
  unfold eps. replace 0.01 with (0.1 * 0.1) by lra. apply sqrt_square. lra.
Qed.

(* the loss of a (N, C, H, W) field written out voxel by voxel *)
Lemma huber_spatial_eq flow N C H W :
  t_shape flow = [N; C; H; W] ->
  huber_loss_spatial flow =
  big_sum N (fun n => sqrt (eps + big_sum (W - 1) (fun w => big_sum (H - 1) (fun h =>
     (flow_magnitude flow C n (h + 1) w - flow_magnitude flow C n h w) ^ 2
   + (flow_magnitude flow C n h (w + 1) - flow_magnitude flow C n h w) ^ 2)))) / INR N.
Proof.
  intros Hs. destruct flow as [dt sh f]. simpl in Hs. subst sh.
  unfold huber_loss_spatial, tmean.
  rewrite (tsum_rank1 _ N) by reflexivity.
  cbn [t_shape tsqrt tmap sum_dim remove_at firstn skipn app numel fold_right
       norm_dim tsq tadd tmap2 slice_drop_last tsub slice_from at_axis].
  rewrite Nat.mul_1_r. reflexivity.
Qed.

Lemma huber_temporal_eq flow N C H W :
  t_shape flow = [N; C; H; W] ->
  huber_loss_temporal flow =
  sqrt (eps + big_sum (N - 1) (fun n => big_sum H (fun h => big_sum W (fun w =>
     (flow_magnitude flow C (n + 1) h w - flow_magnitude flow C n h w) ^ 2)))).
Proof.
  intros Hs. destruct flow as [dt sh f]. simpl in Hs. subst sh.
  unfold huber_loss_temporal.
  rewrite (tsum_rank3 _ (N - 1) H W) by reflexivity.
  reflexivity.
Qed.

Lemma flow_magnitude_spatial flow N C H W :
  t_shape flow = [N; C; H; W] -> spatially_constant flow ->
  forall n h w h' w', (n < N)%nat ->
    (h < H)%nat -> (w < W)%nat -> (h' < H)%nat -> (w' < W)%nat ->
    flow_magnitude flow C n h w = flow_magnitude flow C n h' w'.
Proof.
  intros Hs Hc. unfold spatially_constant in Hc. rewrite Hs in Hc.
  intros. unfold flow_magnitude. f_equal. apply big_sum_ext. intros c Hcc.
  f_equal. now apply Hc.
Qed.

Lemma flow_magnitude_temporal flow N C H W :
  t_shape flow = [N; C; H; W] -> temporally_constant flow ->
  forall n n' h w, (n < N)%nat -> (n' < N)%nat -> (h < H)%nat -> (w < W)%nat ->
    flow_magnitude flow C n h w = flow_magnitude flow C n' h w.
Proof.
  intros Hs Hc. unfold temporally_constant in Hc. rewrite Hs in Hc.
  intros. unfold flow_magnitude. f_equal. apply big_sum_ext. intros c Hcc.
  f_equal. now apply Hc.
Qed.

Lemma huber_spatial_lower_bound flow N C H W :
  t_shape flow = [N; C; H; W] -> (0 < N)%nat ->
  0.1 <= huber_loss_spatial flow.
Proof.
  intros Hs HN. rewrite (huber_spatial_eq flow N C H W Hs).
  assert (HN' : 0 < INR N) by (apply lt_0_INR; lia).
  apply Rmult_le_reg_r with (INR N); [assumption|].
  unfold Rdiv. rewrite Rmult_assoc, Rinv_l, Rmult_1_r by lra.
  rewrite Rmult_comm, <- (big_sum_const N (fun _ => 0.1) 0.1) by reflexivity.
  apply Rsum_map_le. intros n _. rewrite <- sqrt_eps.
  apply sqrt_le_1_alt.
  assert (0 <= big_sum (W - 1) (fun w => big_sum (H - 1) (fun h =>
     (flow_magnitude flow C n (h + 1) w - flow_magnitude flow C n h w) ^ 2
   + (flow_magnitude flow C n h (w + 1) - flow_magnitude flow C n h w) ^ 2))).
  { apply big_sum_nonneg. intros w _. apply big_sum_nonneg. intros h _.
    apply Rplus_le_le_0_compat; apply pow2_ge_0. }
  lra.
Qed.

End Huber.

(** C2, as the code has it.  Both Huber terms are pseudo-Huber: the square root
    of [eps = 0.01] plus a sum of squared differences.  For a (N, C, H, W) field
    with a non-empty batch, [huber_loss_spatial] returns exactly [sqrt 0.01 = 0.1]
    (not 0) when the field is constant over the spatial axes, and
    [huber_loss_temporal] returns exactly 0.1 when the field is constant along
    the batch axis; [huber_loss_spatial] is at least 0.1, hence strictly
    positive, for every field, whatever its first-order differences. *)
Theorem huber_constant_field_is_sqrt_eps flow N C H W :
  t_shape flow = [N; C; H; W] -> (0 < N)%nat ->
  (spatially_constant flow -> Losses.huber_loss_spatial flow = 0.1) /\
  (temporally_constant flow -> Losses.huber_loss_temporal flow = 0.1) /\
  0.1 <= Losses.huber_loss_spatial flow /\
  0 < Losses.huber_loss_spatial flow.
Proof.
  intros Hs HN. repeat split.
  - intros Hc. rewrite (huber_spatial_eq flow N C H W Hs), <- sqrt_eps.
    rewrite (big_sum_const N _ (sqrt Losses.eps)).
    + field. apply not_0_INR. lia.
    + intros n Hn. f_equal. rewrite big_sum_zero; [lra|].
      intros w Hw. apply big_sum_zero. intros h Hh.
      rewrite (flow_magnitude_spatial flow N C H W Hs Hc n (h + 1)%nat w h w),
              (flow_magnitude_spatial flow N C H W Hs Hc n h (w + 1)%nat h w) by lia.
      lra.
  - intros Hc. rewrite (huber_temporal_eq flow N C H W Hs), <- sqrt_eps.
    f_equal. rewrite big_sum_zero; [lra|].
    intros n Hn. apply big_sum_zero. intros h Hh. apply big_sum_zero. intros w Hw.
    rewrite (flow_magnitude_temporal flow N C H W Hs Hc (n + 1)%nat n h w) by lia.
    lra.
  - now apply (huber_spatial_lower_bound flow N C H W).
  - pose proof (huber_spatial_lower_bound flow N C H W Hs HN). lra.
Qed.

Lemma zero_flow_spatially_constant : spatially_constant zero_flow.
Proof. unfold spatially_constant, zero_flow. simpl. reflexivity. Defined.

Lemma zero_flow_temporally_constant : temporally_constant zero_flow.
Proof. unfold temporally_constant, zero_flow. simpl. reflexivity. Defined.

Lemma huber_constant_field_is_sqrt_eps_witness :
  Losses.huber_loss_spatial zero_flow = 0.1 /\
  Losses.huber_loss_temporal zero_flow = 0.1 /\
  0 < Losses.huber_loss_spatial zero_flow.
Proof.
  destruct (huber_constant_field_is_sqrt_eps zero_flow 1 2 2 2 eq_refl (le_n 1))
    as (Hsp & Htm & _ & Hpos).
  split; [exact (Hsp zero_flow_spatially_constant)|].
  split; [exact (Htm zero_flow_temporally_constant)|exact Hpos].
Defined.

(** C2, as stated, fails: the zero displacement field of shape (1, 2, 2, 2) is
    constant over the spatial axes and along the batch axis, and neither Huber
    term is 0 on it. *)
Lemma huber_constant_field_not_zero :
  spatially_constant zero_flow /\ temporally_constant zero_flow /\
  Losses.huber_loss_spatial zero_flow <> 0 /\
  Losses.huber_loss_temporal zero_flow <> 0.
Proof.
  split; [exact zero_flow_spatially_constant|].
  split; [exact zero_flow_temporally_constant|].
  assert (Hsp : Losses.huber_loss_spatial zero_flow = 0.1).
  { rewrite (huber_spatial_eq zero_flow 1 2 2 2 eq_refl), <- sqrt_eps.
    rewrite (big_sum_const 1 _ (sqrt Losses.eps)).
    - simpl. lra.
    - intros n _. f_equal. rewrite big_sum_zero; [lra|].
      intros w _. apply big_sum_zero. intros h _.
      unfold flow_magnitude, zero_flow. simpl. lra. }
  assert (Htm : Losses.huber_loss_temporal zero_flow = 0.1).
  { rewrite (huber_temporal_eq zero_flow 1 2 2 2 eq_refl), <- sqrt_eps.
    f_equal. simpl. unfold big_sum. simpl. lra. }
  rewrite Hsp, Htm. split; lra.
Qed.

(** ** Mutual information with a Gaussian Parzen window *)

Lemma big_sum_shift n f : big_sum (S n) f = f 0%nat + big_sum n (fun i => f (S i)).
Proof.
  unfold big_sum. simpl. f_equal. rewrite <- seq_shift, map_map. reflexivity.
Qed.

Lemma Rsum_map_nth {A} (f : A -> R) (l : list A) (d : A) :
  big_sum (length l) (fun m => f (nth m l d)) = Rsum (map f l).
Proof.
  induction l as [|a l IH]; [reflexivity|].
  change (length (a :: l)) with (S (length l)). rewrite big_sum_shift. simpl.
  now rewrite IH.
Qed.

Section JointProb.
Import MILossGaussian.

Lemma default_is_default_module : default = Some default_module.
Proof. reflexivity. Qed.

Lemma sqrt_2ln2_pos : 0 < sqrt (2 * ln 2).
Proof. apply sqrt_lt_R0. pose proof ln_lt_2. lra. Qed.

Lemma default_sigma_pos : 0 < sigma default_module.
Proof.
  simpl. pose proof sqrt_2ln2_pos.
  apply Rmult_lt_0_compat; [lra|].
  apply Rdiv_lt_0_compat; lra.
Qed.

Lemma joint_prob_shape self x y :
  t_shape (fst (_compute_joint_prob self x y)) =
  [nth 0 (t_shape x) 0%nat; nth 0 (t_shape (bins self)) 0%nat;
   nth 0 (t_shape (bins self)) 0%nat].
Proof. reflexivity. Qed.

Lemma hist_norm_at self x y n :
  t_at (sum_dim 1 (flatten_from 1
         (bmm (window_response (set_bins self (type_as (bins self) x)) x)
              (transpose12 (window_response (set_bins self (type_as (bins self) x)) y)))))
       [n] = hist_mass self x y n.
Proof.
  set (h := bmm _ _).
  assert (Hh : forall i j, t_at h [n; i; j] = hist_at self x y n i j) by reflexivity.
  assert (Hs : t_shape h = [nth 0 (t_shape x) 0%nat; nth 0 (t_shape (bins self)) 0%nat;
                            nth 0 (t_shape (bins self)) 0%nat]) by reflexivity.
  clearbody h.
  cbn [sum_dim t_at flatten_from t_shape insert_at firstn skipn app nth].
  rewrite Hs. cbn [skipn firstn app nth].
  rewrite <- length_indices.
  rewrite (Rsum_map_nth (fun idx => t_at h (n :: idx))).
  rewrite Rsum_indices_cons. unfold hist_mass.
  apply big_sum_ext. intros i _. rewrite Rsum_indices_cons.
  apply big_sum_ext. intros j _. simpl. rewrite Hh. lra.
Qed.

Lemma joint_prob_at self x y n i j :
  t_at (fst (_compute_joint_prob self x y)) [n; i; j] =
  hist_at self x y n i j / (hist_mass self x y n + 1e-10).
Proof.
  rewrite <- hist_norm_at. reflexivity.
Qed.

Lemma kernel_product_nonneg s v b v' b' : 0 <= kernel s v b * kernel s v' b'.
Proof.
  unfold kernel.
  assert (Hpi : 0 < sqrt (2 * PI)) by (apply sqrt_lt_R0; pose proof PI_RGT_0; lra).
  generalize (exp_pos (- (v - b) ^ 2 / (2 * s ^ 2))).
  generalize (exp_pos (- (v' - b') ^ 2 / (2 * s ^ 2))).
  generalize (exp (- (v - b) ^ 2 / (2 * s ^ 2))).
  generalize (exp (- (v' - b') ^ 2 / (2 * s ^ 2))).
  intros e2 e1 H2 H1.
  replace (e1 / sqrt (2 * PI) * s * (e2 / sqrt (2 * PI) * s))
    with ((e1 / sqrt (2 * PI)) * (e2 / sqrt (2 * PI)) * (s * s)) by (field; lra).
  apply Rmult_le_pos.
  - apply Rmult_le_pos; left; apply Rdiv_lt_0_compat; assumption.
  - nra.
Qed.

Lemma hist_at_nonneg self x y n i j : 0 <= hist_at self x y n i j.
Proof.
  unfold hist_at. apply big_sum_nonneg. intros k _. apply kernel_product_nonneg.
Qed.

Lemma hist_mass_nonneg self x y n : 0 <= hist_mass self x y n.
Proof.
  unfold hist_mass. apply big_sum_nonneg. intros i _.
  apply big_sum_nonneg. intros j _. apply hist_at_nonneg.
Qed.

Lemma big_sum_div n f c : big_sum n (fun i => f i / c) = big_sum n f / c.
Proof.
  unfold Rdiv. rewrite Rmult_comm. unfold big_sum.
  rewrite <- Rsum_map_scal. apply Rsum_map_ext_in. intros. lra.
Qed.

Lemma table_sum_joint_prob self x y n :
  table_sum (fst (_compute_joint_prob self x y))
            (nth 0 (t_shape (bins self)) 0%nat) n =
  hist_mass self x y n / (hist_mass self x y n + 1e-10).
Proof.
  unfold table_sum.
  rewrite (big_sum_ext _ _ (fun i => big_sum (nth 0 (t_shape (bins self)) 0%nat)
             (fun j => hist_at self x y n i j) / (hist_mass self x y n + 1e-10))).
  - rewrite big_sum_div. reflexivity.
  - intros i _. rewrite <- big_sum_div. apply big_sum_ext. intros j _.
    apply joint_prob_at.
Qed.

End JointProb.

Lemma mass_ratio_bounds (S : R) :
  0 <= S ->
  0 <= S / (S + 1e-10) < 1 /\
  (Rabs (S / (S + 1e-10) - 1) <= 1e-6 <-> 1e-4 - 1e-10 <= S).
Proof.
  intros HS.
  assert (Hd : 0 < S + 1e-10) by lra.
  assert (Hr : S / (S + 1e-10) - 1 = - (1e-10 / (S + 1e-10))) by (field; lra).
  assert (Hq : 0 < 1e-10 / (S + 1e-10)) by (apply Rdiv_lt_0_compat; lra).
  split.
  - split.
    + apply Rmult_le_pos; [assumption|]. left. now apply Rinv_0_lt_compat.
    + lra.
  - rewrite Hr, Rabs_Ropp, Rabs_pos_eq by lra. split; intros H.
    + apply (Rmult_le_compat_r (S + 1e-10)) in H; [|lra].
      unfold Rdiv in H. rewrite Rmult_assoc, Rinv_l, Rmult_1_r in H by lra. lra.
    + apply (Rmult_le_reg_r (S + 1e-10)); [assumption|].
      unfold Rdiv. rewrite Rmult_assoc, Rinv_l, Rmult_1_r by lra. lra.
Qed.

(** C1, as the code has it.  For a module with a non-zero bandwidth (with
    sigma = 0 floating point divides by zero in the exponent) and inputs of
    shape (N, 1, K), the table returned by [_compute_joint_prob] has shape
    (N, B, B) and only non-negative entries; the entries of a sample sum to
    S / (S + 1e-10), where S >= 0 is the total mass of the sample's joint
    histogram.  The sum therefore lies in [0, 1), and it is within 1e-6 of 1
    exactly when S >= 1e-4 - 1e-10. *)
Theorem joint_prob_sums_to_mass_ratio self x y N K B :
  MILossGaussian.sigma self <> 0 ->
  t_shape x = [N; 1; K]%nat -> t_shape y = [N; 1; K]%nat ->
  t_shape (MILossGaussian.bins self) = [B; 1]%nat ->
  let P := fst (MILossGaussian._compute_joint_prob self x y) in
  t_shape P = [N; B; B] /\
  (forall n i j, 0 <= t_at P [n; i; j]) /\
  (forall n, let S := hist_mass self x y n in
     0 <= S /\
     table_sum P B n = S / (S + 1e-10) /\
     0 <= table_sum P B n < 1 /\
     (Rabs (table_sum P B n - 1) <= 1e-6 <-> 1e-4 - 1e-10 <= S)).
Proof.
  intros _ Hx Hy Hb P. split; [|split].
  - unfold P. rewrite joint_prob_shape, Hx, Hb. reflexivity.
  - intros n i j. unfold P. rewrite joint_prob_at.
    pose proof (hist_at_nonneg self x y n i j).
    pose proof (hist_mass_nonneg self x y n).
    apply Rmult_le_pos; [assumption|]. left. apply Rinv_0_lt_compat. lra.
  - intros n S.
    assert (HS : 0 <= S) by apply hist_mass_nonneg.
    assert (Hsum : table_sum P B n = S / (S + 1e-10)).
    { unfold P, S. replace B with (nth 0 (t_shape (MILossGaussian.bins self)) 0%nat)
        by (rewrite Hb; reflexivity).
      apply table_sum_joint_prob. }
    rewrite Hsum. split; [assumption|]. split; [reflexivity|].
    now apply mass_ratio_bounds.
Qed.

Lemma joint_prob_sums_to_mass_ratio_witness :
  let P := fst (MILossGaussian._compute_joint_prob default_module
                  (one_voxel 0.5) (one_voxel 0.5)) in
  t_shape P = [1; 64; 64]%nat /\ 0 <= table_sum P 64 0 < 1.
Proof.
  destruct (joint_prob_sums_to_mass_ratio default_module (one_voxel 0.5) (one_voxel 0.5)
              1 1 64 (Rgt_not_eq _ _ default_sigma_pos) eq_refl eq_refl eq_refl)
    as (Hshape & _ & Hsum).
  split; [exact Hshape|].
  destruct (Hsum 0%nat) as (_ & _ & Hrange & _). exact Hrange.
Defined.

Lemma exp_neg_le (t : R) : 0 <= t -> exp (- t) <= / (1 + t).
Proof.
  intros Ht. rewrite exp_Ropp.
  apply Rinv_le_contravar; [lra|]. apply exp_ineq1_le.
Qed.

Lemma sqrt_2PI_ge_2 : 2 <= sqrt (2 * PI).
Proof.
  replace 2 with (sqrt (2 * 2)) at 1 by (apply sqrt_square; lra).
  apply sqrt_le_1_alt. pose proof PI2_1. lra.
Qed.

Lemma sqrt_2ln2_gt_1 : 1 < sqrt (2 * ln 2).
Proof.
  rewrite <- sqrt_1 at 1. apply sqrt_lt_1_alt. pose proof ln_lt_2. lra.
Qed.

(* the response of the default module to a voxel of intensity 0 at bin i *)
Lemma default_kernel_at_zero (i : nat) :
  let k := kernel (MILossGaussian.sigma default_module) 0
                  (t_at (MILossGaussian.bins default_module) [i; 0%nat]) in
  0 <= k <= / 256 * / (1 + 2 * (INR i * INR i)).
Proof.
  intros k. unfold k, kernel.
  cbn [MILossGaussian.sigma MILossGaussian.bins default_module unsqueeze linspace
       t_at remove_at firstn skipn app hd Nat.sub].
  change (INR 63) with (INR (63)).
  rewrite (INR_IZR_INZ 63). change (IZR (Z.of_nat 63)) with 63.
  pose proof sqrt_2ln2_gt_1 as Hr. pose proof ln_lt_2 as HL.
  pose proof sqrt_2PI_ge_2 as Hpi.
  assert (Hrr : sqrt (2 * ln 2) * sqrt (2 * ln 2) = 2 * ln 2) by (apply sqrt_sqrt; lra).
  set (r := sqrt (2 * ln 2)) in *. set (L := ln 2) in *.
  set (s := (1 - 0) / 64 * (1 / (2 * r))).
  assert (Hs : 0 < s <= / 128).
  { unfold s. split.
    - apply Rmult_lt_0_compat; [lra|]. apply Rdiv_lt_0_compat; lra.
    - replace ((1 - 0) / 64 * (1 / (2 * r))) with (/ 128 * / r) by (field; lra).
      rewrite <- (Rmult_1_r (/ 128)) at 2. apply Rmult_le_compat_l; [lra|].
      rewrite <- Rinv_1. apply Rinv_le_contravar; lra. }
  assert (Hexp : - (0 - (0 + INR i * ((1 - 0) / 63))) ^ 2 / (2 * s ^ 2)
                 = - (INR i * INR i * (16384 / 3969) * L)).
  { unfold s.
    replace (2 * ((1 - 0) / 64 * (1 / (2 * r))) ^ 2) with (/ (8192 * (r * r)))
      by (field; lra).
    rewrite Hrr. field. lra. }
  rewrite Hexp.
  assert (Hi : 0 <= INR i * INR i) by (pose proof (pos_INR i); nra).
  set (q := INR i * INR i) in *.
  assert (Ht : 2 * q <= q * (16384 / 3969) * L) by nra.
  pose proof (exp_pos (- (q * (16384 / 3969) * L))) as Hep.
  assert (He : exp (- (q * (16384 / 3969) * L)) <= / (1 + 2 * q)).
  { eapply Rle_trans; [apply exp_neg_le; nra|].
    apply Rinv_le_contravar; lra. }
  set (e := exp _) in *.
  assert (Hinv : 0 < / sqrt (2 * PI) <= / 2).
  { split; [apply Rinv_0_lt_compat; lra|]. apply Rinv_le_contravar; lra. }
  set (w := / sqrt (2 * PI)) in *. unfold Rdiv. fold w.
  assert (Hq : 0 < / (1 + 2 * q)) by (apply Rinv_0_lt_compat; lra).
  set (u := / (1 + 2 * q)) in *.
  split.
  - apply Rmult_le_pos; [apply Rmult_le_pos|]; lra.
  - assert (e * w <= u * / 2) by (apply Rmult_le_compat; lra).
    assert (e * w * s <= u * / 2 * / 128).
    { apply Rmult_le_compat; try lra. apply Rmult_le_pos; lra. }
    lra.
Qed.

Lemma inv_quadratic_sum (n : nat) :
  big_sum (S n) (fun i => / (1 + 2 * (INR i * INR i))) <= 2 - / INR (S n).
Proof.
  induction n as [|n IH].
  - unfold big_sum. simpl. rewrite Rmult_0_l, Rmult_0_r, Rplus_0_r, Rinv_1. lra.
  - rewrite big_sum_S.
    assert (Hm : 1 <= INR (S n)) by (rewrite S_INR; pose proof (pos_INR n); lra).
    rewrite (S_INR (S n)). set (m := INR (S n)) in *.
    assert (H : / (1 + 2 * (m * m)) <= / m - / (m + 1)).
    { replace (/ m - / (m + 1)) with (/ (m * (m + 1))) by (field; lra).
      apply Rinv_le_contravar; nra. }
    lra.
Qed.

Lemma big_sum_scal n f c : big_sum n (fun i => c * f i) = c * big_sum n f.
Proof. unfold big_sum. apply Rsum_map_scal. Qed.

Lemma big_sum_product n m f g :
  big_sum n (fun i => big_sum m (fun j => f i * g j)) = big_sum n f * big_sum m g.
Proof.
  rewrite (big_sum_ext n _ (fun i => big_sum m g * f i)).
  - rewrite big_sum_scal. lra.
  - intros i _. rewrite big_sum_scal. lra.
Qed.

Lemma big_sum_le n f g :
  (forall i, (i < n)%nat -> f i <= g i) -> big_sum n f <= big_sum n g.
Proof.
  intros H. apply Rsum_map_le. intros i Hi. apply in_seq in Hi. apply H. lia.
Qed.

Lemma one_voxel_mass_small :
  hist_mass default_module (one_voxel 0) (one_voxel 0) 0 <= / 16384.
Proof.
  unfold hist_mass.
  change (nth 0 (t_shape (MILossGaussian.bins default_module)) 0%nat) with 64%nat.
  set (k := fun i => kernel (MILossGaussian.sigma default_module) 0
                       (t_at (MILossGaussian.bins default_module) [i; 0%nat])).
  rewrite (big_sum_ext 64 _ (fun i => big_sum 64 (fun j => k i * k j))).
  2:{ intros i _. apply big_sum_ext. intros j _. unfold hist_at.
      cbn [one_voxel t_shape nth t_at]. unfold big_sum.
      cbn [seq map Rsum fold_right]. unfold k. lra. }
  rewrite big_sum_product.
  assert (H0 : 0 <= big_sum 64 k).
  { apply big_sum_nonneg. intros i _. apply default_kernel_at_zero. }
  assert (H1 : big_sum 64 k <= / 128).
  { eapply Rle_trans.
    - apply (big_sum_le 64 k (fun i => / 256 * / (1 + 2 * (INR i * INR i)))).
      intros i _. apply default_kernel_at_zero.
    - rewrite big_sum_scal. pose proof (inv_quadratic_sum 63) as Hq.
      assert (0 < / INR 64) by (apply Rinv_0_lt_compat, lt_0_INR; lia).
      lra. }
  replace (/ 16384) with (/ 128 * / 128) by lra.
  apply Rmult_le_compat; lra.
Qed.

(** C1, as stated, fails.  With the default module, a sample made of a single
    voxel of intensity 0 has a joint histogram of total mass at most 1/16384,
    so that its table sums to less than 1 - 1e-6; and a sample without voxels
    (shape (1, 1, 0), what an empty ROI leaves) has no mass at all: its table
    is all zeros and sums to 0. *)
Lemma joint_prob_sum_not_within_tolerance :
  MILossGaussian.default = Some default_module /\
  (let P := fst (MILossGaussian._compute_joint_prob default_module
                   (one_voxel 0) (one_voxel 0)) in
   ~ Rabs (table_sum P 64 0 - 1) <= 1e-6) /\
  (let P := fst (MILossGaussian._compute_joint_prob default_module
                   empty_input empty_input) in
   table_sum P 64 0 = 0 /\ ~ Rabs (table_sum P 64 0 - 1) <= 1e-6).
Proof.
  split; [reflexivity|]. split.
  - intros P H. unfold P in H.
    change 64%nat with (nth 0 (t_shape (MILossGaussian.bins default_module)) 0%nat) in H.
    rewrite table_sum_joint_prob in H.
    apply mass_ratio_bounds in H; [|apply hist_mass_nonneg].
    pose proof one_voxel_mass_small. lra.
  - intros P.
    assert (H0 : table_sum P 64 0 = 0).
    { unfold P.
      change 64%nat with (nth 0 (t_shape (MILossGaussian.bins default_module)) 0%nat).
      rewrite table_sum_joint_prob.
      assert (Hm : hist_mass default_module empty_input empty_input 0 = 0).
      { unfold hist_mass. apply big_sum_zero. intros i _.
        apply big_sum_zero. intros j _. reflexivity. }
      rewrite Hm. lra. }
    split; [exact H0|].
    rewrite H0. replace (0 - 1) with (- (1)) by lra.
    rewrite Rabs_Ropp, Rabs_R1. lra.
Qed.

Lemma forward_unfold avg self x y :
  let xy := joint_inputs avg self x y in
  let P := fst (MILossGaussian._compute_joint_prob self (fst xy) (snd xy)) in
  fst (MILossGaussian.forward avg self x y) =
  mi_loss_spec (MILossGaussian.normalised self) (nth 0 (t_shape (fst xy)) 0%nat)
               (nth 0 (t_shape (MILossGaussian.bins self)) 0%nat) P.
Proof.
  intros xy P.
  assert (HsP : t_shape P = [nth 0 (t_shape (fst xy)) 0%nat; nth 0 (t_shape (MILossGaussian.bins self)) 0%nat;
   nth 0 (t_shape (MILossGaussian.bins self)) 0%nat]) by apply joint_prob_shape.
  assert (Hf : fst (MILossGaussian.forward avg self x y) =
    (let p_x := sum_dim 2 P in
     let p_y := sum_dim 1 P in
     let ent_x := tneg (sum_dim 1 (tmul p_x (tlog (tadds p_x 1e-10)))) in
     let ent_y := tneg (sum_dim 1 (tmul p_y (tlog (tadds p_y 1e-10)))) in
     let ent_joint := tneg (sum_dim12 (tmul P (tlog (tadds P 1e-10)))) in
     if MILossGaussian.normalised self then - tmean (tdiv (tadd ent_x ent_y) ent_joint)
     else - tmean (tsub (tadd ent_x ent_y) ent_joint))).
  { unfold P, xy, MILossGaussian.forward, joint_inputs.
    destruct (MILossGaussian.roi self); cbv zeta;
      cbn [fst snd MILossGaussian._compute_joint_prob MILossGaussian.normalised MILossGaussian.set_bins];
      destruct (MILossGaussian.normalised self); reflexivity. }
  rewrite Hf. clear Hf. set (N := nth 0 (t_shape (fst xy)) 0%nat) in *.
  clearbody P. cbv zeta.
  set (B := nth 0 (t_shape (MILossGaussian.bins self)) 0%nat) in *. clearbody B N.
  destruct P as [dt sh f]. simpl in HsP. subst sh.
  unfold mi_loss_spec, mi_score, guarded_entropy.
  destruct (MILossGaussian.normalised self); unfold tmean; f_equal.
  - rewrite (tsum_rank1 _ N) by reflexivity.
    match goal with |- _ / INR ?a = _ => replace a with N by (cbn; lia) end.
    reflexivity.
  - rewrite (tsum_rank1 _ N) by reflexivity.
    match goal with |- _ / INR ?a = _ => replace a with N by (cbn; lia) end.
    reflexivity.
Qed.

Lemma guarded_entropy_ext n p q :
  (forall i, (i < n)%nat -> p i = q i) -> guarded_entropy n p = guarded_entropy n q.
Proof.
  intros H. unfold guarded_entropy. f_equal. apply big_sum_ext.
  intros i Hi. now rewrite H.
Qed.

Lemma mi_score_transpose b B P P' :
  (forall i j, (i < B)%nat -> (j < B)%nat -> P' i j = P j i) ->
  mi_score b B P' = mi_score b B P.
Proof.
  intros H. unfold mi_score.
  assert (Ht : guarded_entropy B (fun i => big_sum B (fun j => P' i j)) =
               guarded_entropy B (fun j => big_sum B (fun i => P i j))).
  { apply guarded_entropy_ext. intros i Hi. apply big_sum_ext. intros j Hj. now apply H. }
  assert (Hs : guarded_entropy B (fun j => big_sum B (fun i => P' i j)) =
               guarded_entropy B (fun i => big_sum B (fun j => P i j))).
  { apply guarded_entropy_ext. intros j Hj. apply big_sum_ext. intros i Hi. now apply H. }
  assert (Hj : big_sum B (fun i => big_sum B (fun j => P' i j * ln (P' i j + 1e-10))) =
               big_sum B (fun i => big_sum B (fun j => P i j * ln (P i j + 1e-10)))).
  { rewrite big_sum_swap. apply big_sum_ext. intros i Hi. apply big_sum_ext.
    intros j Hj. now rewrite H. }
  rewrite Ht, Hs, Hj. destruct b; [f_equal|]; lra.
Qed.

Lemma hist_at_swap self x y n i j :
  nth 2 (t_shape x) 0%nat = nth 2 (t_shape y) 0%nat ->
  hist_at self y x n i j = hist_at self x y n j i.
Proof.
  intros H. unfold hist_at. rewrite H. apply big_sum_ext. intros k _. lra.
Qed.

Lemma hist_mass_swap self x y n :
  nth 2 (t_shape x) 0%nat = nth 2 (t_shape y) 0%nat ->
  hist_mass self y x n = hist_mass self x y n.
Proof.
  intros H. unfold hist_mass. rewrite big_sum_swap.
  apply big_sum_ext. intros i _. apply big_sum_ext. intros j _.
  now apply hist_at_swap.
Qed.

Lemma joint_prob_swap self x y n i j :
  nth 2 (t_shape x) 0%nat = nth 2 (t_shape y) 0%nat ->
  t_at (fst (MILossGaussian._compute_joint_prob self y x)) [n; i; j] =
  t_at (fst (MILossGaussian._compute_joint_prob self x y)) [n; j; i].
Proof.
  intros H. rewrite !joint_prob_at, hist_at_swap, hist_mass_swap by assumption.
  reflexivity.
Qed.

Lemma promote_comm a b : promote a b = promote b a.
Proof. destruct a, b; reflexivity. Qed.

Lemma tadd_comm x y : t_shape x = t_shape y -> tadd x y = tadd y x.
Proof.
  intros H. unfold tadd, tmap2. rewrite promote_comm, H. f_equal.
  apply functional_extensionality. intros i. lra.
Qed.

Lemma joint_inputs_swap avg self x y :
  t_shape x = t_shape y ->
  joint_inputs avg self y x =
  (snd (joint_inputs avg self x y), fst (joint_inputs avg self x y)).
Proof.
  intros H. unfold joint_inputs. rewrite (tadd_comm y x) by easy.
  destruct (MILossGaussian.roi self); reflexivity.
Qed.

Lemma joint_inputs_shapes avg self x y :
  t_shape x = t_shape y ->
  t_shape (fst (joint_inputs avg self x y)) = t_shape (snd (joint_inputs avg self x y)).
Proof.
  intros H. unfold joint_inputs. destruct (MILossGaussian.roi self); cbn [fst snd].
  - unfold masked_select_gt, unsqueeze, of_list. cbn [t_shape firstn skipn app].
    rewrite !length_map, H. reflexivity.
  - unfold flatten_from. cbn [t_shape]. now rewrite H.
Qed.

(** C5.  In exact real arithmetic the mutual-information loss is symmetric:
    for equal-shaped inputs, [forward] on (x, y) and on (y, x) return the same
    value, for every module, so both with roi=False and with roi=True (the ROI
    mask is computed from (x + y) / 2 and applied to both inputs). *)
Theorem forward_symmetric avg self x y :
  t_shape x = t_shape y ->
  fst (MILossGaussian.forward avg self x y) = fst (MILossGaussian.forward avg self y x).
Proof.
  intros H. rewrite !forward_unfold. cbv zeta.
  rewrite (joint_inputs_swap avg self x y H). cbn [fst snd].
  pose proof (joint_inputs_shapes avg self x y H) as Hs.
  destruct (joint_inputs avg self x y) as [x' y']. cbn [fst snd] in *.
  unfold mi_loss_spec. rewrite Hs. do 2 f_equal.
  apply big_sum_ext. intros n _. symmetry. apply mi_score_transpose.
  intros i j _ _. apply joint_prob_swap. now rewrite Hs.
Qed.

Lemma forward_symmetric_witness :
  fst (MILossGaussian.forward (fun t _ => t) default_module (one_voxel 0.2) (one_voxel 0.7)) =
  fst (MILossGaussian.forward (fun t _ => t) default_module (one_voxel 0.7) (one_voxel 0.2)).
Proof.
  apply (forward_symmetric (fun t _ => t) default_module (one_voxel 0.2) (one_voxel 0.7)).
  reflexivity.
Defined.

(** C3.  [forward] is the loss of the specification: with P the joint
    probability table of the (flattened, or ROI-selected) inputs, the marginal
    and joint entropies are taken with the logarithm guarded by 1e-10, and the
    value is the negated batch mean of (H_target + H_source) / H_joint when
    normalised and of H_target + H_source - H_joint otherwise. *)
Theorem forward_is_negated_mean_mi avg self x y :
  let xy := joint_inputs avg self x y in
  let P := fst (MILossGaussian._compute_joint_prob self (fst xy) (snd xy)) in
  let N := nth 0 (t_shape (fst xy)) 0%nat in
  let B := nth 0 (t_shape (MILossGaussian.bins self)) 0%nat in
  t_shape P = [N; B; B] /\
  fst (MILossGaussian.forward avg self x y) =
  - (big_sum N (fun n =>
       let p_target := fun i => big_sum B (fun j => t_at P [n; i; j]) in
       let p_source := fun j => big_sum B (fun i => t_at P [n; i; j]) in
       let H_target := - big_sum B (fun i => p_target i * ln (p_target i + 1e-10)) in
       let H_source := - big_sum B (fun j => p_source j * ln (p_source j + 1e-10)) in
       let H_joint := - big_sum B (fun i => big_sum B (fun j =>
                          t_at P [n; i; j] * ln (t_at P [n; i; j] + 1e-10))) in
       if MILossGaussian.normalised self then (H_target + H_source) / H_joint
       else H_target + H_source - H_joint) / INR N).
Proof.
  intros xy P N B. split; [apply joint_prob_shape|].
  unfold P, xy. rewrite forward_unfold. reflexivity.
Qed.

(** C10.  With roi=True the voxels of the whole batch that pass the mask are
    pooled: both tensors handed to [_compute_joint_prob] have shape (1, 1, K),
    K being the number of selected voxels of the entire batch and their values
    being the selected voxels in row-major order; the table has a batch
    dimension of one, and the loss is the negated score of that single pooled
    sample (a mean over exactly one element), whatever the batch size of the
    inputs. *)
Theorem roi_pools_batch_into_one_sample avg self x y :
  MILossGaussian.roi self = true ->
  t_shape x = t_shape y ->
  let m := avg (tdivs (tadd x y) 2) 7%nat in
  let selected :=
    filter (fun i => Rgtb (t_at m i) (MILossGaussian.roi_threshold self))
           (indices (t_shape x)) in
  let K := length selected in
  let xy := joint_inputs avg self x y in
  let P := fst (MILossGaussian._compute_joint_prob self (fst xy) (snd xy)) in
  let B := nth 0 (t_shape (MILossGaussian.bins self)) 0%nat in
  t_shape (fst xy) = [1; 1; K]%nat /\
  t_shape (snd xy) = [1; 1; K]%nat /\
  (forall k, t_at (fst xy) [0; 0; k]%nat = nth k (map (t_at x) selected) 0) /\
  (forall k, t_at (snd xy) [0; 0; k]%nat = nth k (map (t_at y) selected) 0) /\
  t_shape P = [1; B; B]%nat /\
  fst (MILossGaussian.forward avg self x y) =
  - mi_score (MILossGaussian.normalised self) B (fun i j => t_at P [0; i; j]%nat).
Proof.
  intros Hroi Hshape m selected K xy P B.
  assert (Hx : t_shape (fst xy) = [1; 1; K]%nat).
  { unfold xy, joint_inputs. rewrite Hroi. cbn [fst].
    unfold masked_select_gt, unsqueeze, of_list. cbn [t_shape firstn skipn app].
    now rewrite length_map. }
  assert (Hy : t_shape (snd xy) = [1; 1; K]%nat).
  { unfold xy. rewrite <- (joint_inputs_shapes avg self x y Hshape). exact Hx. }
  split; [exact Hx|]. split; [exact Hy|].
  split; [|split].
  - intros k. unfold xy, joint_inputs. rewrite Hroi. reflexivity.
  - intros k. unfold xy, joint_inputs. rewrite Hroi. cbn [snd].
    unfold masked_select_gt, unsqueeze, of_list. cbn [t_at remove_at firstn skipn app hd].
    rewrite <- Hshape. reflexivity.
  - split.
    + unfold P. rewrite joint_prob_shape, Hx. reflexivity.
    + unfold P, xy. rewrite forward_unfold. cbv zeta. fold xy. rewrite Hx.
      unfold mi_loss_spec. cbn [nth]. unfold big_sum at 1. simpl. fold B. lra.
Qed.

Lemma default_roi_is_default_roi_module :
  MILossGaussian.init 0 1 64 true 0.0001 true = Some default_roi_module.
Proof. reflexivity. Qed.

Lemma roi_pools_batch_into_one_sample_witness :
  let x := mkTensor Float32 [2; 1; 1; 1]%nat (fun _ => 0.5) in
  t_shape (fst (joint_inputs (fun t _ => t) default_roi_module x x)) = [1; 1; 2]%nat.
Proof.
  intros x.
  destruct (roi_pools_batch_into_one_sample (fun t _ => t) default_roi_module x x
              eq_refl eq_refl) as (Hx & _).
  rewrite Hx. do 3 f_equal.
  unfold x. cbn -[Rgtb].
  unfold Rgtb. repeat (destruct (Rlt_dec _ _) as [_|Hn]; [|exfalso; apply Hn; lra]).
  reflexivity.
Defined.

(** C6.  [__init__] derives the bandwidth from [vmin], [vmax] and [num_bins]
    alone: the full width at half maximum 2 sqrt(2 ln 2) sigma of the kernel is
    one bin width (vmax - vmin) / num_bins, whatever the other options are, and
    [forward] never changes it.  The [num_bins] bin centres are equally spaced,
    the first at [vmin] and, when there are at least two, the last at [vmax]. *)
Theorem init_sigma_fwhm_is_bin_width vmin vmax num_bins roi roi_threshold normalised :
  (0 < num_bins)%Z ->
  exists self,
    MILossGaussian.init vmin vmax num_bins roi roi_threshold normalised = Some self /\
    2 * sqrt (2 * ln 2) * MILossGaussian.sigma self = (vmax - vmin) / IZR num_bins /\
    (forall roi' roi_threshold' normalised' self',
        MILossGaussian.init vmin vmax num_bins roi' roi_threshold' normalised' = Some self' ->
        MILossGaussian.sigma self' = MILossGaussian.sigma self) /\
    (forall avg x y,
        MILossGaussian.sigma (snd (MILossGaussian.forward avg self x y)) =
        MILossGaussian.sigma self) /\
    t_shape (MILossGaussian.bins self) = [Z.to_nat num_bins; 1%nat] /\
    (forall i, t_at (MILossGaussian.bins self) [i; 0%nat] =
               vmin + INR i * ((vmax - vmin) / INR (Z.to_nat num_bins - 1))) /\
    t_at (MILossGaussian.bins self) [0%nat; 0%nat] = vmin /\
    ((1 < num_bins)%Z ->
     t_at (MILossGaussian.bins self) [(Z.to_nat num_bins - 1)%nat; 0%nat] = vmax).
Proof.
  intros Hn. unfold MILossGaussian.init.
  destruct (Z.leb_spec num_bins 0) as [Hle|_]; [lia|].
  eexists. split; [reflexivity|]. cbn [MILossGaussian.sigma MILossGaussian.bins].
  pose proof sqrt_2ln2_pos as Hs.
  assert (Hz : IZR num_bins <> 0) by (apply not_0_IZR; lia).
  split; [field; split; lra|].
  split.
  { intros roi' thr' nrm' self' H.
    destruct (Z.leb_spec num_bins 0) as [Hle|_]; [lia|].
    injection H as <-. reflexivity. }
  split.
  { intros avg x y. unfold MILossGaussian.forward.
    destruct roi; cbv zeta; cbn [MILossGaussian._compute_joint_prob
      MILossGaussian.normalised MILossGaussian.set_bins];
      destruct normalised; reflexivity. }
  split; [reflexivity|].
  split; [intros i; reflexivity|].
  split.
  { cbn. lra. }
  intros H1. cbn [unsqueeze linspace t_at remove_at firstn skipn app hd].
  assert (Hm : INR (Z.to_nat num_bins - 1) <> 0) by (apply not_0_INR; lia).
  field. exact Hm.
Qed.

Lemma init_sigma_fwhm_is_bin_width_witness :
  MILossGaussian.init 0 1 64 false 0.0001 true = Some default_module /\
  2 * sqrt (2 * ln 2) * MILossGaussian.sigma default_module = (1 - 0) / 64.
Proof.
  destruct (init_sigma_fwhm_is_bin_width 0 1 64 false 0.0001 true eq_refl)
    as (self & Hinit & Hfwhm & _).
  split; [reflexivity|].
  injection Hinit as <-. exact Hfwhm.
Defined.

(** ** What a forward call leaves on the module *)

Lemma gaussian_forward_state avg self x y :
  snd (MILossGaussian.forward avg self x y) =
  MILossGaussian.set_bins self
    (type_as (MILossGaussian.bins self) (fst (joint_inputs avg self x y))).
Proof.
  unfold MILossGaussian.forward, joint_inputs.
  destruct (MILossGaussian.roi self); cbv zeta;
    cbn [fst snd MILossGaussian._compute_joint_prob MILossGaussian.normalised
         MILossGaussian.set_bins];
    destruct (MILossGaussian.normalised self); reflexivity.
Qed.

Section BSplineState.
Import MILossBSpline.

Variable normalise_intensity : tensor -> string -> R -> R -> tensor.
Variable cubic_bspline_torch : tensor -> tensor.
Variable rect_window_torch : tensor -> tensor.

Let fwd := forward normalise_intensity cubic_bspline_torch rect_window_torch.

Lemma bspline_forward_config self target source :
  let self' := snd (fwd self target source) in
  debug self' = debug self /\ normalised self' = normalised self /\
  window self' = window self /\
  target_min self' = target_min self /\ target_max self' = target_max self /\
  source_min self' = source_min self /\ source_max self' = source_max self /\
  bin_width_target self' = bin_width_target self /\
  bin_width_source self' = bin_width_source self /\
  eps_target self' = eps_target self /\ eps_source self' = eps_source self /\
  t_shape (bins_target self') = t_shape (bins_target self) /\
  t_shape (bins_source self') = t_shape (bins_source self).
Proof.
  unfold fwd, forward. cbv zeta.
  cbn [set_bins_target set_bins_source bins_target bins_source eps_target
       eps_source window debug normalised].
  destruct (_parzen_window_1d _ _ _ (window self)); [|cbn; tauto].
  destruct (_parzen_window_1d _ _ _ (window self)); [|cbn; tauto].
  destruct (debug self) eqn:Hd, (normalised self) eqn:Hn; cbn; rewrite ?Hd, ?Hn; tauto.
Qed.

Lemma bspline_forward_no_debug self target source :
  debug self = false ->
  let self' := snd (fwd self target source) in
  histogram_joint self' = histogram_joint self /\ p_joint self' = p_joint self /\
  p_target self' = p_target self /\ p_source self' = p_source self.
Proof.
  intros Hd. unfold fwd, forward. cbv zeta.
  cbn [set_bins_target set_bins_source bins_target bins_source eps_target
       eps_source window debug normalised].
  destruct (_parzen_window_1d _ _ _ (window self)); [|cbn; tauto].
  destruct (_parzen_window_1d _ _ _ (window self)); [|cbn; tauto].
  rewrite Hd. destruct (normalised self) eqn:Hn; cbn; rewrite ?Hn; tauto.
Qed.

Lemma bspline_forward_debug self target source :
  debug self = true ->
  (window self = "cubic_bspline" \/ window self = "rectangle")%string ->
  let self' := snd (fwd self target source) in
  exists h pj pt ps,
    histogram_joint self' = Some h /\ p_joint self' = Some pj /\
    p_target self' = Some pt /\ p_source self' = Some ps /\
    pt = sum_dim 2 pj /\ ps = sum_dim 1 pj.
Proof.
  intros Hd Hw. unfold fwd, forward. cbv zeta.
  cbn [set_bins_target set_bins_source bins_target bins_source eps_target
       eps_source window debug normalised].
  unfold _parzen_window_1d.
  destruct Hw as [-> | ->]; cbn [String.eqb Ascii.eqb Bool.eqb]; rewrite Hd;
    destruct (normalised self) eqn:Hn; cbn; rewrite ?Hn; cbn;
    do 4 eexists; repeat split; reflexivity.
Qed.

Lemma bspline_forward_bins self target source :
  let self' := snd (fwd self target source) in
  bins_target self' =
    type_as (bins_target self)
      (bspline_input normalise_intensity target (target_min self) (target_max self)) /\
  bins_source self' =
    type_as (bins_source self)
      (bspline_input normalise_intensity source (source_min self) (source_max self)).
Proof.
  unfold fwd, forward, bspline_input. cbv zeta.
  cbn [set_bins_target set_bins_source bins_target bins_source eps_target
       eps_source window debug normalised target_min target_max source_min source_max].
  destruct (_parzen_window_1d _ _ _ (window self)); [|cbn; tauto].
  destruct (_parzen_window_1d _ _ _ (window self)); [|cbn; tauto].
  destruct (debug self) eqn:Hd, (normalised self) eqn:Hn; cbn; rewrite ?Hd, ?Hn; tauto.
Qed.

Lemma bspline_forward_debug_stored self target source :
  debug self = true ->
  (window self = "cubic_bspline" \/ window self = "rectangle")%string ->
  let r := fwd self target source in
  let h := bspline_histogram normalise_intensity cubic_bspline_torch rect_window_torch
             self target source in
  let pj := div_per_sample h (sum_dim 1 (flatten_from 1 h)) in
  histogram_joint (snd r) = Some h /\ p_joint (snd r) = Some pj /\
  p_target (snd r) = Some (sum_dim 2 pj) /\ p_source (snd r) = Some (sum_dim 1 pj) /\
  fst r = Some (bspline_loss (normalised self) pj (sum_dim 2 pj) (sum_dim 1 pj)).
Proof.
  intros Hd Hw. unfold fwd, forward, bspline_histogram, bspline_response,
    bspline_window, bspline_input, bspline_loss. cbv zeta.
  cbn [set_bins_target set_bins_source bins_target bins_source eps_target
       eps_source window debug normalised target_min target_max source_min source_max].
  unfold _parzen_window_1d.
  destruct Hw as [-> | ->]; cbn [String.eqb Ascii.eqb Bool.eqb]; rewrite Hd;
    destruct (normalised self) eqn:Hn; cbn; rewrite ?Hn; cbn;
    repeat split; reflexivity.
Qed.

End BSplineState.

Lemma joint_inputs_dtype avg self x y :
  t_dtype (fst (joint_inputs avg self x y)) = t_dtype x.
Proof.
  unfold joint_inputs. destruct (MILossGaussian.roi self); reflexivity.
Qed.

Lemma default_bspline_is_init :
  MILossBSpline.init 0 1 0 1 32 32 1 1 true "cubic_bspline" false = Some default_bspline /\
  MILossBSpline.init 0 1 0 1 32 32 1 1 true "cubic_bspline" true = Some default_debug_bspline.
Proof. split; reflexivity. Qed.

(** C7, as the code has it.  A forward call changes no construction-time
    scalar of the module.  [MILossGaussian.forward] rebinds [bins] to a cast of
    itself to the dtype of its input and changes no other field: the shape
    stays, the dtype becomes the input's, and the values stay when the cast
    does not narrow (the input is at least as wide as the buffer).
    [MILossBSpline.forward] does the same to [bins_target] and [bins_source];
    it stores nothing else when debug is off, and when debug is on (and the
    window is a recognised one) it stores on the module the joint histogram of
    the call, the joint distribution that normalises it and its two marginals,
    the very distributions whose entropies give the returned loss. *)
Theorem forward_keeps_configuration_values avg nrm cub rect
    (g : MILossGaussian.t) (b : MILossBSpline.t) (x y : tensor) :
  let g' := snd (MILossGaussian.forward avg g x y) in
  let rb := MILossBSpline.forward nrm cub rect b x y in
  let b' := snd rb in
  let target := bspline_input nrm x (MILossBSpline.target_min b)
                  (MILossBSpline.target_max b) in
  let source := bspline_input nrm y (MILossBSpline.source_min b)
                  (MILossBSpline.source_max b) in
  (MILossGaussian.vmin g' = MILossGaussian.vmin g /\
   MILossGaussian.vmax g' = MILossGaussian.vmax g /\
   MILossGaussian.sigma g' = MILossGaussian.sigma g /\
   MILossGaussian.num_bins g' = MILossGaussian.num_bins g /\
   MILossGaussian.roi g' = MILossGaussian.roi g /\
   MILossGaussian.roi_threshold g' = MILossGaussian.roi_threshold g /\
   MILossGaussian.normalised g' = MILossGaussian.normalised g /\
   t_shape (MILossGaussian.bins g') = t_shape (MILossGaussian.bins g) /\
   t_dtype (MILossGaussian.bins g') = t_dtype x /\
   (lossless_cast (t_dtype (MILossGaussian.bins g)) (t_dtype x) ->
    t_at (MILossGaussian.bins g') = t_at (MILossGaussian.bins g))) /\
  (MILossBSpline.debug b' = MILossBSpline.debug b /\
   MILossBSpline.normalised b' = MILossBSpline.normalised b /\
   MILossBSpline.window b' = MILossBSpline.window b /\
   MILossBSpline.target_min b' = MILossBSpline.target_min b /\
   MILossBSpline.target_max b' = MILossBSpline.target_max b /\
   MILossBSpline.source_min b' = MILossBSpline.source_min b /\
   MILossBSpline.source_max b' = MILossBSpline.source_max b /\
   MILossBSpline.bin_width_target b' = MILossBSpline.bin_width_target b /\
   MILossBSpline.bin_width_source b' = MILossBSpline.bin_width_source b /\
   MILossBSpline.eps_target b' = MILossBSpline.eps_target b /\
   MILossBSpline.eps_source b' = MILossBSpline.eps_source b /\
   t_shape (MILossBSpline.bins_target b') = t_shape (MILossBSpline.bins_target b) /\
   t_shape (MILossBSpline.bins_source b') = t_shape (MILossBSpline.bins_source b) /\
   t_dtype (MILossBSpline.bins_target b') = t_dtype target /\
   t_dtype (MILossBSpline.bins_source b') = t_dtype source /\
   (lossless_cast (t_dtype (MILossBSpline.bins_target b)) (t_dtype target) ->
    t_at (MILossBSpline.bins_target b') = t_at (MILossBSpline.bins_target b)) /\
   (lossless_cast (t_dtype (MILossBSpline.bins_source b)) (t_dtype source) ->
    t_at (MILossBSpline.bins_source b') = t_at (MILossBSpline.bins_source b))) /\
  (MILossBSpline.debug b = false ->
   MILossBSpline.histogram_joint b' = MILossBSpline.histogram_joint b /\
   MILossBSpline.p_joint b' = MILossBSpline.p_joint b /\
   MILossBSpline.p_target b' = MILossBSpline.p_target b /\
   MILossBSpline.p_source b' = MILossBSpline.p_source b) /\
  (MILossBSpline.debug b = true ->
   (MILossBSpline.window b = "cubic_bspline" \/ MILossBSpline.window b = "rectangle")%string ->
   let h := bspline_histogram nrm cub rect b x y in
   let pj := div_per_sample h (sum_dim 1 (flatten_from 1 h)) in
   MILossBSpline.histogram_joint b' = Some h /\
   MILossBSpline.p_joint b' = Some pj /\
   MILossBSpline.p_target b' = Some (sum_dim 2 pj) /\
   MILossBSpline.p_source b' = Some (sum_dim 1 pj) /\
   fst rb = Some (bspline_loss (MILossBSpline.normalised b) pj
                    (sum_dim 2 pj) (sum_dim 1 pj))).
Proof.
  intros g' rb b' target source.
  assert (Hg : g' = MILossGaussian.set_bins g
            (type_as (MILossGaussian.bins g) (fst (joint_inputs avg g x y))))
    by apply gaussian_forward_state.
  split.
  { rewrite Hg. cbn [MILossGaussian.set_bins MILossGaussian.vmin MILossGaussian.vmax
                     MILossGaussian.sigma MILossGaussian.num_bins MILossGaussian.roi
                     MILossGaussian.roi_threshold MILossGaussian.normalised
                     MILossGaussian.bins type_as t_shape t_dtype t_at].
    rewrite joint_inputs_dtype. repeat split; reflexivity. }
  pose proof (bspline_forward_config nrm cub rect b x y) as Hc. cbv zeta in Hc.
  destruct (bspline_forward_bins nrm cub rect b x y) as [Hbt Hbs].
  fold rb in Hc, Hbt, Hbs. fold b' in Hc, Hbt, Hbs. fold target in Hbt. fold source in Hbs.
  split.
  { destruct Hc as (c1 & c2 & c3 & c4 & c5 & c6 & c7 & c8 & c9 & c10 & c11 &
                    c12 & c13).
    do 11 (split; [assumption|]).
    split; [exact c12|]. split; [exact c13|].
    split; [rewrite Hbt; reflexivity|]. split; [rewrite Hbs; reflexivity|].
    split; intros _; [rewrite Hbt|rewrite Hbs]; reflexivity. }
  split.
  - intros Hd. now apply bspline_forward_no_debug.
  - intros Hd Hw. exact (bspline_forward_debug_stored nrm cub rect b x y Hd Hw).
Qed.

Lemma forward_keeps_configuration_values_witness :
  t_at (MILossGaussian.bins
          (snd (MILossGaussian.forward (fun t _ => t) default_module
                  (one_voxel 0.2) (one_voxel 0.7))))
    = t_at (MILossGaussian.bins default_module) /\
  MILossBSpline.histogram_joint
    (snd (MILossBSpline.forward (fun t _ _ _ => t) (fun t => t) (fun t => t)
            default_bspline (one_voxel 0.2) (one_voxel 0.7))) = None /\
  MILossBSpline.histogram_joint
    (snd (MILossBSpline.forward (fun t _ _ _ => t) (fun t => t) (fun t => t)
            default_debug_bspline (one_voxel 0.2) (one_voxel 0.7)))
    = Some (bspline_histogram (fun t _ _ _ => t) (fun t => t) (fun t => t)
              default_debug_bspline (one_voxel 0.2) (one_voxel 0.7)).
Proof.
  split; [|split].
  - destruct (forward_keeps_configuration_values (fun t _ => t)
                (fun t _ _ _ => t) (fun t => t) (fun t => t)
                default_module default_bspline (one_voxel 0.2) (one_voxel 0.7))
      as (Hg & _).
    destruct Hg as (_ & _ & _ & _ & _ & _ & _ & _ & _ & Hval).
    apply Hval. unfold lossless_cast. cbn. lia.
  - destruct (forward_keeps_configuration_values (fun t _ => t)
                (fun t _ _ _ => t) (fun t => t) (fun t => t)
                default_module default_bspline (one_voxel 0.2) (one_voxel 0.7))
      as (_ & _ & Hoff & _).
    destruct (Hoff eq_refl) as (H & _). exact H.
  - destruct (forward_keeps_configuration_values (fun t _ => t)
                (fun t _ _ _ => t) (fun t => t) (fun t => t)
                default_module default_debug_bspline (one_voxel 0.2) (one_voxel 0.7))
      as (_ & _ & _ & Hon).
    destruct (Hon eq_refl (or_introl eq_refl)) as (H & _). exact H.
Defined.

(** C7, as stated, fails.  The default [MILossGaussian] module called on a
    double-precision input is left with its bin-centre buffer rebound to a
    double-precision cast, and [MILossBSpline(debug=True)] is left, after any
    forward call, with the joint histogram and the joint distribution of that
    call stored on it. *)
Lemma forward_modifies_module :
  snd (MILossGaussian.forward (fun t _ => t) default_module
         (one_voxel_f64 0.5) (one_voxel_f64 0.5)) <> default_module /\
  MILossBSpline.init 0 1 0 1 32 32 1 1 true "cubic_bspline" true
    = Some default_debug_bspline /\
  MILossBSpline.histogram_joint default_debug_bspline = None /\
  forall nrm cub rect target source,
    let after := snd (MILossBSpline.forward nrm cub rect default_debug_bspline
                        target source) in
    MILossBSpline.histogram_joint after <> None /\
    MILossBSpline.p_joint after <> None /\
    after <> default_debug_bspline.
Proof.
  split.
  { intros H.
    apply (f_equal (fun s => t_dtype (MILossGaussian.bins s))) in H.
    rewrite gaussian_forward_state in H. discriminate H. }
  split; [reflexivity|]. split; [reflexivity|].
  intros nrm cub rect target source after.
  destruct (bspline_forward_debug nrm cub rect default_debug_bspline target source
              eq_refl (or_introl eq_refl)) as (h & pj & pt & ps & H1 & H2 & _).
  fold after in H1, H2.
  split; [rewrite H1; discriminate|]. split; [rewrite H2; discriminate|].
  intros Heq. rewrite Heq in H1. discriminate H1.
Qed.

(** ** Construction of the registration model *)

Section ModelConstruction.
Import Models.
Open Scope string_scope.

Variables hyper network transform : Type.
Variable SiameseNet : result network.
Variable UNet : hyper -> result network.
Variable SiameseNetFFD : result network.
Variable FFDNet : hyper -> result network.
Variable DVFTransform : result transform.
Variable BSplineFFDTransform : hyper -> result transform.

Let set_network := _set_network hyper network SiameseNet UNet SiameseNetFFD FFDNet.
Let set_transformation :=
  _set_transformation_model hyper transform DVFTransform BSplineFFDTransform.
Let construct :=
  init hyper network transform SiameseNet UNet SiameseNetFFD FFDNet
       DVFTransform BSplineFFDTransform.

Lemma set_network_unknown (p : params hyper) :
  p_network _ p <> "SiameseNetDVF" -> p_network _ p <> "UNetDVF" ->
  p_network _ p <> "SiameseNetFFD" -> p_network _ p <> "FFDNet" ->
  set_network p = inl (ValueError "Model: Network not recognised").
Proof.
  intros H1 H2 H3 H4. unfold set_network, _set_network.
  apply String.eqb_neq in H1, H2, H3, H4. now rewrite H1, H2, H3, H4.
Qed.

Lemma set_transformation_unknown (p : params hyper) :
  p_transformation _ p <> "DVF" -> p_transformation _ p <> "FFD" ->
  set_transformation p = inl (ValueError "Model: Transformation model not recognised").
Proof.
  intros H1 H2. unfold set_transformation, _set_transformation_model.
  apply String.eqb_neq in H1, H2. now rewrite H1, H2.
Qed.

(** C8.  An unrecognised [params.network] makes [_set_network], and with it the
    construction, raise the ValueError "Model: Network not recognised"; an
    unrecognised [params.transformation] makes [_set_transformation_model]
    raise the ValueError "Model: Transformation model not recognised", and the
    construction then never returns a model: it raises that ValueError, unless
    building the network (which comes first) has already raised.  *)
Theorem unknown_tags_raise_value_error (p : params hyper) :
  (p_network _ p <> "SiameseNetDVF" -> p_network _ p <> "UNetDVF" ->
   p_network _ p <> "SiameseNetFFD" -> p_network _ p <> "FFDNet" ->
   set_network p = inl (ValueError "Model: Network not recognised") /\
   construct p = inl (ValueError "Model: Network not recognised")) /\
  (p_transformation _ p <> "DVF" -> p_transformation _ p <> "FFD" ->
   set_transformation p = inl (ValueError "Model: Transformation model not recognised") /\
   (exists e, construct p = inl e /\
      (e = ValueError "Model: Transformation model not recognised" \/
       set_network p = inl e)) /\
   (forall net, set_network p = inr net ->
      construct p = inl (ValueError "Model: Transformation model not recognised"))).
Proof.
  split.
  - intros H1 H2 H3 H4.
    pose proof (set_network_unknown p H1 H2 H3 H4) as Hn.
    split; [exact Hn|].
    unfold construct, init. fold set_network. now rewrite Hn.
  - intros H1 H2.
    pose proof (set_transformation_unknown p H1 H2) as Ht.
    split; [exact Ht|]. split.
    + unfold construct, init. fold set_network. fold set_transformation.
      destruct (set_network p) as [e|net].
      * exists e. split; [reflexivity|now right].
      * rewrite Ht. eexists. split; [reflexivity|now left].
    + intros net Hnet. unfold construct, init. fold set_network.
      fold set_transformation. now rewrite Hnet, Ht.
Qed.

End ModelConstruction.

Lemma unknown_tags_raise_value_error_witness :
  Models.init unit unit unit (inr tt) (fun _ => inr tt) (inr tt) (fun _ => inr tt)
    (inr tt) (fun _ => inr tt) (Models.mk_params unit "UNetDVF" "affine" tt)
  = inl (Models.ValueError "Model: Transformation model not recognised") /\
  Models.init unit unit unit (inr tt) (fun _ => inr tt) (inr tt) (fun _ => inr tt)
    (inr tt) (fun _ => inr tt) (Models.mk_params unit "ResNet" "DVF" tt)
  = inl (Models.ValueError "Model: Network not recognised").
Proof.
  split.
  - destruct (unknown_tags_raise_value_error unit unit unit
                (inr tt) (fun _ => inr tt) (inr tt) (fun _ => inr tt)
                (inr tt) (fun _ => inr tt)
                (Models.mk_params unit "UNetDVF" "affine" tt)) as (_ & Ht).
    destruct Ht as (_ & _ & H); [discriminate|discriminate|].
    apply (H tt). reflexivity.
  - destruct (unknown_tags_raise_value_error unit unit unit
                (inr tt) (fun _ => inr tt) (inr tt) (fun _ => inr tt)
                (inr tt) (fun _ => inr tt)
                (Models.mk_params unit "ResNet" "DVF" tt)) as (Hn & _).
    destruct Hn as (_ & H); [discriminate|discriminate|discriminate|discriminate|].
    exact H.
Defined.

(** ** Local normalised cross-correlation *)

Lemma in_indices_cons i n s :
  In i (indices (n :: s)) <-> exists k r, i = k :: r /\ (k < n)%nat /\ In r (indices s).
Proof.
  simpl. rewrite in_flat_map. split.
  - intros (k & Hk & Hi). apply in_map_iff in Hi as (r & <- & Hr).
    apply in_seq in Hk. exists k, r. repeat split; [lia|assumption].
  - intros (k & r & -> & Hk & Hr). exists k. split.
    + apply in_seq. lia.
    + apply in_map. assumption.
Qed.

Lemma in_indices_length i s : In i (indices s) -> length i = length s.
Proof.
  revert i. induction s as [|n s IH]; intros i Hi.
  - simpl in Hi. destruct Hi as [<-|[]]. reflexivity.
  - apply in_indices_cons in Hi as (k & r & -> & _ & Hr). simpl. f_equal. now apply IH.
Qed.

Lemma zip_mul_ones pos d :
  length pos = d -> zip_with Nat.mul pos (repeat 1%nat d) = pos.
Proof.
  revert d. induction pos as [|p pos IH]; intros d Hd; subst d; [reflexivity|].
  unfold zip_with in *. simpl. rewrite Nat.mul_1_r. f_equal. now apply IH.
Qed.

Lemma conv_out_size size ws :
  length ws = length size ->
  zip_with (fun sz q => ((sz + 2 * fst (snd q) - fst q) / snd (snd q) + 1)%nat)
           size (combine ws (combine (map (fun w => (w / 2)%nat) ws)
                                     (repeat 1%nat (length size))))
  = lncc_out_size size ws.
Proof.
  revert ws. induction size as [|sz size IH]; intros [|w ws] H; try discriminate; [reflexivity|].
  unfold lncc_out_size, zip_with in *.
  cbn [combine map repeat length fst snd]. rewrite Nat.div_1_r. f_equal.
  apply IH. simpl in H. lia.
Qed.

Lemma conv_kernel_fits size ws :
  length ws = length size -> Forall (fun sz => (1 <= sz)%nat) size ->
  forallb (fun q => (fst q <=? fst (snd q) + 2 * snd (snd q))%nat)
          (combine ws (combine size (map (fun w => (w / 2)%nat) ws))) = true.
Proof.
  revert ws. induction size as [|sz size IH]; intros [|w ws] H Hs; try discriminate; [reflexivity|].
  cbn [combine map forallb fst snd]. inversion Hs; subst.
  rewrite IH; [|simpl in H; lia|assumption].
  rewrite andb_true_r. apply Nat.leb_le.
  pose proof (Nat.div_mod_eq w 2). pose proof (Nat.mod_upper_bound w 2). lia.
Qed.

Lemma forallb_repeat_ones d : forallb (fun s => (1 <=? s)%nat) (repeat 1%nat d) = true.
Proof. induction d; simpl; auto. Qed.

Lemma conv_ones d t dt ws n size :
  t_shape t = n :: 1%nat :: size -> length size = d -> length ws = d ->
  Forall (fun sz => (1 <= sz)%nat) size ->
  exists T,
    convNd d t (mkTensor dt (1 :: 1 :: ws)%nat (fun _ => 1)) (repeat 1%nat d)
           (map (fun w => (w / 2)%nat) ws) = Some T /\
    t_shape T = n :: 1%nat :: lncc_out_size size ws /\
    forall b pos, length pos = d -> t_at T (b :: 0%nat :: pos) = box_sum t ws b pos.
Proof.
  intros Hs Hd Hw Hpos. unfold convNd. rewrite Hs. cbn [t_shape].
  rewrite Hd, Hw, repeat_length, length_map, Hw, !Nat.eqb_refl, forallb_repeat_ones,
    conv_kernel_fits by (auto; congruence).
  cbn [andb]. eexists. split; [reflexivity|]. cbn [t_shape t_at]. split.
  - rewrite <- Hd, conv_out_size by congruence. reflexivity.
  - intros b pos Hl. unfold big_sum. cbn [seq map Rsum fold_right].
    rewrite Rplus_0_r. unfold box_sum. apply Rsum_map_ext_in. intros off _.
    rewrite zip_mul_ones by assumption. lra.
Qed.

Lemma param_dim_setup_length p d ws :
  param_dim_setup p d = Some ws -> length ws = d.
Proof.
  destruct p as [w|l]; simpl.
  - intros [= <-]. apply repeat_length.
  - destruct (Nat.eqb_spec (length l) d); [intros [= <-]; assumption|discriminate].
Qed.

Lemma lncc_out_size_length size ws :
  length ws = length size -> length (lncc_out_size size ws) = length size.
Proof.
  intros H. unfold lncc_out_size, zip_with. rewrite length_map, length_combine. lia.
Qed.

Lemma lncc_forward_eq self tar src n size ws :
  t_shape tar = n :: 1%nat :: size -> t_shape src = n :: 1%nat :: size ->
  (1 <= length size <= 3)%nat ->
  param_dim_setup (LNCCLoss.window_size self) (length size) = Some ws ->
  Forall (fun sz => (1 <= sz)%nat) size ->
  LNCCLoss.forward self tar src = Some (lncc_loss_spec tar src ws).
Proof.
  intros Ht Hs Hd Hp Hsz.
  pose proof (param_dim_setup_length _ _ _ Hp) as Hw.
  unfold LNCCLoss.forward. rewrite Ht. cbn [length Nat.sub]. rewrite Nat.sub_0_r, Hp.
  cbn [LNCCLoss.bind].
  assert (Hc : conv_of_dim (length size) = Some (convNd (length size))).
  { destruct (length size) as [|[|[|[|k]]]]; try reflexivity; lia. }
  rewrite Hc. cbn [LNCCLoss.bind].
  destruct (conv_ones (length size) tar (t_dtype tar) ws n size Ht eq_refl Hw Hsz)
    as (T1 & E1 & S1 & A1).
  destruct (conv_ones (length size) src (t_dtype tar) ws n size Hs eq_refl Hw Hsz)
    as (T2 & E2 & S2 & A2).
  destruct (conv_ones (length size) (tmul tar tar) (t_dtype tar) ws n size Ht eq_refl Hw Hsz)
    as (T3 & E3 & S3 & A3).
  destruct (conv_ones (length size) (tmul src src) (t_dtype tar) ws n size Hs eq_refl Hw Hsz)
    as (T4 & E4 & S4 & A4).
  destruct (conv_ones (length size) (tmul tar src) (t_dtype tar) ws n size Ht eq_refl Hw Hsz)
    as (T5 & E5 & S5 & A5).
  unfold type_as, ones. cbn [t_shape t_at t_dtype].
  rewrite E1. cbn [LNCCLoss.bind]. rewrite E2. cbn [LNCCLoss.bind].
  rewrite E3. cbn [LNCCLoss.bind]. rewrite E4. cbn [LNCCLoss.bind].
  rewrite E5. cbn [LNCCLoss.bind].
  f_equal. unfold lncc_loss_spec. f_equal. unfold tmean, tsum, to_list.
  cbn [t_shape tdiv tmul tmap2 tadd tsub tadds tmap]. rewrite S5, Ht.
  cbn [nth skipn]. f_equal.
  - rewrite Rsum_indices_cons. unfold big_sum. apply Rsum_map_ext_in. intros b _.
    rewrite Rsum_indices_cons. unfold big_sum. cbn [seq map Rsum fold_right].
    rewrite Rplus_0_r. apply Rsum_map_ext_in. intros pos Hpos.
    apply in_indices_length in Hpos. rewrite lncc_out_size_length in Hpos by congruence.
    unfold lncc_score.
    cbn [t_at tdiv tmul tmap2 tadd tsub tadds tmap tdivs tmuls tscale].
    rewrite A1, A2, A3, A4, A5 by assumption. reflexivity.
  - f_equal. unfold numel. cbn [fold_right]. now rewrite Nat.mul_1_l.
Qed.

Lemma Rsum_map_cons {A} (f : A -> R) (x : A) (l : list A) :
  Rsum (map f (x :: l)) = f x + Rsum (map f l).
Proof. reflexivity. Qed.

Section CauchySchwarz.
Context {A : Type}.
Variables (a b : A -> R).

Lemma Rsum_centered_product (l : list A) (m m' : R) :
  Rsum (map (fun x => (a x - m) * (b x - m')) l) =
  Rsum (map (fun x => a x * b x) l) - m' * Rsum (map a l) - m * Rsum (map b l)
  + m * m' * INR (length l).
Proof.
  induction l as [|x l IH].
  - simpl. lra.
  - change (length (x :: l)) with (S (length l)). rewrite S_INR.
    rewrite !Rsum_map_cons, IH. lra.
Qed.

Lemma Rsum_quadratic (l : list A) (k : R) :
  Rsum (map (fun x => (a x * k + b x) * (a x * k + b x)) l) =
  Rsum (map (fun x => a x * a x) l) * (k * k)
  + 2 * Rsum (map (fun x => a x * b x) l) * k
  + Rsum (map (fun x => b x * b x) l).
Proof.
  induction l as [|x l IH].
  - simpl. lra.
  - rewrite !Rsum_map_cons, IH. lra.
Qed.

Lemma cauchy_schwarz (l : list A) :
  Rsum (map (fun x => a x * b x) l) * Rsum (map (fun x => a x * b x) l) <=
  Rsum (map (fun x => a x * a x) l) * Rsum (map (fun x => b x * b x) l).
Proof.
  pose proof (Rsum_quadratic l) as Hq.
  assert (Hpos : forall k, 0 <= Rsum (map (fun x => (a x * k + b x) * (a x * k + b x)) l)).
  { intros k. apply Rsum_map_nonneg. intros x _. apply (Rle_0_sqr (a x * k + b x)). }
  assert (HA : 0 <= Rsum (map (fun x => a x * a x) l))
    by (apply Rsum_map_nonneg; intros x _; apply Rle_0_sqr).
  assert (HB : 0 <= Rsum (map (fun x => b x * b x) l))
    by (apply Rsum_map_nonneg; intros x _; apply Rle_0_sqr).
  set (SA := Rsum (map (fun x => a x * a x) l)) in *.
  set (SB := Rsum (map (fun x => b x * b x) l)) in *.
  set (SC := Rsum (map (fun x => a x * b x) l)) in *.
  destruct (Req_dec SA 0) as [H0|Hn0].
  - destruct (Req_dec SC 0) as [Hc|Hc]; [rewrite Hc; nra|].
    exfalso. specialize (Hpos (- (SB + 1) / (2 * SC))). rewrite Hq, H0 in Hpos.
    assert (2 * SC * (- (SB + 1) / (2 * SC)) = - (SB + 1)) by (field; assumption).
    lra.
  - assert (HApos : 0 < SA) by lra.
    specialize (Hpos (- SC / SA)). rewrite Hq in Hpos.
    assert (E : SA * (- SC / SA * (- SC / SA)) + 2 * SC * (- SC / SA) + SB
                = (SA * SB - SC * SC) / SA) by (field; assumption).
    rewrite E in Hpos.
    assert (0 <= (SA * SB - SC * SC) / SA * SA) by (apply Rmult_le_pos; lra).
    replace ((SA * SB - SC * SC) / SA * SA) with (SA * SB - SC * SC) in * by (field; assumption).
    lra.
Qed.

End CauchySchwarz.

Lemma padded_at_tmul a b p n c j :
  t_shape a = t_shape b ->
  padded_at (tmul a b) p n c j = padded_at a p n c j * padded_at b p n c j.
Proof.
  intros H. unfold padded_at. cbn [tmul tmap2 t_shape t_at]. rewrite <- H.
  destruct (forallb _ _); lra.
Qed.

Lemma lncc_score_bounds tar src ws b pos :
  t_shape tar = t_shape src ->
  0 <= lncc_score tar src ws b pos < 1.
Proof.
  intros H. unfold lncc_score. cbv zeta.
  set (p := map (fun w => (w / 2)%nat) ws).
  set (ft := fun off : index => padded_at tar p b 0%nat (zip_with Nat.add pos off)).
  set (fs := fun off : index => padded_at src p b 0%nat (zip_with Nat.add pos off)).
  assert (Ett : box_sum (tmul tar tar) ws b pos = Rsum (map (fun o => ft o * ft o) (indices ws))).
  { unfold box_sum. apply Rsum_map_ext_in. intros o _. now apply padded_at_tmul. }
  assert (Ess : box_sum (tmul src src) ws b pos = Rsum (map (fun o => fs o * fs o) (indices ws))).
  { unfold box_sum. apply Rsum_map_ext_in. intros o _. now apply padded_at_tmul. }
  assert (Ets : box_sum (tmul tar src) ws b pos = Rsum (map (fun o => ft o * fs o) (indices ws))).
  { unfold box_sum. apply Rsum_map_ext_in. intros o _. now apply padded_at_tmul. }
  rewrite Ett, Ess, Ets.
  change (box_sum tar ws b pos) with (Rsum (map ft (indices ws))).
  change (box_sum src ws b pos) with (Rsum (map fs (indices ws))).
  rewrite <- length_indices.
  set (mt := Rsum (map ft (indices ws)) / INR (length (indices ws))).
  set (ms := Rsum (map fs (indices ws)) / INR (length (indices ws))).
  pose proof (Rsum_centered_product ft fs (indices ws) mt ms) as Hcov.
  pose proof (Rsum_centered_product ft ft (indices ws) mt mt) as Hvt.
  pose proof (Rsum_centered_product fs fs (indices ws) ms ms) as Hvs.
  pose proof (cauchy_schwarz (fun o => ft o - mt) (fun o => fs o - ms) (indices ws)) as Hcs.
  assert (Hvt0 : 0 <= Rsum (map (fun o => (ft o - mt) * (ft o - mt)) (indices ws)))
    by (apply Rsum_map_nonneg; intros o _; apply Rle_0_sqr).
  assert (Hvs0 : 0 <= Rsum (map (fun o => (fs o - ms) * (fs o - ms)) (indices ws)))
    by (apply Rsum_map_nonneg; intros o _; apply Rle_0_sqr).
  set (cov := Rsum (map (fun o => (ft o - mt) * (fs o - ms)) (indices ws))) in *.
  set (vt := Rsum (map (fun o => (ft o - mt) * (ft o - mt)) (indices ws))) in *.
  set (vs := Rsum (map (fun o => (fs o - ms) * (fs o - ms)) (indices ws))) in *.
  clearbody cov vt vs mt ms.
  generalize dependent (Rsum (map (fun o => ft o * fs o) (indices ws))).
  generalize dependent (Rsum (map (fun o => ft o * ft o) (indices ws))).
  generalize dependent (Rsum (map (fun o => fs o * fs o) (indices ws))).
  generalize dependent (Rsum (map ft (indices ws))).
  generalize dependent (Rsum (map fs (indices ws))).
  generalize dependent (INR (length (indices ws))).
  intros n Ss St Sss Ess Hvs Stt Ett Hvt Sts Ets Hcov.
  replace (Sts - ms * St - mt * Ss + mt * ms * n) with cov by lra.
  replace (Stt - 2 * mt * St + mt * mt * n) with vt by lra.
  replace (Sss - 2 * ms * Ss + ms * ms * n) with vs by lra.
  assert (Hden : 0 < vt * vs + 1e-5) by (pose proof (Rmult_le_pos vt vs Hvt0 Hvs0); lra).
  split.
  - apply Rmult_le_pos; [nra|]. left. now apply Rinv_0_lt_compat.
  - apply (Rmult_lt_reg_r (vt * vs + 1e-5)); [assumption|].
    unfold Rdiv. rewrite Rmult_assoc, Rinv_l, Rmult_1_r by lra. lra.
Qed.

Lemma numel_pos (s : list nat) :
  Forall (fun k => (1 <= k)%nat) s -> (1 <= numel s)%nat.
Proof.
  induction 1 as [|k s Hk _ IH]; simpl; [lia|]. nia.
Qed.

Lemma lncc_out_size_pos size ws :
  Forall (fun k => (1 <= k)%nat) (lncc_out_size size ws).
Proof.
  unfold lncc_out_size, zip_with. apply Forall_forall. intros k Hk.
  apply in_map_iff in Hk as (q & <- & _). lia.
Qed.

Lemma mean_in_unit_interval {A} (f : A -> R) (l : list A) :
  l <> [] -> (forall a, In a l -> 0 <= f a < 1) ->
  0 <= Rsum (map f l) < INR (length l).
Proof.
  intros Hne H. split.
  - apply Rsum_map_nonneg. intros a Ha. now apply H.
  - rewrite <- (Rmult_1_r (INR (length l))).
    rewrite <- (Rsum_map_const (fun _ => 1) 1 l) by reflexivity.
    apply Rsum_map_lt; [assumption|]. intros a Ha. now apply H.
Qed.

Lemma lncc_loss_spec_bounds tar src ws n size :
  t_shape tar = n :: 1%nat :: size -> t_shape src = n :: 1%nat :: size ->
  (1 <= n)%nat ->
  -1 < lncc_loss_spec tar src ws <= 0.
Proof.
  intros Ht Hs Hn. unfold lncc_loss_spec. rewrite Ht. cbn [nth skipn].
  set (out := lncc_out_size size ws).
  assert (Hout : (1 <= numel out)%nat) by apply numel_pos, lncc_out_size_pos.
  assert (Hidx : indices out <> []).
  { intros E. apply (f_equal (@length index)) in E. rewrite length_indices in E.
    simpl in E. lia. }
  assert (Hinner : forall b, 0 <= Rsum (map (fun pos => lncc_score tar src ws b pos)
                                         (indices out)) < INR (numel out)).
  { intros b. rewrite <- length_indices. apply mean_in_unit_interval; [assumption|].
    intros pos _. apply lncc_score_bounds. congruence. }
  set (g := fun b => Rsum (map (fun pos => lncc_score tar src ws b pos) (indices out))) in *.
  assert (Hsum : 0 <= Rsum (map g (seq 0 n)) < INR (n * numel out)).
  { split.
    - apply Rsum_map_nonneg. intros b _. apply Hinner.
    - replace (INR (n * numel out)) with (INR (length (seq 0 n)) * INR (numel out))
        by (now rewrite length_seq, mult_INR).
      rewrite <- (Rsum_map_const (fun _ => INR (numel out)) (INR (numel out)) (seq 0 n))
        by reflexivity.
      apply Rsum_map_lt.
      + intros E. apply (f_equal (@length nat)) in E. rewrite length_seq in E.
        simpl in E. lia.
      + intros b _. apply Hinner. }
  assert (Hd : 0 < INR (n * numel out)) by (apply lt_0_INR; nia).
  assert (0 <= Rsum (map g (seq 0 n)) / INR (n * numel out) < 1).
  { split.
    - apply Rmult_le_pos; [tauto|]. left. now apply Rinv_0_lt_compat.
    - apply (Rmult_lt_reg_r (INR (n * numel out))); [assumption|].
      unfold Rdiv. rewrite Rmult_assoc, Rinv_l, Rmult_1_r by lra. lra. }
  lra.
Qed.

(** C4.  For equal-shaped single-channel inputs of spatial rank 2 or 3 (non-empty
    spatial axes, positive window), [forward] returns the negated mean, over
    all voxels of the score map and all samples, of cov^2 / (var_tar * var_src
    + 1e-5), where the five local sums are unit-weight box sums over the
    zero-padded image with stride 1 and padding floor(window / 2) per axis,
    cov = S(ts) - mu_src S(t) - mu_tar S(s) + mu_tar mu_src N and the variances
    analogously. *)
Theorem lncc_forward_is_negated_mean_score self tar src n size ws :
  t_shape tar = n :: 1%nat :: size -> t_shape src = n :: 1%nat :: size ->
  (length size = 2 \/ length size = 3)%nat ->
  param_dim_setup (LNCCLoss.window_size self) (length size) = Some ws ->
  Forall (fun sz => (1 <= sz)%nat) size ->
  Forall (fun w => (1 <= w)%nat) ws ->
  LNCCLoss.forward self tar src = Some (lncc_loss_spec tar src ws).
Proof.
  intros Ht Hs Hd Hp Hsz _. apply (lncc_forward_eq self tar src n size ws); auto. lia.
Qed.

Lemma lncc_forward_is_negated_mean_score_witness :
  LNCCLoss.forward (LNCCLoss.init (Scalar 3)) ramp_image flat_image =
  Some (lncc_loss_spec ramp_image flat_image [3; 3]%nat).
Proof.
  apply (lncc_forward_is_negated_mean_score (LNCCLoss.init (Scalar 3))
           ramp_image flat_image 1 [4; 4]%nat [3; 3]%nat).
  - reflexivity.
  - reflexivity.
  - left. reflexivity.
  - reflexivity.
  - repeat constructor.
  - repeat constructor.
Defined.

(** C9.  In exact real arithmetic, for equal-shaped single-channel inputs of
    spatial rank 2 or 3 with a non-empty batch, [forward] returns a value in
    (-1, 0]: every per-voxel score cov^2 / (var_tar * var_src + 1e-5) is
    non-negative and, by the Cauchy-Schwarz inequality over the zero-padded
    window, strictly below 1. *)
Theorem lncc_loss_in_unit_interval self tar src n size ws :
  t_shape tar = n :: 1%nat :: size -> t_shape src = n :: 1%nat :: size ->
  (length size = 2 \/ length size = 3)%nat ->
  param_dim_setup (LNCCLoss.window_size self) (length size) = Some ws ->
  Forall (fun sz => (1 <= sz)%nat) size ->
  Forall (fun w => (1 <= w)%nat) ws ->
  (1 <= n)%nat ->
  (forall b pos, 0 <= lncc_score tar src ws b pos < 1) /\
  exists v, LNCCLoss.forward self tar src = Some v /\ -1 < v <= 0.
Proof.
  intros Ht Hs Hd Hp Hsz _ Hn. split.
  - intros b pos. apply lncc_score_bounds. congruence.
  - exists (lncc_loss_spec tar src ws). split.
    + apply (lncc_forward_eq self tar src n size ws); auto. lia.
    + now apply (lncc_loss_spec_bounds tar src ws n size).
Qed.

Lemma lncc_loss_in_unit_interval_witness :
  exists v, LNCCLoss.forward (LNCCLoss.init (Scalar 3)) ramp_image flat_image = Some v /\
            -1 < v <= 0.
Proof.
  apply (lncc_loss_in_unit_interval (LNCCLoss.init (Scalar 3))
           ramp_image flat_image 1 [4; 4]%nat [3; 3]%nat).
  - reflexivity.
  - reflexivity.
  - left. reflexivity.
  - reflexivity.
  - repeat constructor.
  - repeat constructor.
  - lia.
Defined.

(** * Further properties of the code *)

(** ** Huber regulariser and its loss function *)

Lemma big_sum_nonneg_zero (n : nat) (f : nat -> R) :
  (forall i, (i < n)%nat -> 0 <= f i) -> big_sum n f = 0 ->
  forall i, (i < n)%nat -> f i = 0.
Proof.
  induction n as [|n IH]; intros Hf H i Hi; [lia|].
  rewrite big_sum_S in H.
  assert (0 <= big_sum n f) by (apply big_sum_nonneg; intros; apply Hf; lia).
  assert (0 <= f n) by (apply Hf; lia).
  destruct (Nat.eq_dec i n) as [->|Hne]; [lra|].
  apply IH; [intros; apply Hf; lia|lra|lia].
Qed.

Lemma sqrt_eps_plus (s : R) : 0 <= s -> (sqrt (Losses.eps + s) = 0.1 <-> s = 0).
Proof.
  intros Hs. rewrite <- sqrt_eps. split.
  - intros H. apply sqrt_inj in H; unfold Losses.eps in *; lra.
  - intros ->. now rewrite Rplus_0_r.
Qed.

Lemma huber_temporal_floor_aux flow N C H W :
  t_shape flow = [N; C; H; W] ->
  0.1 <= Losses.huber_loss_temporal flow /\
  (Losses.huber_loss_temporal flow = 0.1 <->
   forall n h w, (n < N - 1)%nat -> (h < H)%nat -> (w < W)%nat ->
     magnitude_dt flow C n h w = 0).
Proof.
  intros Hs. rewrite (huber_temporal_eq flow N C H W Hs).
  set (S := big_sum (N - 1) _).
  assert (HS : 0 <= S).
  { apply big_sum_nonneg. intros n _. apply big_sum_nonneg. intros h _.
    apply big_sum_nonneg. intros w _. apply pow2_ge_0. }
  split.
  - rewrite <- sqrt_eps. apply sqrt_le_1_alt. lra.
  - rewrite (sqrt_eps_plus S HS). unfold S. split.
    + intros H0 n h w Hn Hh Hw.
      pose proof (big_sum_nonneg_zero _ _
        (fun n _ => big_sum_nonneg _ _ (fun h _ => big_sum_nonneg _ _ (fun w _ => pow2_ge_0 _)))
        H0 n Hn) as H1. cbv beta in H1.
      pose proof (big_sum_nonneg_zero _ _
        (fun h _ => big_sum_nonneg _ _ (fun w _ => pow2_ge_0 _)) H1 h Hh) as H2.
      cbv beta in H2.
      pose proof (big_sum_nonneg_zero _ _ (fun w _ => pow2_ge_0 _) H2 w Hw) as H3.
      cbv beta in H3. unfold magnitude_dt. nra.
    + intros H0. apply big_sum_zero. intros n Hn. apply big_sum_zero. intros h Hh.
      apply big_sum_zero. intros w Hw. specialize (H0 n h w Hn Hh Hw).
      unfold magnitude_dt in H0. rewrite H0. lra.
Qed.

Lemma big_sum_minus_const (n : nat) (f : nat -> R) (c : R) :
  big_sum n (fun i => f i - c) = big_sum n f - INR n * c.
Proof.
  induction n as [|n IH].
  - unfold big_sum. simpl. lra.
  - rewrite !big_sum_S, IH, S_INR. lra.
Qed.

Lemma huber_spatial_terms_nonneg flow C n W H :
  0 <= big_sum (W - 1) (fun w => big_sum (H - 1) (fun h =>
         (flow_magnitude flow C n (h + 1) w - flow_magnitude flow C n h w) ^ 2
       + (flow_magnitude flow C n h (w + 1) - flow_magnitude flow C n h w) ^ 2)).
Proof.
  apply big_sum_nonneg. intros w _. apply big_sum_nonneg. intros h _.
  apply Rplus_le_le_0_compat; apply pow2_ge_0.
Qed.

Lemma huber_spatial_floor_aux flow N C H W :
  t_shape flow = [N; C; H; W] -> (1 <= N)%nat ->
  (Losses.huber_loss_spatial flow = 0.1 <->
   forall n h w, (n < N)%nat -> (h < H - 1)%nat -> (w < W - 1)%nat ->
     magnitude_dx flow C n h w = 0 /\ magnitude_dy flow C n h w = 0).
Proof.
  intros Hs HN. rewrite (huber_spatial_eq flow N C H W Hs).
  assert (HN' : 0 < INR N) by (apply lt_0_INR; lia).
  set (S := fun n => big_sum (W - 1) (fun w => big_sum (H - 1) (fun h =>
         (flow_magnitude flow C n (h + 1) w - flow_magnitude flow C n h w) ^ 2
       + (flow_magnitude flow C n h (w + 1) - flow_magnitude flow C n h w) ^ 2))).
  match goal with |- _ <-> ?R =>
    change (big_sum N (fun n => sqrt (Losses.eps + S n)) / INR N = 0.1 <-> R) end.
  assert (HS : forall n, 0 <= S n) by (intros n; apply huber_spatial_terms_nonneg).
  assert (Hge : forall n, 0 <= sqrt (Losses.eps + S n) - 0.1).
  { intros n. rewrite <- sqrt_eps.
    assert (sqrt Losses.eps <= sqrt (Losses.eps + S n))
      by (apply sqrt_le_1_alt; specialize (HS n); lra).
    lra. }
  split.
  - intros Hv n h w Hn Hh Hw.
    assert (Hsum : big_sum N (fun n => sqrt (Losses.eps + S n) - 0.1) = 0).
    { rewrite big_sum_minus_const.
      apply (f_equal (fun v => v * INR N)) in Hv.
      unfold Rdiv in Hv. rewrite Rmult_assoc, Rinv_l, Rmult_1_r in Hv by lra. lra. }
    pose proof (big_sum_nonneg_zero N _ (fun n _ => Hge n) Hsum n Hn) as Hn0.
    cbv beta in Hn0.
    assert (HSn : S n = 0) by (apply (sqrt_eps_plus (S n) (HS n)); lra).
    unfold S in HSn.
    pose proof (big_sum_nonneg_zero _ _
      (fun w _ => big_sum_nonneg _ _ (fun h _ =>
         Rplus_le_le_0_compat _ _ (pow2_ge_0 _) (pow2_ge_0 _))) HSn w Hw) as H1.
    cbv beta in H1.
    pose proof (big_sum_nonneg_zero _ _
      (fun h _ => Rplus_le_le_0_compat _ _ (pow2_ge_0 _) (pow2_ge_0 _)) H1 h Hh) as H2.
    cbv beta in H2. unfold magnitude_dx, magnitude_dy.
    pose proof (pow2_ge_0 (flow_magnitude flow C n (h + 1) w - flow_magnitude flow C n h w)).
    pose proof (pow2_ge_0 (flow_magnitude flow C n h (w + 1) - flow_magnitude flow C n h w)).
    split; nra.
  - intros H0. rewrite (big_sum_const N _ 0.1).
    + field. lra.
    + intros n Hn. apply (sqrt_eps_plus (S n) (HS n)). unfold S.
      apply big_sum_zero. intros w Hw. apply big_sum_zero. intros h Hh.
      destruct (H0 n h w Hn Hh Hw) as [Hx Hy].
      unfold magnitude_dx, magnitude_dy in Hx, Hy. rewrite Hx, Hy. lra.
Qed.

(** X3.  A field with a single row or a single column (H <= 1 or W <= 1) has
    the spatial Huber loss 0.1 whatever its values: the differences along the
    remaining axis are dropped with the last row or column. *)
Theorem huber_spatial_thin_field flow N C H W :
  t_shape flow = [N; C; H; W] -> (1 <= N)%nat ->
  (H <= 1 \/ W <= 1)%nat ->
  Losses.huber_loss_spatial flow = 0.1.
Proof.
  intros Hs HN Hthin. apply (huber_spatial_floor_aux flow N C H W Hs HN).
  intros n h w _ Hh Hw. lia.
Qed.

(** X4.  On a batch of at most one frame the temporal Huber loss is 0.1
    whatever the field: there is no pair of consecutive frames. *)
Theorem huber_temporal_single_frame flow N C H W :
  t_shape flow = [N; C; H; W] -> (N <= 1)%nat ->
  Losses.huber_loss_temporal flow = 0.1.
Proof.
  intros Hs HN. apply (huber_temporal_floor_aux flow N C H W Hs).
  intros n h w Hn. lia.
Qed.

Lemma tmean_tsq_nonneg (t : tensor) : 0 <= tmean (tsq t).
Proof.
  unfold tmean, tsum, to_list. apply Rmult_le_pos.
  - apply Rsum_map_nonneg. intros i _. cbn. apply pow2_ge_0.
  - destruct (numel (t_shape (tsq t))) as [|k].
    + simpl. rewrite Rinv_0. lra.
    + left. apply Rinv_0_lt_compat, lt_0_INR. lia.
Qed.

(** X5.  [huber_loss_fn] returns the sum of the two terms of its dictionary
    ("mse" and "smooth_loss"), and with non-negative weights the loss is at
    least 0.1 (huber_spatial + huber_temporal): the regulariser keeps it away
    from 0 even when the warped source equals the target. *)
Theorem huber_loss_fn_floor rt flow target source p N C H W :
  t_shape flow = [N; C; H; W] -> (1 <= N)%nat ->
  0 <= LossFn.huber_spatial p -> 0 <= LossFn.huber_temporal p ->
  let r := LossFn.huber_loss_fn rt flow target source p in
  fst r = Rsum (map snd (snd r)) /\
  map fst (snd r) = ["mse"%string; "smooth_loss"%string] /\
  0.1 * (LossFn.huber_spatial p + LossFn.huber_temporal p) <= fst r.
Proof.
  intros Hs HN Hws Hwt r. unfold r, LossFn.huber_loss_fn. cbn [fst snd map Rsum fold_right].
  split; [lra|]. split; [reflexivity|].
  pose proof (tmean_tsq_nonneg (tsub target (rt source flow))) as Hm.
  fold (LossFn.mse target (rt source flow)) in Hm.
  pose proof (huber_spatial_lower_bound flow N C H W Hs HN) as H1.
  destruct (huber_temporal_floor_aux flow N C H W Hs) as [H2 _].
  nra.
Qed.

(** X1.  The temporal Huber loss of a (N, C, H, W) field is at least 0.1, and
    it is exactly 0.1 if and only if the flow magnitude does not change between
    any two consecutive frames. *)
Theorem huber_temporal_floor flow N C H W :
  t_shape flow = [N; C; H; W] ->
  0.1 <= Losses.huber_loss_temporal flow /\
  (Losses.huber_loss_temporal flow = 0.1 <->
   forall n h w, (n < N - 1)%nat -> (h < H)%nat -> (w < W)%nat ->
     magnitude_dt flow C n h w = 0).
Proof. exact (huber_temporal_floor_aux flow N C H W). Qed.

Lemma huber_temporal_floor_witness : 0.1 <= Losses.huber_loss_temporal ramp_flow.
Proof.
  destruct (huber_temporal_floor ramp_flow 1 1 2 3 eq_refl) as [H _]. exact H.
Defined.

(** X2.  With a non-empty batch the spatial Huber loss is exactly 0.1 if and
    only if, in every sample, the differences of the flow magnitude along H and
    along W vanish at every voxel (h, w) with h < H - 1 and w < W - 1.  Only the
    magnitude counts (not the direction of the flow), and the differences in
    the last row and the last column are not looked at. *)
Theorem huber_spatial_floor_iff flow N C H W :
  t_shape flow = [N; C; H; W] -> (1 <= N)%nat ->
  (Losses.huber_loss_spatial flow = 0.1 <->
   forall n h w, (n < N)%nat -> (h < H - 1)%nat -> (w < W - 1)%nat ->
     magnitude_dx flow C n h w = 0 /\ magnitude_dy flow C n h w = 0).
Proof. exact (huber_spatial_floor_aux flow N C H W). Qed.

Lemma huber_spatial_floor_iff_witness :
  Losses.huber_loss_spatial zero_flow = 0.1 <->
  forall n h w, (n < 1)%nat -> (h < 2 - 1)%nat -> (w < 2 - 1)%nat ->
    magnitude_dx zero_flow 2 n h w = 0 /\ magnitude_dy zero_flow 2 n h w = 0.
Proof. exact (huber_spatial_floor_iff zero_flow 1 2 2 2 eq_refl (le_n 1)). Defined.

Lemma huber_spatial_thin_field_witness : Losses.huber_loss_spatial row_flow = 0.1.
Proof.
  apply (huber_spatial_thin_field row_flow 1 1 1 3 eq_refl (le_n 1)).
  left. apply le_n.
Defined.

Lemma huber_temporal_single_frame_witness : Losses.huber_loss_temporal ramp_flow = 0.1.
Proof. exact (huber_temporal_single_frame ramp_flow 1 1 2 3 eq_refl (le_n 1)). Defined.

Lemma huber_loss_fn_floor_witness :
  0.1 * (1 + 1) <=
  fst (LossFn.huber_loss_fn (fun source _ => source) ramp_flow ramp_flow ramp_flow
         (LossFn.mk_params 1 1)).
Proof.
  destruct (huber_loss_fn_floor (fun source _ => source) ramp_flow ramp_flow ramp_flow
              (LossFn.mk_params 1 1) 1 1 2 3 eq_refl (le_n 1)) as (_ & _ & H).
  - simpl. lra.
  - simpl. lra.
  - exact H.
Defined.

(** ** Local normalised cross-correlation: symmetry, flat images, errors *)

Lemma box_sum_tmul_comm a b ws n pos :
  t_shape a = t_shape b ->
  box_sum (tmul a b) ws n pos = box_sum (tmul b a) ws n pos.
Proof.
  intros H. unfold box_sum. apply Rsum_map_ext_in. intros off _.
  rewrite (padded_at_tmul a b), (padded_at_tmul b a) by congruence. lra.
Qed.

Lemma lncc_score_sym tar src ws b pos :
  t_shape tar = t_shape src ->
  lncc_score tar src ws b pos = lncc_score src tar ws b pos.
Proof.
  intros H. unfold lncc_score. cbv zeta.
  rewrite (box_sum_tmul_comm tar src) by assumption.
  generalize (box_sum (tmul src tar) ws b pos) (box_sum tar ws b pos)
    (box_sum src ws b pos) (box_sum (tmul tar tar) ws b pos)
    (box_sum (tmul src src) ws b pos) (INR (numel ws)).
  intros Sts St Ss Stt Sss n.
  f_equal; ring.
Qed.

Lemma lncc_loss_spec_sym tar src ws :
  t_shape tar = t_shape src ->
  lncc_loss_spec tar src ws = lncc_loss_spec src tar ws.
Proof.
  intros H. unfold lncc_loss_spec. rewrite <- H. do 2 f_equal.
  apply Rsum_map_ext_in. intros b _. apply Rsum_map_ext_in. intros pos _.
  now apply lncc_score_sym.
Qed.

Lemma lncc_forward_sym_aux self tar src n size ws :
  t_shape tar = n :: 1%nat :: size -> t_shape src = n :: 1%nat :: size ->
  (1 <= length size <= 3)%nat ->
  param_dim_setup (LNCCLoss.window_size self) (length size) = Some ws ->
  Forall (fun sz => (1 <= sz)%nat) size ->
  LNCCLoss.forward self tar src = LNCCLoss.forward self src tar.
Proof.
  intros Ht Hs Hd Hp Hsz.
  rewrite (lncc_forward_eq self tar src n size ws), (lncc_forward_eq self src tar n size ws)
    by assumption.
  f_equal. apply lncc_loss_spec_sym. congruence.
Qed.







Lemma lncc_rejects_channels_aux self tar src n c size :
  t_shape tar = n :: c :: size -> c <> 1%nat ->
  LNCCLoss.forward self tar src = None.
Proof.
  intros Ht Hc. unfold LNCCLoss.forward. rewrite Ht. cbn [length Nat.sub].
  rewrite Nat.sub_0_r.
  destruct (param_dim_setup _ _) as [ws|]; [|reflexivity]. cbn [LNCCLoss.bind].
  destruct (conv_of_dim (length size)) as [conv|] eqn:E; [|reflexivity].
  cbn [LNCCLoss.bind].
  assert (Hconv : conv = convNd (length size)).
  { unfold conv_of_dim in E. destruct (length size) as [|[|[|[|k]]]];
      now inversion E. }
  subst conv. unfold convNd at 1. rewrite Ht. cbn [t_shape type_as ones].
  apply Nat.eqb_neq in Hc. rewrite Hc, !andb_false_r. reflexivity.
Qed.

Lemma lncc_rejects_rank_aux self tar src :
  (length (t_shape tar) - 2 = 0 \/ 4 <= length (t_shape tar) - 2)%nat ->
  LNCCLoss.forward self tar src = None.
Proof.
  intros Hr. unfold LNCCLoss.forward.
  destruct (param_dim_setup _ _) as [ws|]; [|reflexivity]. cbn [LNCCLoss.bind].
  assert (E : conv_of_dim (length (t_shape tar) - 2) = None).
  { unfold conv_of_dim. destruct (length (t_shape tar) - 2)%nat as [|[|[|[|k]]]];
      try reflexivity; lia. }
  rewrite E. reflexivity.
Qed.

Lemma lncc_out_size_parity size ws :
  length ws = length size ->
  Forall (fun sz => (1 <= sz)%nat) size ->
  lncc_out_size size ws =
  zip_with (fun sz w => if Nat.even w then (sz + 1)%nat else sz) size ws.
Proof.
  revert ws. induction size as [|sz size IH]; intros [|w ws] H Hsz; try discriminate;
    [reflexivity|].
  inversion Hsz; subst. unfold lncc_out_size, zip_with in *.
  cbn [combine map fst snd]. f_equal; [|apply IH; simpl in H; auto].
  pose proof (Nat.div_mod_eq w 2) as Hdm.
  pose proof (Nat.mod_upper_bound w 2) as Hub.
  destruct (Nat.even w) eqn:E.
  - apply Nat.even_spec in E. destruct E as [k ->].
    replace (2 * k / 2)%nat with k by (symmetry; rewrite Nat.mul_comm; apply Nat.div_mul; lia).
    lia.
  - assert (Ho : Nat.odd w = true) by (rewrite <- Nat.negb_even, E; reflexivity).
    apply Nat.odd_spec in Ho. destruct Ho as [k ->].
    replace ((2 * k + 1) / 2)%nat with k.
    + lia.
    + symmetry. rewrite Nat.add_comm, Nat.mul_comm. rewrite Nat.div_add by lia.
      reflexivity.
Qed.

(** X6.  The LNCC loss is symmetric: for equal-shaped single-channel inputs of
    spatial rank 1 to 3 with non-empty spatial axes, [forward] on (tar, src)
    and on (src, tar) return the same value. *)
Theorem lncc_forward_symmetric self tar src n size ws :
  t_shape tar = n :: 1%nat :: size -> t_shape src = n :: 1%nat :: size ->
  (1 <= length size <= 3)%nat ->
  param_dim_setup (LNCCLoss.window_size self) (length size) = Some ws ->
  Forall (fun sz => (1 <= sz)%nat) size ->
  LNCCLoss.forward self tar src = LNCCLoss.forward self src tar.
Proof. exact (lncc_forward_sym_aux self tar src n size ws). Qed.

Lemma lncc_forward_symmetric_witness :
  LNCCLoss.forward (LNCCLoss.init (Scalar 3)) ramp_image flat_image =
  LNCCLoss.forward (LNCCLoss.init (Scalar 3)) flat_image ramp_image.
Proof.
  apply (lncc_forward_symmetric (LNCCLoss.init (Scalar 3)) ramp_image flat_image
           1 [4; 4]%nat [3; 3]%nat).
  - reflexivity.
  - reflexivity.
  - simpl. lia.
  - reflexivity.
  - repeat constructor.
Defined.




(** X8.  [forward] raises (no value is returned) when the first input does not
    have exactly one channel, since the summation filter has one input
    channel, and when its spatial rank is 0 or above 3, since torch has no
    convolution of that dimension. *)
Theorem lncc_forward_rejects self tar src n c size :
  t_shape tar = n :: c :: size ->
  c <> 1%nat \/ length size = 0%nat \/ (4 <= length size)%nat ->
  LNCCLoss.forward self tar src = None.
Proof.
  intros Ht [Hc|Hr].
  - now apply (lncc_rejects_channels_aux self tar src n c size).
  - apply lncc_rejects_rank_aux. rewrite Ht. cbn [length Nat.sub].
    rewrite Nat.sub_0_r. exact Hr.
Qed.

Lemma lncc_forward_rejects_witness :
  LNCCLoss.forward (LNCCLoss.init (Scalar 3)) zero_flow zero_flow = None.
Proof.
  apply (lncc_forward_rejects (LNCCLoss.init (Scalar 3)) zero_flow zero_flow
           1 2 [2; 2]%nat eq_refl).
  left. discriminate.
Defined.

(** X9.  The local sums that [forward] takes (all-ones filter of a window of at
    least one voxel per axis, stride 1, padding floor(w / 2)) have the spatial
    size of the input along an axis whose window is odd, and one voxel more
    along an axis whose window is even: the padding is a "same" padding for
    odd windows only. *)
Theorem lncc_window_sum_size d t dt ws n size :
  t_shape t = n :: 1%nat :: size -> length size = d -> length ws = d ->
  Forall (fun sz => (1 <= sz)%nat) size ->
  Forall (fun w => (1 <= w)%nat) ws ->
  exists T,
    convNd d t (mkTensor dt (1 :: 1 :: ws)%nat (fun _ => 1)) (repeat 1%nat d)
           (map (fun w => (w / 2)%nat) ws) = Some T /\
    t_shape T = n :: 1%nat ::
      zip_with (fun sz w => if Nat.even w then (sz + 1)%nat else sz) size ws.
Proof.
  intros Hs Hd Hw Hsz _.
  destruct (conv_ones d t dt ws n size Hs Hd Hw Hsz) as (T & E & Hshape & _).
  exists T. split; [exact E|].
  rewrite Hshape, lncc_out_size_parity by (auto; congruence). reflexivity.
Qed.

Lemma lncc_window_sum_size_witness :
  exists T,
    convNd 2 ramp_image (mkTensor Float32 [1; 1; 4; 3]%nat (fun _ => 1)) [1; 1]%nat
           [2; 1]%nat = Some T /\
    t_shape T = [1; 1; 5; 4]%nat.
Proof.
  apply (lncc_window_sum_size 2 ramp_image Float32 [4; 3]%nat 1 [4; 4]%nat).
  - reflexivity.
  - reflexivity.
  - reflexivity.
  - repeat constructor.
  - repeat constructor; lia.
Defined.

(** ** Mutual information: voxel order and empty samples *)

Lemma Rsum_Permutation (l l' : list R) : Permutation l l' -> Rsum l = Rsum l'.
Proof.
  induction 1; simpl; lra.
Qed.

Lemma big_sum_permute (K : nat) (pi : nat -> nat) (g : nat -> R) :
  (forall k, (k < K)%nat -> (pi k < K)%nat) ->
  (forall a b, pi a = pi b -> a = b) ->
  big_sum K (fun k => g (pi k)) = big_sum K g.
Proof.
  intros Hb Hi. unfold big_sum. rewrite <- (map_map pi g).
  apply Rsum_Permutation, Permutation_map.
  now apply nat_bijection_Permutation.
Qed.

Lemma hist_at_permute self x y pi n i j :
  (forall k, (k < nth 2 (t_shape x) 0)%nat -> (pi k < nth 2 (t_shape x) 0)%nat) ->
  (forall a b, pi a = pi b -> a = b) ->
  hist_at self (permute_voxels pi x) (permute_voxels pi y) n i j = hist_at self x y n i j.
Proof.
  intros Hb Hi. unfold hist_at. cbn [permute_voxels t_shape t_at].
  apply (big_sum_permute _ pi
    (fun k => kernel (MILossGaussian.sigma self) (t_at x [n; 0%nat; k])
                     (t_at (MILossGaussian.bins self) [i; 0%nat]) *
              kernel (MILossGaussian.sigma self) (t_at y [n; 0%nat; k])
                     (t_at (MILossGaussian.bins self) [j; 0%nat]))); assumption.
Qed.

Lemma joint_prob_permute_aux self x y pi :
  (forall k, (k < nth 2 (t_shape x) 0)%nat -> (pi k < nth 2 (t_shape x) 0)%nat) ->
  (forall a b, pi a = pi b -> a = b) ->
  let P := fst (MILossGaussian._compute_joint_prob self x y) in
  let P' := fst (MILossGaussian._compute_joint_prob self
                   (permute_voxels pi x) (permute_voxels pi y)) in
  t_shape P' = t_shape P /\
  forall n i j, t_at P' [n; i; j] = t_at P [n; i; j].
Proof.
  intros Hb Hi P P'. split; [reflexivity|].
  intros n i j. unfold P, P'. rewrite !joint_prob_at.
  assert (Hm : hist_mass self (permute_voxels pi x) (permute_voxels pi y) n
               = hist_mass self x y n).
  { unfold hist_mass. apply big_sum_ext. intros a _. apply big_sum_ext. intros b _.
    now apply hist_at_permute. }
  now rewrite Hm, hist_at_permute.
Qed.

Lemma indices_rank1 (K : nat) : indices [K] = map (fun k => [k]) (seq 0 K).
Proof.
  simpl. induction (seq 0 K) as [|a l IH]; simpl; [reflexivity|]. now rewrite IH.
Qed.

Lemma flatten_rank3_at x N C K n c k :
  t_shape x = [N; C; K] -> (k < K)%nat ->
  t_at (flatten_from 2 x) [n; c; k] = t_at x [n; c; k].
Proof.
  intros Hs Hk. unfold flatten_from. cbn [t_at firstn nth]. rewrite Hs.
  cbn [skipn]. rewrite indices_rank1.
  rewrite (nth_indep _ [] [0%nat]) by (rewrite length_map, length_seq; exact Hk).
  rewrite (map_nth (fun k => [k])), seq_nth by exact Hk. reflexivity.
Qed.

Lemma flatten_rank3_shape x N C K :
  t_shape x = [N; C; K] -> t_shape (flatten_from 2 x) = [N; C; K].
Proof.
  intros Hs. unfold flatten_from. cbn [t_shape]. rewrite Hs.
  cbn [firstn skipn app numel fold_right]. now rewrite Nat.mul_1_r.
Qed.

Lemma hist_at_ext self x y x' y' n i j :
  nth 2 (t_shape x') 0%nat = nth 2 (t_shape x) 0%nat ->
  (forall k, (k < nth 2 (t_shape x) 0)%nat ->
     t_at x' [n; 0%nat; k] = t_at x [n; 0%nat; k] /\
     t_at y' [n; 0%nat; k] = t_at y [n; 0%nat; k]) ->
  hist_at self x' y' n i j = hist_at self x y n i j.
Proof.
  intros Hs H. unfold hist_at. rewrite Hs. apply big_sum_ext. intros k Hk.
  destruct (H k Hk) as [-> ->]. reflexivity.
Qed.

Lemma mi_score_ext b B (P P' : nat -> nat -> R) :
  (forall i j, P' i j = P i j) -> mi_score b B P' = mi_score b B P.
Proof.
  intros H. assert (E : P' = P).
  { apply functional_extensionality. intros i.
    apply functional_extensionality. intros j. apply H. }
  now rewrite E.
Qed.

Lemma mi_loss_spec_ext b N B P P' :
  (forall n i j, t_at P' [n; i; j] = t_at P [n; i; j]) ->
  mi_loss_spec b N B P' = mi_loss_spec b N B P.
Proof.
  intros H. unfold mi_loss_spec. do 2 f_equal. apply big_sum_ext. intros n _.
  apply mi_score_ext. intros i j. apply H.
Qed.

Lemma joint_prob_ext self x y x' y' :
  (forall n i j, hist_at self x' y' n i j = hist_at self x y n i j) ->
  forall n i j,
    t_at (fst (MILossGaussian._compute_joint_prob self x' y')) [n; i; j] =
    t_at (fst (MILossGaussian._compute_joint_prob self x y)) [n; i; j].
Proof.
  intros H n i j. rewrite !joint_prob_at.
  assert (Hm : hist_mass self x' y' n = hist_mass self x y n).
  { unfold hist_mass. apply big_sum_ext. intros a _. apply big_sum_ext. intros b _.
    apply H. }
  now rewrite Hm, H.
Qed.

Lemma forward_permute_aux avg self x y N K pi :
  MILossGaussian.roi self = false ->
  t_shape x = [N; 1; K]%nat -> t_shape y = [N; 1; K]%nat ->
  (forall k, (k < K)%nat -> (pi k < K)%nat) ->
  (forall a b, pi a = pi b -> a = b) ->
  fst (MILossGaussian.forward avg self (permute_voxels pi x) (permute_voxels pi y)) =
  fst (MILossGaussian.forward avg self x y).
Proof.
  intros Hroi Hx Hy Hb Hi. rewrite !forward_unfold. cbv zeta.
  unfold joint_inputs. rewrite Hroi. cbn [fst snd].
  assert (Hfx : t_shape (flatten_from 2 x) = [N; 1; K]%nat)
    by now apply flatten_rank3_shape.
  assert (Hfx' : t_shape (flatten_from 2 (permute_voxels pi x)) = [N; 1; K]%nat)
    by now apply flatten_rank3_shape.
  rewrite Hfx, Hfx'. cbn [nth].
  apply mi_loss_spec_ext. apply joint_prob_ext. intros n i j.
  transitivity (hist_at self (permute_voxels pi x) (permute_voxels pi y) n i j).
  - apply hist_at_ext.
    + rewrite Hfx'. cbn [permute_voxels t_shape]. now rewrite Hx.
    + cbn [permute_voxels t_shape]. rewrite Hx. cbn [nth]. intros k Hk. split.
      * now apply (flatten_rank3_at _ N 1%nat K).
      * now apply (flatten_rank3_at _ N 1%nat K).
  - rewrite hist_at_permute by (try rewrite Hx; assumption).
    symmetry. apply hist_at_ext.
    + now rewrite Hfx, Hx.
    + rewrite Hx. cbn [nth]. intros k Hk. split.
      * now apply (flatten_rank3_at _ N 1%nat K).
      * now apply (flatten_rank3_at _ N 1%nat K).
Qed.

Lemma mi_no_voxels_aux avg self x y :
  let xy := joint_inputs avg self x y in
  let P := fst (MILossGaussian._compute_joint_prob self (fst xy) (snd xy)) in
  let B := nth 0 (t_shape (MILossGaussian.bins self)) 0%nat in
  nth 2 (t_shape (fst xy)) 0%nat = 0%nat ->
  (forall n i j, t_at P [n; i; j] = 0) /\
  (forall n, big_sum B (fun i => big_sum B (fun j =>
               t_at P [n; i; j] * ln (t_at P [n; i; j] + 1e-10))) = 0) /\
  (MILossGaussian.normalised self = false ->
   fst (MILossGaussian.forward avg self x y) = 0).
Proof.
  intros xy P B HK.
  assert (HP : forall n i j, t_at P [n; i; j] = 0).
  { intros n i j. unfold P. rewrite joint_prob_at.
    assert (Hh : hist_at self (fst xy) (snd xy) n i j = 0).
    { unfold hist_at. rewrite HK. reflexivity. }
    rewrite Hh. unfold Rdiv. apply Rmult_0_l. }
  split; [exact HP|]. split.
  - intros n. apply big_sum_zero. intros i _. apply big_sum_zero. intros j _.
    rewrite HP. apply Rmult_0_l.
  - intros Hn. rewrite forward_unfold. cbv zeta. fold xy. fold P.
    unfold mi_loss_spec. rewrite Hn.
    rewrite big_sum_zero; [unfold Rdiv; rewrite Rmult_0_l; apply Ropp_0|].
    intros n _. unfold mi_score, guarded_entropy.
    rewrite !big_sum_zero; [lra| | |].
    + intros i _. apply big_sum_zero. intros j _. rewrite HP. apply Rmult_0_l.
    + intros j _. rewrite (big_sum_zero _ (fun i => t_at P [n; i; j])) by (intros; apply HP).
      apply Rmult_0_l.
    + intros i _. rewrite (big_sum_zero _ (fun j => t_at P [n; i; j])) by (intros; apply HP).
      apply Rmult_0_l.
Qed.

(** X10.  Mutual information ignores where the voxels are: when the voxels of
    every sample of both (N, 1, K) inputs are rearranged by one and the same
    permutation, the joint probability table is unchanged, and so is the loss
    (taken without ROI masking). *)
Theorem mi_invariant_under_voxel_permutation avg self x y N K pi :
  t_shape x = [N; 1; K]%nat -> t_shape y = [N; 1; K]%nat ->
  (forall k, (k < K)%nat -> (pi k < K)%nat) ->
  (forall a b, pi a = pi b -> a = b) ->
  (forall n i j,
     t_at (fst (MILossGaussian._compute_joint_prob self
                  (permute_voxels pi x) (permute_voxels pi y))) [n; i; j] =
     t_at (fst (MILossGaussian._compute_joint_prob self x y)) [n; i; j]) /\
  (MILossGaussian.roi self = false ->
   fst (MILossGaussian.forward avg self (permute_voxels pi x) (permute_voxels pi y)) =
   fst (MILossGaussian.forward avg self x y)).
Proof.
  intros Hx Hy Hb Hi. split.
  - apply (joint_prob_permute_aux self x y pi); [rewrite Hx; exact Hb|exact Hi].
  - intros Hroi. now apply (forward_permute_aux avg self x y N K pi).
Qed.

Lemma swap01_bounded : forall k, (k < 2)%nat -> (swap01 k < 2)%nat.
Proof.
  intros k Hk. unfold swap01.
  destruct (Nat.eqb_spec k 0); [lia|]. destruct (Nat.eqb_spec k 1); lia.
Defined.

Lemma swap01_injective : forall a b, swap01 a = swap01 b -> a = b.
Proof.
  intros a b. unfold swap01.
  destruct (Nat.eqb_spec a 0), (Nat.eqb_spec b 0),
           (Nat.eqb_spec a 1), (Nat.eqb_spec b 1); lia.
Defined.

Lemma mi_invariant_under_voxel_permutation_witness :
  fst (MILossGaussian.forward (fun t _ => t) default_module
         (permute_voxels swap01 two_voxels) (permute_voxels swap01 two_voxels)) =
  fst (MILossGaussian.forward (fun t _ => t) default_module two_voxels two_voxels).
Proof.
  destruct (mi_invariant_under_voxel_permutation (fun t _ => t) default_module
              two_voxels two_voxels 1 2 swap01 eq_refl eq_refl
              swap01_bounded swap01_injective) as [_ H].
  apply H. reflexivity.
Defined.

(** X11.  When no voxel reaches [_compute_joint_prob] (K = 0, e.g. an ROI that
    selects nothing) the joint table is all zeros and the joint entropy is
    exactly 0: the unnormalised loss is 0, and the normalised loss is a
    quotient by this zero joint entropy, which the 1e-10 guards do not keep
    away from 0 / 0. *)
Theorem mi_without_voxels avg self x y :
  let xy := joint_inputs avg self x y in
  let P := fst (MILossGaussian._compute_joint_prob self (fst xy) (snd xy)) in
  let B := nth 0 (t_shape (MILossGaussian.bins self)) 0%nat in
  nth 2 (t_shape (fst xy)) 0%nat = 0%nat ->
  (forall n i j, t_at P [n; i; j] = 0) /\
  (forall n, big_sum B (fun i => big_sum B (fun j =>
               t_at P [n; i; j] * ln (t_at P [n; i; j] + 1e-10))) = 0) /\
  (MILossGaussian.normalised self = false ->
   fst (MILossGaussian.forward avg self x y) = 0).
Proof. exact (mi_no_voxels_aux avg self x y). Qed.

Lemma mi_without_voxels_witness :
  let xy := joint_inputs (fun t _ => t) default_roi_module (one_voxel 0) (one_voxel 0) in
  let P := fst (MILossGaussian._compute_joint_prob default_roi_module (fst xy) (snd xy)) in
  big_sum 64 (fun i => big_sum 64 (fun j =>
    t_at P [0; i; j]%nat * ln (t_at P [0; i; j]%nat + 1e-10))) = 0.
Proof.
  intros xy P.
  destruct (mi_without_voxels (fun t _ => t) default_roi_module (one_voxel 0) (one_voxel 0))
    as (_ & H & _).
  - cbn -[Rgtb]. unfold Rgtb.
    destruct (Rlt_dec _ _) as [Hlt|_]; [exfalso; lra|]. reflexivity.
  - exact (H 0%nat).
Defined.

(** ** MILossBSpline: window names and bins *)

Section BSplineWindow.
Import MILossBSpline.
Variable normalise_intensity : tensor -> string -> R -> R -> tensor.
Variable cubic_bspline_torch : tensor -> tensor.
Variable rect_window_torch : tensor -> tensor.

Let fwd := forward normalise_intensity cubic_bspline_torch rect_window_torch.

Lemma bspline_unknown_window_aux self target source :
  window self <> "cubic_bspline"%string -> window self <> "rectangle"%string ->
  let r := fwd self target source in
  fst r = None /\ window (snd r) = window self /\
  histogram_joint (snd r) = histogram_joint self /\ p_joint (snd r) = p_joint self /\
  p_target (snd r) = p_target self /\ p_source (snd r) = p_source self.
Proof.
  intros H1 H2. apply String.eqb_neq in H1, H2.
  unfold fwd, forward. cbv zeta.
  cbn [set_bins_target set_bins_source bins_target bins_source eps_target
       eps_source window debug normalised].
  unfold _parzen_window_1d. rewrite H1, H2. cbn. tauto.
Qed.

Lemma bspline_returns_known_window_aux self target source v :
  fst (fwd self target source) = Some v ->
  (window self = "cubic_bspline" \/ window self = "rectangle")%string.
Proof.
  intros Hv.
  destruct (String.eqb_spec (window self) "cubic_bspline") as [E1|N1]; [now left|].
  destruct (String.eqb_spec (window self) "rectangle") as [E2|N2]; [now right|].
  pose proof (bspline_unknown_window_aux self target source N1 N2) as Hn.
  cbv zeta in Hn. destruct Hn as [Hnone _].
  rewrite Hnone in Hv. discriminate Hv.
Qed.

End BSplineWindow.

Lemma bspline_init_bins_aux tmin tmax smin smax nt ns ct cs nrm w dbg :
  (1 <= nt)%nat -> (1 <= ns)%nat ->
  exists self,
    MILossBSpline.init tmin tmax smin smax nt ns ct cs nrm w dbg = Some self /\
    t_shape (MILossBSpline.bins_target self) = [nt; 1%nat] /\
    (forall i, t_at (MILossBSpline.bins_target self) [i; 0%nat]
               = tmin + INR i * ((tmax - tmin) / INR nt)) /\
    t_at (MILossBSpline.bins_target self) [(nt - 1)%nat; 0%nat]
      = tmax - (tmax - tmin) / INR nt /\
    MILossBSpline.eps_target self = ct * ((tmax - tmin) / INR nt) /\
    MILossBSpline.histogram_joint self = None.
Proof.
  intros Ht Hs. unfold MILossBSpline.init.
  destruct (Nat.eqb_spec nt 0) as [->|_]; [lia|].
  destruct (Nat.eqb_spec ns 0) as [->|_]; [lia|]. cbn [orb].
  eexists. split; [reflexivity|].
  cbn [MILossBSpline.bins_target MILossBSpline.eps_target MILossBSpline.histogram_joint].
  split; [reflexivity|]. split.
  - intros i. cbn. lra.
  - split; [|split; reflexivity]. cbn [unsqueeze tadds tmuls tmap arange t_at
      remove_at firstn skipn app hd].
    rewrite minus_INR by lia. simpl (INR 1).
    assert (INR nt <> 0) by (apply not_0_INR; lia). field. assumption.
Qed.

Lemma bspline_init_zero_bins tmin tmax smin smax nt ns ct cs nrm w dbg :
  (nt = 0 \/ ns = 0)%nat ->
  MILossBSpline.init tmin tmax smin smax nt ns ct cs nrm w dbg = None.
Proof.
  intros [-> | ->]; unfold MILossBSpline.init; cbn.
  - reflexivity.
  - now rewrite orb_true_r.
Qed.

(** X12.  [MILossBSpline] does not check the window name when it is built: for
    non-zero numbers of bins a module is constructed whatever the name.  With
    a name other than "cubic_bspline" and "rectangle" every forward call then
    raises, whatever the images, without storing any debug field, and the
    module keeps the name, so that the next call raises as well: a forward
    call returns a value only for the two names. *)
Theorem bspline_unknown_window_raises_in_forward nrm cub rect
    tmin tmax smin smax nt ns ct cs norm w dbg :
  (1 <= nt)%nat -> (1 <= ns)%nat ->
  exists self,
    MILossBSpline.init tmin tmax smin smax nt ns ct cs norm w dbg = Some self /\
    MILossBSpline.window self = w /\
    (forall target source v,
       fst (MILossBSpline.forward nrm cub rect self target source) = Some v ->
       w = "cubic_bspline"%string \/ w = "rectangle"%string) /\
    (w <> "cubic_bspline"%string -> w <> "rectangle"%string ->
     forall target source,
       let r := MILossBSpline.forward nrm cub rect self target source in
       fst r = None /\
       MILossBSpline.window (snd r) = w /\
       MILossBSpline.histogram_joint (snd r) = None /\
       MILossBSpline.p_joint (snd r) = None /\
       MILossBSpline.p_target (snd r) = None /\
       MILossBSpline.p_source (snd r) = None /\
       forall target' source',
         fst (MILossBSpline.forward nrm cub rect (snd r) target' source') = None).
Proof.
  intros Hnt Hns.
  destruct (bspline_init_bins_aux tmin tmax smin smax nt ns ct cs norm w dbg Hnt Hns)
    as (self & Hinit & _).
  exists self. split; [exact Hinit|].
  assert (Hw : MILossBSpline.window self = w /\
               MILossBSpline.histogram_joint self = None /\
               MILossBSpline.p_joint self = None /\
               MILossBSpline.p_target self = None /\
               MILossBSpline.p_source self = None).
  { unfold MILossBSpline.init in Hinit.
    destruct ((nt =? 0)%nat || (ns =? 0)%nat)%bool; [discriminate|].
    injection Hinit as <-. cbn. tauto. }
  destruct Hw as (Hw & Hh & Hpj & Hpt & Hps).
  split; [exact Hw|]. split.
  - intros target source v Hv. rewrite <- Hw.
    exact (bspline_returns_known_window_aux nrm cub rect self target source v Hv).
  - intros N1 N2 target source r.
    rewrite <- Hw in N1, N2.
    pose proof (bspline_unknown_window_aux nrm cub rect self target source N1 N2)
      as Hr.
    cbv zeta in Hr. fold r in Hr. destruct Hr as (R1 & R2 & R3 & R4 & R5 & R6).
    split; [exact R1|]. split; [congruence|]. split; [congruence|].
    split; [congruence|]. split; [congruence|]. split; [congruence|].
    intros target' source'.
    rewrite <- R2 in N1, N2.
    pose proof (bspline_unknown_window_aux nrm cub rect (snd r) target' source' N1 N2)
      as Hr'.
    cbv zeta in Hr'. destruct Hr' as (R & _). exact R.
Qed.

Lemma bspline_unknown_window_raises_in_forward_witness :
  exists self,
    MILossBSpline.init 0 1 0 1 32 32 1 1 true "gaussian" false = Some self /\
    fst (MILossBSpline.forward (fun t _ _ _ => t) (fun t => t) (fun t => t)
           self (one_voxel 0.2) (one_voxel 0.7)) = None.
Proof.
  assert (H32 : (1 <= 32)%nat) by lia.
  destruct (bspline_unknown_window_raises_in_forward
              (fun t _ _ _ => t) (fun t => t) (fun t => t)
              0 1 0 1 32 32 1 1 true "gaussian" false H32 H32)
    as (self & Hinit & _ & _ & Hraise).
  exists self. split; [exact Hinit|].
  assert (N1 : "gaussian"%string <> "cubic_bspline"%string) by discriminate.
  assert (N2 : "gaussian"%string <> "rectangle"%string) by discriminate.
  destruct (Hraise N1 N2 (one_voxel 0.2) (one_voxel 0.7)) as (H & _).
  exact H.
Defined.

(** X13.  [MILossBSpline.__init__] builds no module for a zero number of bins;
    otherwise the target bins are the left edges target_min + i * bin_width:
    the first is target_min and the last is target_max - bin_width, so that no
    bin sits at target_max, and the kernel width is c_target * bin_width. *)
Theorem bspline_init_bins tmin tmax smin smax nt ns ct cs nrm w dbg :
  ((nt = 0 \/ ns = 0)%nat ->
   MILossBSpline.init tmin tmax smin smax nt ns ct cs nrm w dbg = None) /\
  ((1 <= nt)%nat -> (1 <= ns)%nat ->
   exists self,
     MILossBSpline.init tmin tmax smin smax nt ns ct cs nrm w dbg = Some self /\
     t_shape (MILossBSpline.bins_target self) = [nt; 1%nat] /\
     (forall i, t_at (MILossBSpline.bins_target self) [i; 0%nat]
                = tmin + INR i * ((tmax - tmin) / INR nt)) /\
     t_at (MILossBSpline.bins_target self) [(nt - 1)%nat; 0%nat]
       = tmax - (tmax - tmin) / INR nt /\
     MILossBSpline.eps_target self = ct * ((tmax - tmin) / INR nt) /\
     MILossBSpline.histogram_joint self = None).
Proof.
  split.
  - apply bspline_init_zero_bins.
  - apply bspline_init_bins_aux.
Qed.

Lemma bspline_init_bins_witness :
  MILossBSpline.init 0 1 0 1 0 32 1 1 true "cubic_bspline" false = None /\
  exists self,
    MILossBSpline.init 0 1 0 1 32 32 1 1 true "cubic_bspline" false = Some self /\
    t_at (MILossBSpline.bins_target self) [31; 0]%nat = 1 - (1 - 0) / INR 32.
Proof.
  split.
  - destruct (bspline_init_bins 0 1 0 1 0 32 1 1 true "cubic_bspline" false) as [H _].
    apply H. left. reflexivity.
  - destruct (bspline_init_bins 0 1 0 1 32 32 1 1 true "cubic_bspline" false) as [_ H].
    destruct H as (self & Hi & _ & _ & Hlast & _); [lia|lia|].
    exists self. split; [exact Hi|exact Hlast].
Defined.

(** ** Best-model bookkeeping and model selection *)

Lemma dict_get_all_none {A} (d : dict A) (ks : list string) :
  dict_get_all d ks = None <-> exists k, In k ks /\ dict_get d k = None.
Proof.
  induction ks as [|k ks IH]; simpl.
  - split; [discriminate|]. intros (k & [] & _).
  - destruct (dict_get d k) as [v|] eqn:E.
    + destruct (dict_get_all d ks) as [vs|].
      * split; [discriminate|]. intros (k' & [<-|Hin] & Hk'); [congruence|].
        exfalso. assert (Hs : Some vs = None) by (apply IH; now exists k').
        discriminate Hs.
      * split; [|reflexivity]. intros _.
        destruct IH as [IH _]. destruct (IH eq_refl) as (k' & Hin & Hk').
        exists k'. split; [now right|assumption].
    + split; [|reflexivity]. intros _. exists k. split; [now left|assumption].
Qed.

Lemma Rltb_true a b : Rltb a b = true <-> a < b.
Proof. unfold Rltb. destruct (Rlt_dec a b); split; auto; discriminate. Qed.

Lemma Rltb_false a b : Rltb a b = false <-> b <= a.
Proof.
  unfold Rltb. destruct (Rlt_dec a b); split; intros; try discriminate; try lra;
    reflexivity.
Qed.

Section BestModelProps.
Variables hyper network transform : Type.
Variable best_metrics : hyper -> list string.
Variable val_epochs : hyper -> Z.

Let update := BestModel.update_best_model hyper network transform best_metrics val_epochs.
Let hp (self : Models.DLRegModel hyper network transform) :=
  Models.p_hyper _ (Models.m_params _ _ _ self).

Lemma update_best_model_aux self metric_results values :
  dict_get_all metric_results (best_metrics (hp self)) = Some values ->
  exists self',
    update self metric_results = Some self' /\
    Models.m_params _ _ _ self' = Models.m_params _ _ _ self /\
    Models.epoch_num _ _ _ self' = Models.epoch_num _ _ _ self /\
    Models.iter_num _ _ _ self' = Models.iter_num _ _ _ self /\
    Models.m_network _ _ _ self' = Models.m_network _ _ _ self /\
    Models.m_transform _ _ _ self' = Models.m_transform _ _ _ self /\
    (Models.is_best _ _ _ self = true -> Models.is_best _ _ _ self' = true) /\
    ((Models.epoch_num _ _ _ self + 1)%Z = val_epochs (hp self) ->
       Models.best_metric_result _ _ _ self' = mean_of values /\
       Models.is_best _ _ _ self' = Models.is_best _ _ _ self) /\
    ((Models.epoch_num _ _ _ self + 1)%Z <> val_epochs (hp self) ->
       Models.best_metric_result _ _ _ self'
         = Rmin (Models.best_metric_result _ _ _ self) (mean_of values) /\
       (Models.is_best _ _ _ self' = true <->
        Models.is_best _ _ _ self = true \/
        mean_of values < Models.best_metric_result _ _ _ self)).
Proof.
  intros Hv. unfold update, BestModel.update_best_model. fold (hp self). rewrite Hv.
  destruct (Z.eqb_spec (Models.epoch_num _ _ _ self + 1) (val_epochs (hp self))) as [He|He].
  - eexists. split; [reflexivity|]. cbn.
    do 5 (split; [reflexivity|]). split; [tauto|]. split; [tauto|].
    intros Hne. contradiction.
  - destruct (Rltb (mean_of values) (Models.best_metric_result _ _ _ self)) eqn:E.
    + apply Rltb_true in E. eexists. split; [reflexivity|]. cbn.
      do 5 (split; [reflexivity|]). split; [tauto|].
      split; [intros Heq; contradiction|]. intros _. split.
      * rewrite Rmin_right by lra. reflexivity.
      * tauto.
    + apply Rltb_false in E. exists self. split; [reflexivity|].
      do 5 (split; [reflexivity|]). split; [tauto|].
      split; [intros Heq; contradiction|]. intros _. split.
      * rewrite Rmin_left by lra. reflexivity.
      * split; [tauto|]. intros [H|H]; [assumption|lra].
Qed.

Lemma update_best_model_key_error self metric_results :
  update self metric_results = None <->
  exists k, In k (best_metrics (hp self)) /\ dict_get metric_results k = None.
Proof.
  rewrite <- dict_get_all_none. unfold update, BestModel.update_best_model.
  fold (hp self). destruct (dict_get_all _ _) as [vs|].
  - split; [|discriminate].
    destruct (Z.eqb _ _); [discriminate|]. destruct (Rltb _ _); discriminate.
  - tauto.
Qed.

End BestModelProps.

Section InferenceProps.
Import Inference.
Open Scope string_scope.
Variable cfg_rest model : Type.
Variable LightningDLReg Identity MirtkFFD AntsSyN : cfg_rest -> Models.result model.

Let get := get_inference_model cfg_rest model LightningDLReg Identity MirtkFFD AntsSyN.

Lemma get_inference_model_aux (c : cfg cfg_rest) :
  (model_name _ c = "dl" -> get c = LightningDLReg (rest _ c)) /\
  (model_name _ c <> "dl" -> model_name _ c <> "baseline" ->
   get c = inl (Models.ValueError ("Unknown model_name: " ++ model_name _ c))) /\
  (model_name _ c = "baseline" ->
   baseline_name _ c <> "Id" -> baseline_name _ c <> "MIRTK" ->
   baseline_name _ c <> "ANTs" ->
   get c = inl (Models.ValueError ("Unknown baseline: " ++ baseline_name _ c))).
Proof.
  unfold get, get_inference_model. repeat split.
  - intros ->. reflexivity.
  - intros H1 H2. apply String.eqb_neq in H1, H2. now rewrite H1, H2.
  - intros -> H1 H2 H3. apply String.eqb_neq in H1, H2, H3. cbn.
    now rewrite H1, H2, H3.
Qed.

End InferenceProps.

(** X14.  With at least one metric named in [params.best_metrics], all of them
    present in the results, [update_best_model] keeps the network, the
    transformation, the parameters and the counters, and never clears
    [is_best].  On the first
    validation (epoch_num + 1 = val_epochs) it overwrites the best result with
    the mean of the selected metrics and leaves [is_best] as it was; on any
    other validation the best result becomes the minimum of the old result and
    the mean, and [is_best] is set exactly when the mean is strictly smaller. *)
Theorem update_best_model_tracks_minimum hyper network transform best_metrics val_epochs
    (self : Models.DLRegModel hyper network transform) metric_results values :
  dict_get_all metric_results
    (best_metrics (Models.p_hyper _ (Models.m_params _ _ _ self))) = Some values ->
  values <> [] ->
  exists self',
    BestModel.update_best_model hyper network transform best_metrics val_epochs
      self metric_results = Some self' /\
    Models.m_params _ _ _ self' = Models.m_params _ _ _ self /\
    Models.epoch_num _ _ _ self' = Models.epoch_num _ _ _ self /\
    Models.iter_num _ _ _ self' = Models.iter_num _ _ _ self /\
    Models.m_network _ _ _ self' = Models.m_network _ _ _ self /\
    Models.m_transform _ _ _ self' = Models.m_transform _ _ _ self /\
    (Models.is_best _ _ _ self = true -> Models.is_best _ _ _ self' = true) /\
    ((Models.epoch_num _ _ _ self + 1)%Z
       = val_epochs (Models.p_hyper _ (Models.m_params _ _ _ self)) ->
       Models.best_metric_result _ _ _ self' = mean_of values /\
       Models.is_best _ _ _ self' = Models.is_best _ _ _ self) /\
    ((Models.epoch_num _ _ _ self + 1)%Z
       <> val_epochs (Models.p_hyper _ (Models.m_params _ _ _ self)) ->
       Models.best_metric_result _ _ _ self'
         = Rmin (Models.best_metric_result _ _ _ self) (mean_of values) /\
       (Models.is_best _ _ _ self' = true <->
        Models.is_best _ _ _ self = true \/
        mean_of values < Models.best_metric_result _ _ _ self)).
Proof.
  intros Hv _.
  exact (update_best_model_aux hyper network transform best_metrics val_epochs
           self metric_results values Hv).
Qed.

Lemma update_best_model_tracks_minimum_witness :
  exists self',
    BestModel.update_best_model unit unit unit (fun _ => ["dice"; "mse"]%string)
      (fun _ => 2%Z) sample_model [("mse"%string, 0.2); ("dice"%string, 0.4)]
    = Some self' /\
    Models.best_metric_result _ _ _ self' = Rmin 0.7 (mean_of [0.4; 0.2]).
Proof.
  assert (Hne : [0.4; 0.2] <> []) by discriminate.
  destruct (update_best_model_tracks_minimum unit unit unit
              (fun _ => ["dice"; "mse"]%string) (fun _ => 2%Z) sample_model
              [("mse"%string, 0.2); ("dice"%string, 0.4)] [0.4; 0.2] eq_refl Hne)
    as (self' & Hu & _ & _ & _ & _ & _ & _ & _ & Hmin).
  exists self'. split; [exact Hu|].
  destruct Hmin as [H _]; [discriminate|exact H].
Defined.

(** X15.  [update_best_model] raises KeyError (no model is returned) exactly
    when one of the metrics named in [params.best_metrics] is missing from the
    metric results. *)
Theorem update_best_model_missing_metric hyper network transform best_metrics val_epochs
    (self : Models.DLRegModel hyper network transform) metric_results :
  BestModel.update_best_model hyper network transform best_metrics val_epochs
    self metric_results = None <->
  exists k, In k (best_metrics (Models.p_hyper _ (Models.m_params _ _ _ self))) /\
            dict_get metric_results k = None.
Proof.
  exact (update_best_model_key_error hyper network transform best_metrics val_epochs
           self metric_results).
Qed.

(** X16.  [get_inference_model] builds the deep-learning model for
    model_name = "dl" whatever the baseline name is; it raises the ValueError
    "Unknown model_name: <name>" for a model name other than "dl" and
    "baseline", and the ValueError "Unknown baseline: <name>" for a baseline
    other than "Id", "MIRTK" and "ANTs": there is no default model. *)
Theorem get_inference_model_dispatch cfg_rest model
    (LightningDLReg Identity MirtkFFD AntsSyN : cfg_rest -> Models.result model)
    (c : Inference.cfg cfg_rest) :
  let get := Inference.get_inference_model cfg_rest model
               LightningDLReg Identity MirtkFFD AntsSyN in
  (Inference.model_name _ c = "dl"%string ->
   get c = LightningDLReg (Inference.rest _ c)) /\
  (Inference.model_name _ c <> "dl"%string ->
   Inference.model_name _ c <> "baseline"%string ->
   get c = inl (Models.ValueError
                  ("Unknown model_name: " ++ Inference.model_name _ c)%string)) /\
  (Inference.model_name _ c = "baseline"%string ->
   Inference.baseline_name _ c <> "Id"%string ->
   Inference.baseline_name _ c <> "MIRTK"%string ->
   Inference.baseline_name _ c <> "ANTs"%string ->
   get c = inl (Models.ValueError
                  ("Unknown baseline: " ++ Inference.baseline_name _ c)%string)).
Proof.
  exact (get_inference_model_aux cfg_rest model LightningDLReg Identity MirtkFFD AntsSyN c).
Qed.

Lemma get_inference_model_dispatch_witness :
  Inference.get_inference_model unit unit (fun _ => inr tt) (fun _ => inr tt)
    (fun _ => inr tt) (fun _ => inr tt)
    (Inference.mk_cfg unit "baseline" "Elastix" tt)
  = inl (Models.ValueError "Unknown baseline: Elastix").
Proof.
  destruct (get_inference_model_dispatch unit unit (fun _ => inr tt) (fun _ => inr tt)
              (fun _ => inr tt) (fun _ => inr tt)
              (Inference.mk_cfg unit "baseline" "Elastix" tt)) as (_ & _ & H).
  apply H; [reflexivity|discriminate|discriminate|discriminate].
Defined.

(** ** Logging and reduction of the validation results *)

Section LightningProps.
Import Lightning.
Open Scope string_scope.

Lemma dict_get_set {A} (d : dict A) (k k' : string) (v : A) :
  dict_get (dict_set d k v) k' = if String.eqb k k' then Some v else dict_get d k'.
Proof.
  induction d as [|[k0 v0] d IH]; simpl.
  - reflexivity.
  - destruct (String.eqb_spec k0 k) as [->|Hne]; simpl.
    + destruct (String.eqb_spec k k'); reflexivity.
    + rewrite IH. destruct (String.eqb_spec k0 k') as [->|Hne'].
      * destruct (String.eqb_spec k k'); [congruence|reflexivity].
      * reflexivity.
Qed.

Lemma dict_get_in_keys {A} (d : dict A) (k : string) (v : A) :
  dict_get d k = Some v -> In k (dict_keys d).
Proof.
  induction d as [|[k0 v0] d IH]; simpl; [discriminate|].
  destruct (String.eqb_spec k0 k) as [->|Hne]; [now left|]. intros H. right. now apply IH.
Qed.

Lemma in_keys_dict_get {A} (d : dict A) (k : string) :
  In k (dict_keys d) -> exists v, dict_get d k = Some v.
Proof.
  induction d as [|[k0 v0] d IH]; simpl; [contradiction|].
  destruct (String.eqb_spec k0 k) as [->|Hne].
  - intros _. now exists v0.
  - intros [H|H]; [contradiction|]. now apply IH.
Qed.

Lemma string_length_append (a b : string) :
  String.length (a ++ b) = (String.length a + String.length b)%nat.
Proof. induction a as [|c a IH]; simpl; [reflexivity|]. now rewrite IH. Qed.

Lemma append_suffix_inj (a b s : string) : a ++ s = b ++ s -> a = b.
Proof.
  intros H.
  assert (Hl : String.length a = String.length b).
  { apply (f_equal String.length) in H. rewrite !string_length_append in H. lia. }
  revert b H Hl. induction a as [|c a IH]; intros [|c' b] H Hl; simpl in *;
    try discriminate; [reflexivity|].
  injection H as -> H. f_equal. apply IH; [assumption|lia].
Qed.

Lemma mean_suffix_not_std (a b : string) : a ++ "_mean" <> b ++ "_std".
Proof.
  intros H.
  assert (Hl : String.length b = S (String.length a)).
  { apply (f_equal String.length) in H. rewrite !string_length_append in H.
    simpl in H. lia. }
  revert b H Hl. induction a as [|c a IH]; intros [|c' b] H Hl; simpl in *;
    try discriminate.
  - destruct b; simpl in *; [|lia]. discriminate.
  - injection H as -> H. apply (IH b); [assumption|lia].
Qed.

Lemma check_best_key_error metric_result self :
  dict_get metric_result (best_metric (hparams_meta self)) = None ->
  _check_log_best_metric metric_result self
  = (inl (KeyError (best_metric (hparams_meta self))), self).
Proof.
  intros H. unfold _check_log_best_metric, bind, get. rewrite H. reflexivity.
Qed.

Lemma check_best_aux metric_result self current :
  dict_get metric_result (best_metric (hparams_meta self)) = Some current ->
  let r := _check_log_best_metric metric_result self in
  let entry := mk_scalar ("best/" ++ best_metric (hparams_meta self)) current
                         (global_step self) in
  fst r = inr tt /\
  hparams_meta (snd r) = hparams_meta self /\
  global_step (snd r) = global_step self /\
  (best_metric_mode (hparams_meta self) = "max" ->
     best_metric_result (snd r) = Rmax (best_metric_result self) current /\
     logged (snd r) = if Rltb (best_metric_result self) current
                      then (logged self ++ [entry])%list else logged self) /\
  (best_metric_mode (hparams_meta self) = "min" ->
     best_metric_result (snd r) = Rmin (best_metric_result self) current /\
     logged (snd r) = if Rltb current (best_metric_result self)
                      then (logged self ++ [entry])%list else logged self) /\
  (best_metric_mode (hparams_meta self) <> "max" ->
   best_metric_mode (hparams_meta self) <> "min" ->
     snd r = self).
Proof.
  intros H r entry. unfold r, _check_log_best_metric, bind, get. rewrite H.
  cbn [ret]. cbv beta iota.
  destruct (String.eqb_spec (best_metric_mode (hparams_meta self)) "max") as [Hmax|Hmax].
  - destruct (Rltb (best_metric_result self) current) eqn:E.
    + apply Rltb_true in E. cbn.
      do 3 (split; [reflexivity|]). split; [|split].
      * intros _. rewrite Rmax_right by lra. split; reflexivity.
      * rewrite Hmax. discriminate.
      * intros Hn. contradiction.
    + apply Rltb_false in E. cbn.
      do 3 (split; [reflexivity|]). split; [|split].
      * intros _. rewrite Rmax_left by lra. split; reflexivity.
      * rewrite Hmax. discriminate.
      * intros Hn. contradiction.
  - destruct (String.eqb_spec (best_metric_mode (hparams_meta self)) "min") as [Hmin|Hmin].
    + destruct (Rltb current (best_metric_result self)) eqn:E.
      * apply Rltb_true in E. cbn.
        do 3 (split; [reflexivity|]). split; [|split].
        -- intros Hn. contradiction.
        -- intros _. rewrite Rmin_right by lra. split; reflexivity.
        -- intros _ Hn. contradiction.
      * apply Rltb_false in E. cbn.
        do 3 (split; [reflexivity|]). split; [|split].
        -- intros Hn. contradiction.
        -- intros _. rewrite Rmin_left by lra. split; reflexivity.
        -- intros _ Hn. contradiction.
    + cbn. do 3 (split; [reflexivity|]). split; [|split].
      * intros Hn. contradiction.
      * intros Hn. contradiction.
      * reflexivity.
Qed.

Lemma bind_inr {A B} (m : M A) (k : A -> M B) self a self' :
  m self = (inr a, self') -> bind m k self = k a self'.
Proof. intros H. unfold bind. now rewrite H. Qed.

Lemma bind_inl {A B} (m : M A) (k : A -> M B) self e self' :
  m self = (inl e, self') -> bind m k self = (inl e, self').
Proof. intros H. unfold bind. now rewrite H. Qed.

Lemma get_each_ok (l : list (dict R)) (k : string) self :
  (forall x, In x l -> dict_get x k <> None) ->
  get_each l k self = (inr (column l k), self).
Proof.
  induction l as [|x l IH]; intros H; [reflexivity|].
  cbn [get_each column map].
  destruct (dict_get x k) as [v|] eqn:E.
  - unfold get at 1. rewrite E. unfold bind at 1. cbn [ret].
    rewrite (bind_inr _ _ self (column l k) self).
    + reflexivity.
    + apply IH. intros y Hy. apply H. now right.
  - exfalso. apply (H x); [now left|assumption].
Qed.

Lemma with_logged_nil self : with_logged self [] = self.
Proof. destruct self. unfold with_logged. cbn. now rewrite app_nil_r. Qed.

Lemma with_logged_app self a b :
  with_logged (with_logged self a) b = with_logged self (a ++ b).
Proof. unfold with_logged. cbn. now rewrite app_assoc. Qed.

Lemma losses_loop_ok (l : list (dict R)) (keys : list string) acc self :
  (forall k x, In k keys -> In x l -> dict_get x k <> None) ->
  for_fold keys acc (fun losses_reduced k =>
      values <- get_each l k ;;
      let loss_reduced := mean_of values in
      let losses_reduced := dict_set losses_reduced k loss_reduced in
      add_scalar ("val_loss/" ++ k) loss_reduced ;;;
      ret losses_reduced) self
  = (inr (reduce_losses l keys acc),
     with_logged self (loss_scalars l keys (global_step self))).
Proof.
  revert acc self. induction keys as [|k keys IH]; intros acc self H.
  - cbn. now rewrite with_logged_nil.
  - cbn [for_fold].
    erewrite bind_inr.
    2:{ erewrite bind_inr by (apply get_each_ok; intros x Hx; apply H; [now left|exact Hx]).
        cbv zeta. unfold bind, add_scalar, ret. reflexivity. }
    rewrite IH by (intros k' x Hk' Hx; apply H; [now right|exact Hx]).
    cbn [reduce_losses fold_left loss_scalars map global_step]. f_equal.
    unfold with_logged. cbn. now rewrite <- app_assoc.
Qed.

Lemma metrics_loop_ok (l : list (dict R)) (keys : list string) acc self :
  (forall k x, In k keys -> In x l -> dict_get x k <> None) ->
  for_fold keys acc (fun reduced k =>
      stacked <- get_each l k ;;
      ret (dict_set (dict_set reduced (k ++ "_mean") (mean_of stacked))
                    (k ++ "_std") (std_of stacked))) self
  = (inr (reduce_metrics l keys acc), self).
Proof.
  revert acc. induction keys as [|k keys IH]; intros acc H; [reflexivity|].
  cbn [for_fold].
  erewrite bind_inr.
  2:{ erewrite bind_inr by (apply get_each_ok; intros x Hx; apply H; [now left|exact Hx]).
      unfold ret. reflexivity. }
  rewrite IH by (intros k' x Hk' Hx; apply H; [now right|exact Hx]). reflexivity.
Qed.

Lemma reduce_losses_get l keys acc k :
  In k keys \/ dict_get acc k = Some (mean_of (column l k)) ->
  dict_get (reduce_losses l keys acc) k = Some (mean_of (column l k)).
Proof.
  revert acc. induction keys as [|k0 keys IH]; intros acc H.
  - destruct H as [[]|H]. exact H.
  - cbn [reduce_losses fold_left]. apply IH.
    rewrite dict_get_set. destruct (String.eqb_spec k0 k) as [->|Hne].
    + now right.
    + destruct H as [[Hk|Hk]|H]; [contradiction|now left|now right].
Qed.

Lemma reduce_metrics_get l keys acc k :
  In k keys \/
  (dict_get acc (k ++ "_mean") = Some (mean_of (column l k)) /\
   dict_get acc (k ++ "_std") = Some (std_of (column l k))) ->
  dict_get (reduce_metrics l keys acc) (k ++ "_mean") = Some (mean_of (column l k)) /\
  dict_get (reduce_metrics l keys acc) (k ++ "_std") = Some (std_of (column l k)).
Proof.
  revert acc. induction keys as [|k0 keys IH]; intros acc H.
  - destruct H as [[]|H]. exact H.
  - cbn [reduce_metrics fold_left]. apply IH.
    rewrite !dict_get_set.
    destruct (String.eqb_spec (k0 ++ "_std") (k ++ "_mean")) as [E|_];
      [symmetry in E; now apply mean_suffix_not_std in E|].
    destruct (String.eqb_spec (k0 ++ "_mean") (k ++ "_std")) as [E|_];
      [now apply mean_suffix_not_std in E|].
    destruct (String.eqb_spec (k0 ++ "_mean") (k ++ "_mean")) as [E|Hne].
    + apply append_suffix_inj in E. subst k0.
      rewrite String.eqb_refl. now right.
    + destruct (String.eqb_spec (k0 ++ "_std") (k ++ "_std")) as [E|Hne2].
      * apply append_suffix_inj in E. congruence.
      * destruct H as [[Hk|Hk]|H]; [congruence|now left|now right].
Qed.

Lemma log_all_ok (d : dict R) self :
  for_each d (fun kx => add_scalar ("metrics/" ++ fst kx) (snd kx)) self
  = (inr tt, with_logged self
               (map (fun kx => mk_scalar ("metrics/" ++ fst kx) (snd kx) (global_step self)) d)).
Proof.
  revert self. induction d as [|kx d IH]; intros self.
  - cbn. now rewrite with_logged_nil.
  - cbn [for_each]. unfold bind at 1, add_scalar at 1. rewrite IH.
    cbn [global_step map]. f_equal. unfold with_logged. cbn. now rewrite <- app_assoc.
Qed.

Lemma log_selected_ok (d : dict R) (metrics : list string) self :
  (forall m, In m metrics ->
     dict_get d (m ++ "_mean") <> None /\ dict_get d (m ++ "_std") <> None) ->
  for_each metrics (fun metric =>
      m <- get d (metric ++ "_mean") ;;
      add_scalar ("metrics/" ++ metric ++ "_mean") m ;;;
      s <- get d (metric ++ "_std") ;;
      add_scalar ("metrics/" ++ metric ++ "_std") s) self
  = (inr tt, with_logged self (metric_scalars (Some metrics) d (global_step self))).
Proof.
  revert self. induction metrics as [|m metrics IH]; intros self H.
  - cbn. now rewrite with_logged_nil.
  - cbn [for_each]. destruct (H m (or_introl eq_refl)) as [Hm Hs].
    destruct (dict_get d (m ++ "_mean")) as [vm|] eqn:Em; [|congruence].
    destruct (dict_get d (m ++ "_std")) as [vs|] eqn:Es; [|congruence].
    erewrite bind_inr.
    2:{ unfold bind, get, add_scalar, ret. rewrite Em. cbn [ret]. rewrite Es. reflexivity. }
    rewrite IH by (intros m' Hm'; apply H; now right).
    cbn [metric_scalars flat_map global_step]. rewrite Em, Es. f_equal.
    unfold with_logged. cbn. rewrite <- !app_assoc. reflexivity.
Qed.

Lemma log_metrics_ok (d : dict R) self :
  (forall metrics, metrics_to_log (hparams_meta self) = Some metrics ->
     forall m, In m metrics ->
       dict_get d (m ++ "_mean") <> None /\ dict_get d (m ++ "_std") <> None) ->
  _log_metrics d self
  = (inr tt, with_logged self
               (metric_scalars (metrics_to_log (hparams_meta self)) d (global_step self))).
Proof.
  intros H. unfold _log_metrics.
  destruct (metrics_to_log (hparams_meta self)) as [metrics|].
  - apply log_selected_ok. now apply H.
  - apply log_all_ok.
Qed.

Lemma validation_epoch_end_ok_aux l0 m0 rest self :
  let outputs := (l0, m0) :: rest in
  let losses := map fst outputs in
  let metrics := map snd outputs in
  (forall k x, In k (dict_keys l0) -> In x losses -> dict_get x k <> None) ->
  (forall k x, In k (dict_keys m0) -> In x metrics -> dict_get x k <> None) ->
  In "loss" (dict_keys l0) -> In "mean_dice" (dict_keys m0) ->
  (forall selected, metrics_to_log (hparams_meta self) = Some selected ->
     forall m, In m selected -> In m (dict_keys m0)) ->
  (exists k, In k (dict_keys m0) /\
             (best_metric (hparams_meta self) = k ++ "_mean" \/
              best_metric (hparams_meta self) = k ++ "_std")) ->
  let r := validation_epoch_end outputs self in
  fst r = inr [("val_loss", mean_of (column losses "loss"));
               ("mean_dice_mean", mean_of (column metrics "mean_dice"))] /\
  hparams_meta (snd r) = hparams_meta self /\
  global_step (snd r) = global_step self.
Proof.
  intros outputs losses metrics Hl Hm Hloss Hdice Hsel Hbest r.
  unfold r, validation_epoch_end. cbn [map fst snd outputs hd].
  fold outputs. change (l0 :: map fst rest) with losses.
  change (m0 :: map snd rest) with metrics.
  erewrite bind_inr by (apply losses_loop_ok; exact Hl).
  set (s1 := with_logged self _).
  erewrite bind_inr by (apply metrics_loop_ok; exact Hm).
  set (D := reduce_metrics metrics (dict_keys m0) []).
  assert (HD : forall k, In k (dict_keys m0) ->
            dict_get D (k ++ "_mean") = Some (mean_of (column metrics k)) /\
            dict_get D (k ++ "_std") = Some (std_of (column metrics k))).
  { intros k Hk. apply reduce_metrics_get. now left. }
  erewrite bind_inr.
  2:{ apply log_metrics_ok. intros selected Hs m Hin.
      destruct (HD m) as [H1 H2].
      - apply (Hsel selected); [exact Hs|exact Hin].
      - rewrite H1, H2. split; discriminate. }
  set (s2 := with_logged s1 _).
  assert (Hcur : exists current, dict_get D (best_metric (hparams_meta s2)) = Some current).
  { destruct Hbest as (k & Hk & [E|E]); destruct (HD k Hk) as [H1 H2];
      cbn [s2 s1 with_logged hparams_meta]; rewrite E; eauto. }
  destruct Hcur as (current & Hcur).
  destruct (check_best_aux D s2 current Hcur) as (Hok & Hmeta & Hstep & _).
  destruct (_check_log_best_metric D s2) as [res s3] eqn:E3.
  cbn [fst snd] in Hok, Hmeta, Hstep. subst res.
  erewrite bind_inr by exact E3.
  unfold bind, get.
  rewrite (reduce_losses_get losses (dict_keys l0) [] "loss") by now left.
  cbn [ret].
  destruct (HD "mean_dice" Hdice) as [Hd _]. cbn [append] in Hd. rewrite Hd.
  cbn [ret fst snd]. split; [reflexivity|]. split; [rewrite Hmeta|rewrite Hstep]; reflexivity.
Qed.

Lemma validation_epoch_end_empty self :
  validation_epoch_end [] self = (inl IndexError, self).
Proof. reflexivity. Qed.

Lemma bind_inr_inv {A B} (m : M A) (k : A -> M B) self b :
  fst (bind m k self) = inr b ->
  exists a self', m self = (inr a, self') /\ fst (k a self') = inr b.
Proof.
  unfold bind. destruct (m self) as [[e|a] self'] eqn:E; cbn; [discriminate|].
  intros H. now exists a, self'.
Qed.

Lemma losses_loop_keys (l : list (dict R)) (keys : list string) acc self D :
  fst (for_fold keys acc (fun losses_reduced k =>
      values <- get_each l k ;;
      let loss_reduced := mean_of values in
      let losses_reduced := dict_set losses_reduced k loss_reduced in
      add_scalar ("val_loss/" ++ k) loss_reduced ;;;
      ret losses_reduced) self) = inr D ->
  forall k, dict_get D k <> None -> dict_get acc k <> None \/ In k keys.
Proof.
  revert acc self. induction keys as [|k0 keys IH]; intros acc self H k Hk.
  - cbn in H. injection H as <-. now left.
  - cbn [for_fold] in H. apply bind_inr_inv in H as (acc' & s1 & Hbody & H).
    destruct (IH _ _ H k Hk) as [Hacc|Hin]; [|right; now right].
    assert (Ha : acc' = dict_set acc k0 (mean_of (column l k0)) \/
                 exists vs, acc' = dict_set acc k0 (mean_of vs)).
    { unfold bind in Hbody. destruct (get_each l k0 self) as [[e|vs] s0]; [discriminate|].
      cbv zeta in Hbody. unfold add_scalar, ret in Hbody. injection Hbody as <- _.
      right. now exists vs. }
    destruct Ha as [->|(vs & ->)]; rewrite dict_get_set in Hacc;
      (destruct (String.eqb_spec k0 k) as [->|_]; [right; now left|now left]).
Qed.

Lemma metrics_loop_keys (l : list (dict R)) (keys : list string) acc self D :
  fst (for_fold keys acc (fun reduced k =>
      stacked <- get_each l k ;;
      ret (dict_set (dict_set reduced (k ++ "_mean") (mean_of stacked))
                    (k ++ "_std") (std_of stacked))) self) = inr D ->
  forall key, dict_get D key <> None ->
    dict_get acc key <> None \/
    exists k, In k keys /\ (key = k ++ "_mean" \/ key = k ++ "_std").
Proof.
  revert acc self. induction keys as [|k0 keys IH]; intros acc self H key Hk.
  - cbn in H. injection H as <-. now left.
  - cbn [for_fold] in H. apply bind_inr_inv in H as (acc' & s1 & Hbody & H).
    destruct (IH _ _ H key Hk) as [Hacc|(k & Hin & Hkey)].
    2:{ right. exists k. split; [now right|exact Hkey]. }
    unfold bind in Hbody. destruct (get_each l k0 self) as [[e|vs] s0]; [discriminate|].
    unfold ret in Hbody. injection Hbody as <- _.
    rewrite !dict_get_set in Hacc.
    destruct (String.eqb_spec (k0 ++ "_std") key) as [<-|_].
    + right. exists k0. split; [now left|now right].
    + destruct (String.eqb_spec (k0 ++ "_mean") key) as [<-|_].
      * right. exists k0. split; [now left|now left].
      * now left.
Qed.

Lemma keeps_meta_ret {A} (a : A) : keeps_meta (ret a).
Proof. intros self. split; reflexivity. Qed.

Lemma keeps_meta_get d k : keeps_meta (get d k).
Proof. intros self. unfold get. destruct (dict_get d k); split; reflexivity. Qed.

Lemma keeps_meta_add_scalar tg v : keeps_meta (add_scalar tg v).
Proof. intros self. split; reflexivity. Qed.

Lemma keeps_meta_set_best v : keeps_meta (set_best_metric_result v).
Proof. intros self. split; reflexivity. Qed.

Lemma keeps_meta_bind {A B} (m : M A) (k : A -> M B) :
  keeps_meta m -> (forall a, keeps_meta (k a)) -> keeps_meta (bind m k).
Proof.
  intros Hm Hk self. unfold bind. specialize (Hm self).
  destruct (m self) as [[e|a] s1]; cbn [snd] in *; [exact Hm|].
  destruct (Hk a s1) as [H1 H2]. destruct Hm as [H3 H4]. split; congruence.
Qed.

Lemma keeps_meta_for_each {A} (l : list A) (body : A -> M unit) :
  (forall a, keeps_meta (body a)) -> keeps_meta (for_each l body).
Proof.
  intros H. induction l as [|a l IH]; cbn [for_each].
  - apply keeps_meta_ret.
  - apply keeps_meta_bind; [apply H|intros _; exact IH].
Qed.

Lemma keeps_meta_for_fold {A S} (l : list A) (acc : S) (body : S -> A -> M S) :
  (forall s a, keeps_meta (body s a)) -> keeps_meta (for_fold l acc body).
Proof.
  intros H. revert acc. induction l as [|a l IH]; intros acc; cbn [for_fold].
  - apply keeps_meta_ret.
  - apply keeps_meta_bind; [apply H|intros acc'; apply IH].
Qed.

Lemma keeps_meta_get_each l k : keeps_meta (get_each l k).
Proof.
  induction l as [|x l IH]; cbn [get_each].
  - apply keeps_meta_ret.
  - apply keeps_meta_bind; [apply keeps_meta_get|]. intros v.
    apply keeps_meta_bind; [exact IH|]. intros vs. apply keeps_meta_ret.
Qed.

Lemma keeps_meta_log_metrics d : keeps_meta (_log_metrics d).
Proof.
  intros self. unfold _log_metrics.
  destruct (metrics_to_log (hparams_meta self)) as [metrics|].
  - apply keeps_meta_for_each. intros m.
    apply keeps_meta_bind; [apply keeps_meta_get|]. intros v.
    apply keeps_meta_bind; [apply keeps_meta_add_scalar|]. intros _.
    apply keeps_meta_bind; [apply keeps_meta_get|]. intros v'.
    apply keeps_meta_add_scalar.
  - apply keeps_meta_for_each. intros kx. apply keeps_meta_add_scalar.
Qed.

Lemma validation_epoch_end_needs_aux outputs self v :
  fst (validation_epoch_end outputs self) = inr v ->
  exists l0 m0 rest,
    outputs = (l0, m0) :: rest /\
    In "loss" (dict_keys l0) /\ In "mean_dice" (dict_keys m0) /\
    (exists k, In k (dict_keys m0) /\
               (best_metric (hparams_meta self) = k ++ "_mean" \/
                best_metric (hparams_meta self) = k ++ "_std")) /\
    exists val_loss mean_dice_mean,
      v = [("val_loss", val_loss); ("mean_dice_mean", mean_dice_mean)].
Proof.
  destruct outputs as [|[l0 m0] rest]; [discriminate|].
  intros H. exists l0, m0, rest. split; [reflexivity|].
  unfold validation_epoch_end in H.
  change (map fst ((l0, m0) :: rest)) with (l0 :: map fst rest) in H.
  change (hd [] (map snd ((l0, m0) :: rest))) with m0 in H.
  change (map snd ((l0, m0) :: rest)) with (m0 :: map snd rest) in H.
  cbv iota in H.
  apply bind_inr_inv in H as (L & s1 & HL & H).
  apply bind_inr_inv in H as (D & s2 & HD & H).
  apply bind_inr_inv in H as ([] & s3 & Hlog & H).
  apply bind_inr_inv in H as ([] & s4 & Hchk & H).
  apply bind_inr_inv in H as (vl & s5 & Hvl & H).
  apply bind_inr_inv in H as (vd & s6 & Hvd & H).
  cbn in H. injection H as <-.
  assert (HLk : forall k, dict_get L k <> None -> In k (dict_keys l0)).
  { intros k Hk.
    destruct (losses_loop_keys (l0 :: map fst rest) (dict_keys l0) [] self L
                (f_equal fst HL) k Hk) as [Hn|Hin]; [|exact Hin].
    cbn in Hn. congruence. }
  assert (HDk : forall key, dict_get D key <> None ->
            exists k, In k (dict_keys m0) /\ (key = k ++ "_mean" \/ key = k ++ "_std")).
  { intros key Hk.
    destruct (metrics_loop_keys (m0 :: map snd rest) (dict_keys m0) [] s1 D
                (f_equal fst HD) key Hk) as [Hn|Hin]; [|exact Hin].
    cbn in Hn. congruence. }
  assert (Hmeta : hparams_meta s3 = hparams_meta self).
  { assert (E1 : hparams_meta s1 = hparams_meta self).
    { match type of HL with ?m self = _ =>
        assert (Hk : keeps_meta m) end.
      { apply keeps_meta_for_fold. intros acc k.
        apply keeps_meta_bind; [apply keeps_meta_get_each|]. intros vs. cbv zeta.
        apply keeps_meta_bind; [apply keeps_meta_add_scalar|]. intros _.
        apply keeps_meta_ret. }
      destruct (Hk self) as [E _]. rewrite HL in E. exact E. }
    assert (E2 : hparams_meta s2 = hparams_meta s1).
    { match type of HD with ?m s1 = _ =>
        assert (Hk : keeps_meta m) end.
      { apply keeps_meta_for_fold. intros acc k.
        apply keeps_meta_bind; [apply keeps_meta_get_each|]. intros vs.
        apply keeps_meta_ret. }
      destruct (Hk s1) as [E _]. rewrite HD in E. exact E. }
    destruct (keeps_meta_log_metrics D s2) as [E3 _]. rewrite Hlog in E3. cbn in E3.
    congruence. }
  assert (Hloss : dict_get L "loss" <> None).
  { unfold get in Hvl. destruct (dict_get L "loss"); [discriminate|discriminate]. }
  assert (Hdice : dict_get D "mean_dice_mean" <> None).
  { unfold get in Hvd. destruct (dict_get D "mean_dice_mean"); [discriminate|discriminate]. }
  assert (Hbest : dict_get D (best_metric (hparams_meta s3)) <> None).
  { intros Hn. rewrite (check_best_key_error D s3 Hn) in Hchk. discriminate. }
  split; [now apply HLk|]. split.
  - destruct (HDk _ Hdice) as (k & Hk & [E|E]).
    + change "mean_dice_mean" with ("mean_dice" ++ "_mean") in E.
      apply append_suffix_inj in E. now subst k.
    + change "mean_dice_mean" with ("mean_dice" ++ "_mean") in E.
      now apply mean_suffix_not_std in E.
  - split.
    + rewrite <- Hmeta. now apply HDk.
    + now exists vl, vd.
Qed.

End LightningProps.

(** X17.  [_check_log_best_metric] keeps a running extremum: in "max" mode the
    best result becomes the maximum of the old result and the current metric,
    in "min" mode the minimum, and the value is logged under "best/<metric>"
    exactly when it strictly improves; the configuration and the step counter
    stay.  When the best metric is missing from the results it raises KeyError
    and leaves the module as it was. *)
Theorem check_log_best_metric_running_extremum metric_result self :
  let r := Lightning._check_log_best_metric metric_result self in
  let name := Lightning.best_metric (Lightning.hparams_meta self) in
  (dict_get metric_result name = None ->
   r = (inl (Lightning.KeyError name), self)) /\
  (forall current, dict_get metric_result name = Some current ->
   let entry := Lightning.mk_scalar ("best/" ++ name)%string current
                  (Lightning.global_step self) in
   fst r = inr tt /\
   Lightning.hparams_meta (snd r) = Lightning.hparams_meta self /\
   Lightning.global_step (snd r) = Lightning.global_step self /\
   (Lightning.best_metric_mode (Lightning.hparams_meta self) = "max"%string ->
      Lightning.best_metric_result (snd r)
        = Rmax (Lightning.best_metric_result self) current /\
      Lightning.logged (snd r)
        = if Rltb (Lightning.best_metric_result self) current
          then Lightning.logged self ++ [entry] else Lightning.logged self) /\
   (Lightning.best_metric_mode (Lightning.hparams_meta self) = "min"%string ->
      Lightning.best_metric_result (snd r)
        = Rmin (Lightning.best_metric_result self) current /\
      Lightning.logged (snd r)
        = if Rltb current (Lightning.best_metric_result self)
          then Lightning.logged self ++ [entry] else Lightning.logged self)).
Proof.
  intros r name. split.
  - intros H. now apply check_best_key_error.
  - intros current H entry.
    destruct (check_best_aux metric_result self current H)
      as (H1 & H2 & H3 & H4 & H5 & _).
    repeat split; try assumption; try (now apply H4); now apply H5.
Qed.

Lemma check_log_best_metric_running_extremum_witness :
  Lightning.best_metric_result
    (snd (Lightning._check_log_best_metric [("mean_dice_mean"%string, 0.8)]
            sample_lightning)) = Rmax 0 0.8.
Proof.
  destruct (check_log_best_metric_running_extremum
              [("mean_dice_mean"%string, 0.8)] sample_lightning) as [_ H].
  destruct (H 0.8 eq_refl) as (_ & _ & _ & Hmax & _).
  destruct (Hmax eq_refl) as [Hbest _]. exact Hbest.
Defined.

(** X18.  A [best_metric_mode] other than "max" and "min" is accepted
    silently: [_check_log_best_metric] returns without an error, never updates
    the best result and logs nothing. *)
Theorem check_log_best_metric_unknown_mode metric_result self current :
  dict_get metric_result (Lightning.best_metric (Lightning.hparams_meta self))
    = Some current ->
  Lightning.best_metric_mode (Lightning.hparams_meta self) <> "max"%string ->
  Lightning.best_metric_mode (Lightning.hparams_meta self) <> "min"%string ->
  Lightning._check_log_best_metric metric_result self = (inr tt, self).
Proof.
  intros H Hmax Hmin.
  destruct (check_best_aux metric_result self current H) as (H1 & _ & _ & _ & _ & H6).
  specialize (H6 Hmax Hmin).
  destruct (Lightning._check_log_best_metric metric_result self) as [res s'].
  cbn [fst snd] in *. now subst.
Qed.

Lemma check_log_best_metric_unknown_mode_witness :
  Lightning._check_log_best_metric [("mean_dice_mean"%string, 0.8)]
    (Lightning.init (Lightning.mk_meta "mean_dice_mean" "maximise" 0 None) 10%Z)
  = (inr tt, Lightning.init (Lightning.mk_meta "mean_dice_mean" "maximise" 0 None) 10%Z).
Proof.
  apply (check_log_best_metric_unknown_mode [("mean_dice_mean"%string, 0.8)]
           (Lightning.init (Lightning.mk_meta "mean_dice_mean" "maximise" 0 None) 10%Z)
           0.8).
  - reflexivity.
  - discriminate.
  - discriminate.
Defined.

(** X19.  [_log_metrics] only appends to the log.  Without a selection
    ([metrics_to_log] is None) it never raises and logs every entry of the
    result under "metrics/<key>", in order; with a selection it logs, for each
    selected metric in turn, its "_mean" and then its "_std" entry, provided
    both are in the result. *)
Theorem log_metrics_appends metric_result self :
  (forall selected,
     Lightning.metrics_to_log (Lightning.hparams_meta self) = Some selected ->
     forall m, In m selected ->
       dict_get metric_result (m ++ "_mean")%string <> None /\
       dict_get metric_result (m ++ "_std")%string <> None) ->
  Lightning._log_metrics metric_result self
  = (inr tt,
     with_logged self
       (metric_scalars (Lightning.metrics_to_log (Lightning.hparams_meta self))
          metric_result (Lightning.global_step self))).
Proof. exact (log_metrics_ok metric_result self). Qed.

Lemma log_metrics_appends_witness :
  Lightning._log_metrics [("dice_mean"%string, 0.8); ("dice_std"%string, 0.1)]
    sample_lightning
  = (inr tt,
     with_logged sample_lightning
       [Lightning.mk_scalar "metrics/dice_mean" 0.8 10%Z;
        Lightning.mk_scalar "metrics/dice_std" 0.1 10%Z]).
Proof.
  apply (log_metrics_appends [("dice_mean"%string, 0.8); ("dice_std"%string, 0.1)]
           sample_lightning).
  intros selected H. discriminate H.
Defined.

(** X20.  When every output carries the loss keys and the metric keys of the
    first one, "loss" is among the losses, "mean_dice" among the metrics, the
    selected metrics are metrics of the run and the best metric is one of the
    reduced "<metric>_mean" or "<metric>_std" entries, [validation_epoch_end]
    returns the mean over the outputs of the loss as 'val_loss' and of the
    Dice metric as 'mean_dice_mean', and keeps the configuration and the step
    counter. *)
Theorem validation_epoch_end_returns_batch_means l0 m0 rest self :
  let outputs := (l0, m0) :: rest in
  let losses := map fst outputs in
  let metrics := map snd outputs in
  (forall k x, In k (dict_keys l0) -> In x losses -> dict_get x k <> None) ->
  (forall k x, In k (dict_keys m0) -> In x metrics -> dict_get x k <> None) ->
  In "loss"%string (dict_keys l0) -> In "mean_dice"%string (dict_keys m0) ->
  (forall selected,
     Lightning.metrics_to_log (Lightning.hparams_meta self) = Some selected ->
     forall m, In m selected -> In m (dict_keys m0)) ->
  (exists k, In k (dict_keys m0) /\
     (Lightning.best_metric (Lightning.hparams_meta self) = (k ++ "_mean")%string \/
      Lightning.best_metric (Lightning.hparams_meta self) = (k ++ "_std")%string)) ->
  let r := Lightning.validation_epoch_end outputs self in
  fst r = inr [("val_loss"%string, mean_of (column losses "loss"));
               ("mean_dice_mean"%string, mean_of (column metrics "mean_dice"))] /\
  Lightning.hparams_meta (snd r) = Lightning.hparams_meta self /\
  Lightning.global_step (snd r) = Lightning.global_step self.
Proof. exact (validation_epoch_end_ok_aux l0 m0 rest self). Qed.

Lemma sample_outputs_ok :
  fst (Lightning.validation_epoch_end sample_outputs sample_lightning)
  = inr [("val_loss"%string, mean_of [1; 3]);
         ("mean_dice_mean"%string, mean_of [0.5; 0.7])].
Proof.
  apply (validation_epoch_end_ok_aux
           [("loss"%string, 1)] [("mean_dice"%string, 0.5)]
           [([("loss"%string, 3)], [("mean_dice"%string, 0.7)])] sample_lightning).
  - intros k x [<-|[]] [<-|[<-|[]]]; discriminate.
  - intros k x [<-|[]] [<-|[<-|[]]]; discriminate.
  - left. reflexivity.
  - left. reflexivity.
  - intros selected H. discriminate H.
  - exists "mean_dice"%string. split; [left; reflexivity|left; reflexivity].
Defined.

Lemma validation_epoch_end_returns_batch_means_witness :
  fst (Lightning.validation_epoch_end sample_outputs sample_lightning)
  = inr [("val_loss"%string, mean_of [1; 3]);
         ("mean_dice_mean"%string, mean_of [0.5; 0.7])].
Proof.
  apply (validation_epoch_end_returns_batch_means
           [("loss"%string, 1)] [("mean_dice"%string, 0.5)]
           [([("loss"%string, 3)], [("mean_dice"%string, 0.7)])] sample_lightning).
  - intros k x [<-|[]] [<-|[<-|[]]]; discriminate.
  - intros k x [<-|[]] [<-|[<-|[]]]; discriminate.
  - left. reflexivity.
  - left. reflexivity.
  - intros selected H. discriminate H.
  - exists "mean_dice"%string. split; [left; reflexivity|left; reflexivity].
Defined.

(** X21.  [validation_epoch_end] raises IndexError on an empty list of outputs,
    and it returns a value only if the first output has a loss named "loss"
    and a metric named "mean_dice", and the configured best metric is the
    "_mean" or "_std" entry of one of the metrics (a bare metric name raises
    KeyError); the value then has exactly the two keys 'val_loss' and
    'mean_dice_mean'. *)
Theorem validation_epoch_end_requirements outputs self :
  (outputs = [] ->
   Lightning.validation_epoch_end outputs self = (inl Lightning.IndexError, self)) /\
  (forall v, fst (Lightning.validation_epoch_end outputs self) = inr v ->
   exists l0 m0 rest,
     outputs = (l0, m0) :: rest /\
     In "loss"%string (dict_keys l0) /\ In "mean_dice"%string (dict_keys m0) /\
     (exists k, In k (dict_keys m0) /\
        (Lightning.best_metric (Lightning.hparams_meta self) = (k ++ "_mean")%string \/
         Lightning.best_metric (Lightning.hparams_meta self) = (k ++ "_std")%string)) /\
     exists val_loss mean_dice_mean,
       v = [("val_loss"%string, val_loss); ("mean_dice_mean"%string, mean_dice_mean)]).
Proof.
  split.
  - intros ->. reflexivity.
  - intros v. apply validation_epoch_end_needs_aux.
Qed.

Lemma validation_epoch_end_requirements_witness :
  exists l0 m0 rest,
    sample_outputs = (l0, m0) :: rest /\
    In "loss"%string (dict_keys l0) /\ In "mean_dice"%string (dict_keys m0).
Proof.
  destruct (validation_epoch_end_requirements sample_outputs sample_lightning) as [_ H].
  destruct (H _ sample_outputs_ok) as (l0 & m0 & rest & E & Hl & Hm & _).
  exists l0, m0, rest. split; [exact E|]. split; [exact Hl|exact Hm].
Defined.
